(** * joint_limits_interface: per-joint limit enforcement policies

    A shallow embedding of
    [joint_limits_interface/joint_limits_interface.hpp] (the six limit
    handles) and of [getJointLimits] and [getSoftJointLimits] from
    [joint_limits_interface/joint_limits_rosparam.hpp].

    C++ [double] values are IEEE 754 binary64 numbers, embedded as
    [spec_float] with precision 53 and maximal exponent 1024: the
    operations round to nearest-even, comparisons with NaN are false and
    both zeros compare equal, as on the target.

    Assertions are enabled ([NDEBUG] is not defined): a failed [assert],
    be it one of the handles or the one inside [rcppmath::clamp], ends
    the call. *)

From Stdlib Require Import ZArith Bool Lia.
From Stdlib Require Import Floats.SpecFloat.
From stdpp Require Import gmap strings.

Open Scope Z_scope.

(** ** C++ [double] *)

Module Double.

Definition prec : Z := 53.
Definition emax : Z := 1024.

Definition double : Type := spec_float.

Definition add : double -> double -> double := SFadd prec emax.
Definition sub : double -> double -> double := SFsub prec emax.
Definition mul : double -> double -> double := SFmul prec emax.
Definition div : double -> double -> double := SFdiv prec emax.
Definition neg : double -> double := SFopp.

(** [x < y], [x > y], [x <= y] and [x == y] of C++. *)
Definition ltb : double -> double -> bool := SFltb.
Definition gtb (x y : double) : bool := SFltb y x.
Definition leb : double -> double -> bool := SFleb.
Definition eqb : double -> double -> bool := SFeqb.

(** [std::isnan] *)
Definition isnan (x : double) : bool :=
  match x with
  | S754_nan => true
  | _ => false
  end.

(** [std::isfinite] *)
Definition isfinite (x : double) : bool :=
  match x with
  | S754_zero _ | S754_finite _ _ _ => true
  | S754_infinity _ | S754_nan => false
  end.

(** [std::numeric_limits<double>::quiet_NaN()] *)
Definition quiet_NaN : double := S754_nan.

(** [std::numeric_limits<double>::max()] *)
Definition numeric_limits_max : double := SFmax_float prec emax.

(** Integer literals such as [2.0]. *)
Definition of_Z (z : Z) : double := binary_normalize prec emax z 0 false.

Definition zero : double := S754_zero false.

End Double.

Import Double.

Declare Scope double_scope.
Delimit Scope double_scope with D.
Bind Scope double_scope with double.

Notation "x + y" := (add x y) : double_scope.
Notation "x - y" := (sub x y) : double_scope.
Notation "x * y" := (mul x y) : double_scope.
Notation "x / y" := (div x y) : double_scope.
Notation "- x" := (neg x) : double_scope.
Notation "x <? y" := (ltb x y) : double_scope.
Notation "x >? y" := (gtb x y) : double_scope.
Notation "x <=? y" := (leb x y) : double_scope.
Notation "x =? y" := (eqb x y) : double_scope.

(** ** Outcomes of a call *)

Inductive error : Type :=
| JointLimitsInterfaceException (what : string)
| InvalidParameterTypeException (name : string)
| AssertionFailed
| NullHandle.

Inductive result (A : Type) : Type :=
| Ok (a : A)
| Raise (e : error).

Arguments Ok {A} a.
Arguments Raise {A} e.

#[global] Instance result_ret : MRet result := fun _ a => Ok a.

#[global] Instance result_bind : MBind result := fun _ _ k m =>
  match m with
  | Ok a => k a
  | Raise e => Raise e
  end.

#[global] Instance result_fmap : FMap result := fun _ _ f m =>
  match m with
  | Ok a => Ok (f a)
  | Raise e => Raise e
  end.

(** [assert(c)] *)
Definition assert (c : bool) : result unit :=
  if c then Ok tt else Raise AssertionFailed.

Definition is_ok {A : Type} (r : result A) : bool :=
  match r with
  | Ok _ => true
  | Raise _ => false
  end.

(** ** Library functions the handles call

    [std::max], [std::min] and [rcppmath::clamp] are not part of the
    package; they are taken with their reference implementations, which
    decide what happens on NaN and on an interval whose lower end lies
    above its upper end. *)

(** [std::max(a, b)] is [(a < b) ? b : a]. *)
Definition std_max (a b : double) : double :=
  if (a <? b)%D then b else a.

(** [std::min(a, b)] is [(b < a) ? b : a]. *)
Definition std_min (a b : double) : double :=
  if (b <? a)%D then b else a.

(** The value [rcppmath::clamp] returns:
    [(v < lo) ? lo : (hi < v) ? hi : v]. *)
Definition clamp_value (v lo hi : double) : double :=
  if (v <? lo)%D then lo else if (hi <? v)%D then hi else v.

(** [rcppmath::clamp(v, lo, hi)] is
    [assert(!(hi < lo)); return (v < lo) ? lo : (hi < v) ? hi : v;]. *)
Definition clamp (v lo hi : double) : result double :=
  _ ← assert (negb (hi <? lo)%D);
  Ok (clamp_value v lo hi).

(** ** Joint handles

    A [std::shared_ptr<hardware_interface::JointHandle>] is either null or
    the address of a handle that several limit handles (and the
    controller) may share; the handles themselves live in the hardware
    store. *)

Record JointHandle : Type := {
  jh_name : string;
  jh_value : double
}.

Definition ptr : Type := nat.
Definition Hardware : Type := ptr -> JointHandle.

(** [p->get_value()] *)
Definition get_value (p : option ptr) (hw : Hardware) : result double :=
  match p with
  | Some a => Ok (jh_value (hw a))
  | None => Raise NullHandle
  end.

(** [p->set_value(v)] *)
Definition set_value (p : option ptr) (v : double) (hw : Hardware)
  : result Hardware :=
  match p with
  | Some a =>
      Ok (fun b => if Nat.eqb b a
                   then {| jh_name := jh_name (hw b); jh_value := v |}
                   else hw b)
  | None => Raise NullHandle
  end.

(** [rclcpp::Duration], observed through [seconds()] only. *)
Record Duration : Type := { seconds : double }.

(** Modelled from the spec: the struct [JointLimits] of
    [joint_limits_interface/joint_limits.hpp], with the fields of the data
    model (section 3). *)
Record JointLimits : Type := {
  min_position : double;
  max_position : double;
  max_velocity : double;
  max_acceleration : double;
  max_jerk : double;
  max_effort : double;
  has_position_limits : bool;
  has_velocity_limits : bool;
  has_acceleration_limits : bool;
  has_jerk_limits : bool;
  has_effort_limits : bool;
  angle_wraparound : bool
}.

(** Modelled from the spec: the struct [SoftJointLimits] of
    [joint_limits_interface/joint_limits.hpp] (section 3). *)
Record SoftJointLimits : Type := {
  soft_min_position : double;
  soft_max_position : double;
  k_position : double;
  k_velocity : double
}.

(** ** The base class [JointSaturationLimitHandle] *)

Record JointSaturationLimitHandle : Type := {
  jposh_ : option ptr;
  jvelh_ : option ptr;
  jcmdh_ : option ptr;
  limits_ : JointLimits;
  prev_pos_ : double;
  prev_vel_ : double
}.

Module Base.

(** The three-handle constructor; the two-handle one leaves [jvelh_]
    null. *)
Definition make (jposh jvelh jcmdh : option ptr) (limits : JointLimits)
  : JointSaturationLimitHandle :=
  {| jposh_ := jposh; jvelh_ := jvelh; jcmdh_ := jcmdh; limits_ := limits;
     prev_pos_ := quiet_NaN; prev_vel_ := zero |}.

Definition set_prev_pos (h : JointSaturationLimitHandle) (v : double) :=
  {| jposh_ := jposh_ h; jvelh_ := jvelh_ h; jcmdh_ := jcmdh_ h;
     limits_ := limits_ h; prev_pos_ := v; prev_vel_ := prev_vel_ h |}.

Definition set_prev_vel (h : JointSaturationLimitHandle) (v : double) :=
  {| jposh_ := jposh_ h; jvelh_ := jvelh_ h; jcmdh_ := jcmdh_ h;
     limits_ := limits_ h; prev_pos_ := prev_pos_ h; prev_vel_ := v |}.

Definition get_name (h : JointSaturationLimitHandle) (hw : Hardware)
  : string :=
  match jposh_ h with
  | Some a => jh_name (hw a)
  | None =>
      match jvelh_ h with
      | Some a => jh_name (hw a)
      | None =>
          match jcmdh_ h with
          | Some a => jh_name (hw a)
          | None => EmptyString
          end
      end
  end.

Definition reset (h : JointSaturationLimitHandle)
  : JointSaturationLimitHandle :=
  set_prev_vel (set_prev_pos h quiet_NaN) zero.

Definition get_velocity (h : JointSaturationLimitHandle) (period : Duration)
    (hw : Hardware) : result double :=
  match jvelh_ h with
  | Some a => Ok (jh_value (hw a))
  | None =>
      pos ← get_value (jposh_ h) hw;
      Ok ((pos - prev_pos_ h) / seconds period)%D
  end.

End Base.

(** The exception text of the constructors. *)
Definition no_limits_msg (name kind : string) : string :=
  ("Cannot enforce limits for joint '" ++ name ++ "'. It has no " ++ kind
     ++ " limits specification.")%string.

(** ** [PositionJointSaturationHandle] *)

Module PositionJointSaturationHandle.

Record t : Type := {
  base : JointSaturationLimitHandle;
  min_pos_limit_ : double;
  max_pos_limit_ : double
}.

Definition make (jposh jcmdh : option ptr) (limits : JointLimits)
  : result t :=
  let b := Base.make jposh None jcmdh limits in
  if has_position_limits limits
  then Ok {| base := b;
             min_pos_limit_ := min_position limits;
             max_pos_limit_ := max_position limits |}
  else Ok {| base := b;
             min_pos_limit_ := (- numeric_limits_max)%D;
             max_pos_limit_ := numeric_limits_max |}.

Definition with_base (h : t) (b : JointSaturationLimitHandle) : t :=
  {| base := b; min_pos_limit_ := min_pos_limit_ h;
     max_pos_limit_ := max_pos_limit_ h |}.

(** The interval of the cycle, from the cached position. *)
Definition window (h : t) (prev_pos : double) (period : Duration)
  : double * double :=
  if has_velocity_limits (limits_ (base h)) then
    let delta_pos := (max_velocity (limits_ (base h)) * seconds period)%D in
    (std_max (prev_pos - delta_pos)%D (min_pos_limit_ h),
     std_min (prev_pos + delta_pos)%D (max_pos_limit_ h))
  else (min_pos_limit_ h, max_pos_limit_ h).

Definition enforceLimits (h : t) (period : Duration) (hw : Hardware)
  : result (t * Hardware) :=
  prev_pos ← (if isnan (prev_pos_ (base h))
               then get_value (jposh_ (base h)) hw
               else Ok (prev_pos_ (base h)));
  let '(min_pos, max_pos) := window h prev_pos period in
  v ← get_value (jcmdh_ (base h)) hw;
  cmd ← clamp v min_pos max_pos;
  hw' ← set_value (jcmdh_ (base h)) cmd hw;
  Ok (with_base h (Base.set_prev_pos (base h) cmd), hw').

Definition reset (h : t) : t := with_base h (Base.reset (base h)).

End PositionJointSaturationHandle.

(** ** The base class [JointSoftLimitsHandle] *)

Record JointSoftLimitsHandle : Type := {
  sat : JointSaturationLimitHandle;
  soft_limits_ : SoftJointLimits
}.

Module SoftBase.

Definition make (jposh jvelh jcmdh : option ptr) (limits : JointLimits)
    (soft_limits : SoftJointLimits) : JointSoftLimitsHandle :=
  {| sat := Base.make jposh jvelh jcmdh limits;
     soft_limits_ := soft_limits |}.

Definition with_sat (h : JointSoftLimitsHandle)
    (b : JointSaturationLimitHandle) : JointSoftLimitsHandle :=
  {| sat := b; soft_limits_ := soft_limits_ h |}.

Definition reset (h : JointSoftLimitsHandle) : JointSoftLimitsHandle :=
  with_sat h (Base.reset (sat h)).

(** The velocity bounds that the position- and effort-controlled soft
    handles derive from the distance to the soft position band. *)
Definition soft_vel_bounds (limits : JointLimits) (soft : SoftJointLimits)
    (pos : double) : result (double * double) :=
  if has_position_limits limits then
    soft_min_vel ←
      clamp (- k_position soft * (pos - soft_min_position soft))%D
            (- max_velocity limits)%D (max_velocity limits);
    soft_max_vel ←
      clamp (- k_position soft * (pos - soft_max_position soft))%D
            (- max_velocity limits)%D (max_velocity limits);
    Ok (soft_min_vel, soft_max_vel)
  else Ok ((- max_velocity limits)%D, max_velocity limits).

End SoftBase.

(** ** [PositionJointSoftLimitsHandle] *)

Module PositionJointSoftLimitsHandle.

Definition t : Type := JointSoftLimitsHandle.

Definition make (jposh jcmdh : option ptr) (limits : JointLimits)
    (soft_limits : SoftJointLimits) (hw : Hardware) : result t :=
  let h := SoftBase.make jposh None jcmdh limits soft_limits in
  if negb (has_velocity_limits limits)
  then Raise (JointLimitsInterfaceException
                (no_limits_msg (Base.get_name (sat h) hw) "velocity"))
  else Ok h.

(** The position bounds of the cycle, from the cached position. *)
Definition window (h : t) (pos : double) (period : Duration)
  : result (double * double) :=
  '(soft_min_vel, soft_max_vel) ←
    SoftBase.soft_vel_bounds (limits_ (sat h)) (soft_limits_ h) pos;
  let dt := seconds period in
  let pos_low := (pos + soft_min_vel * dt)%D in
  let pos_high := (pos + soft_max_vel * dt)%D in
  if has_position_limits (limits_ (sat h))
  then Ok (std_max pos_low (min_position (limits_ (sat h))),
           std_min pos_high (max_position (limits_ (sat h))))
  else Ok (pos_low, pos_high).

Definition enforceLimits (h : t) (period : Duration) (hw : Hardware)
  : result (t * Hardware) :=
  _ ← assert (seconds period >? zero)%D;
  pos ← (if isnan (prev_pos_ (sat h))
         then get_value (jposh_ (sat h)) hw
         else Ok (prev_pos_ (sat h)));
  '(pos_low, pos_high) ← window h pos period;
  v ← get_value (jcmdh_ (sat h)) hw;
  pos_cmd ← clamp v pos_low pos_high;
  hw' ← set_value (jcmdh_ (sat h)) pos_cmd hw;
  cached ← get_value (jcmdh_ (sat h)) hw';
  Ok (SoftBase.with_sat h (Base.set_prev_pos (sat h) cached), hw').

Definition reset (h : t) : t := SoftBase.reset h.

End PositionJointSoftLimitsHandle.

(** ** [EffortJointSaturationHandle] *)

Module EffortJointSaturationHandle.

Definition t : Type := JointSaturationLimitHandle.

Definition make (jposh jvelh jcmdh : option ptr) (limits : JointLimits)
    (hw : Hardware) : result t :=
  let h := Base.make jposh jvelh jcmdh limits in
  if negb (has_velocity_limits limits)
  then Raise (JointLimitsInterfaceException
                (no_limits_msg (Base.get_name h hw) "velocity"))
  else if negb (has_effort_limits limits)
  then Raise (JointLimitsInterfaceException
                (no_limits_msg (Base.get_name h hw) "efforts"))
  else Ok h.

(** The constructor without a velocity handle delegates with [nullptr]. *)
Definition make_no_vel (jh jcmdh : option ptr) (limits : JointLimits)
    (hw : Hardware) : result t :=
  make jh None jcmdh limits hw.

(** The effort window after the position test. *)
Definition position_window (limits : JointLimits) (pos : double)
  : double * double :=
  if (pos <? min_position limits)%D
  then (zero, max_effort limits)
  else if (pos >? max_position limits)%D
  then ((- max_effort limits)%D, zero)
  else ((- max_effort limits)%D, max_effort limits).

(** The effort window after the velocity test. *)
Definition velocity_window (limits : JointLimits) (vel : double)
    (w : double * double) : double * double :=
  if (vel <? - max_velocity limits)%D
  then (zero, snd w)
  else if (vel >? max_velocity limits)%D
  then (fst w, zero)
  else w.

(** The effort window of the cycle. *)
Definition window (h : t) (period : Duration) (hw : Hardware)
  : result (double * double) :=
  w ← (if has_position_limits (limits_ h)
       then pos ← get_value (jposh_ h) hw;
            Ok (position_window (limits_ h) pos)
       else Ok ((- max_effort (limits_ h))%D, max_effort (limits_ h)));
  vel ← Base.get_velocity h period hw;
  Ok (velocity_window (limits_ h) vel w).

Definition enforceLimits (h : t) (period : Duration) (hw : Hardware)
  : result (t * Hardware) :=
  '(min_eff, max_eff) ← window h period hw;
  v ← get_value (jcmdh_ h) hw;
  clamped ← clamp v min_eff max_eff;
  hw' ← set_value (jcmdh_ h) clamped hw;
  Ok (h, hw').

Definition reset (h : t) : t := Base.reset h.

(** The states a handle goes through: any sequence of cycles and
    resets, over whatever the hardware holds at each cycle. *)
Inductive reachable (h0 : t) : t → Prop :=
| reach_init : reachable h0 h0
| reach_reset h : reachable h0 h → reachable h0 (reset h)
| reach_cycle h period hw h' hw' :
    reachable h0 h →
    enforceLimits h period hw = Ok (h', hw') →
    reachable h0 h'.

End EffortJointSaturationHandle.

(** ** [EffortJointSoftLimitsHandle] *)

Module EffortJointSoftLimitsHandle.

Definition t : Type := JointSoftLimitsHandle.

Definition make (jposh jvelh jcmdh : option ptr) (limits : JointLimits)
    (soft_limits : SoftJointLimits) (hw : Hardware) : result t :=
  let h := SoftBase.make jposh jvelh jcmdh limits soft_limits in
  if negb (has_velocity_limits limits)
  then Raise (JointLimitsInterfaceException
                (no_limits_msg (Base.get_name (sat h) hw) "velocity"))
  else if negb (has_effort_limits limits)
  then Raise (JointLimitsInterfaceException
                (no_limits_msg (Base.get_name (sat h) hw) "effort"))
  else Ok h.

Definition make_no_vel (jh jcmdh : option ptr) (limits : JointLimits)
    (soft_limits : SoftJointLimits) (hw : Hardware) : result t :=
  make jh None jcmdh limits soft_limits hw.

(** The soft effort bounds of the cycle. *)
Definition window (h : t) (period : Duration) (hw : Hardware)
  : result (double * double) :=
  pos ← get_value (jposh_ (sat h)) hw;
  vel ← Base.get_velocity (sat h) period hw;
  '(soft_min_vel, soft_max_vel) ←
    SoftBase.soft_vel_bounds (limits_ (sat h)) (soft_limits_ h) pos;
  let max_eff := max_effort (limits_ (sat h)) in
  soft_min_eff ←
    clamp (- k_velocity (soft_limits_ h) * (vel - soft_min_vel))%D
          (- max_eff)%D max_eff;
  soft_max_eff ←
    clamp (- k_velocity (soft_limits_ h) * (vel - soft_max_vel))%D
          (- max_eff)%D max_eff;
  Ok (soft_min_eff, soft_max_eff).

Definition enforceLimits (h : t) (period : Duration) (hw : Hardware)
  : result (t * Hardware) :=
  '(soft_min_eff, soft_max_eff) ← window h period hw;
  v ← get_value (jcmdh_ (sat h)) hw;
  eff_cmd ← clamp v soft_min_eff soft_max_eff;
  hw' ← set_value (jcmdh_ (sat h)) eff_cmd hw;
  Ok (h, hw').

Definition reset (h : t) : t := SoftBase.reset h.

End EffortJointSoftLimitsHandle.

(** ** [VelocityJointSaturationHandle] *)

Module VelocityJointSaturationHandle.

Definition t : Type := JointSaturationLimitHandle.

Definition make (jvelh jcmdh : option ptr) (limits : JointLimits)
    (hw : Hardware) : result t :=
  let h := Base.make None jvelh jcmdh limits in
  if negb (has_velocity_limits limits)
  then Raise (JointLimitsInterfaceException
                (no_limits_msg (Base.get_name h hw) "velocity"))
  else Ok h.

(** The constructor that takes the command handle only. *)
Definition make_cmd_only (jcmdh : option ptr) (limits : JointLimits)
    (hw : Hardware) : result t :=
  let h := Base.make None None jcmdh limits in
  if negb (has_velocity_limits limits)
  then Raise (JointLimitsInterfaceException
                (no_limits_msg (Base.get_name h hw) "velocity"))
  else Ok h.

(** The velocity bounds of the cycle. *)
Definition window (h : t) (period : Duration) : result (double * double) :=
  if has_acceleration_limits (limits_ h) then
    _ ← assert (seconds period >? zero)%D;
    let dt := seconds period in
    Ok (std_max (prev_vel_ h - max_acceleration (limits_ h) * dt)%D
                (- max_velocity (limits_ h))%D,
        std_min (prev_vel_ h + max_acceleration (limits_ h) * dt)%D
                (max_velocity (limits_ h)))
  else Ok ((- max_velocity (limits_ h))%D, max_velocity (limits_ h)).

Definition enforceLimits (h : t) (period : Duration) (hw : Hardware)
  : result (t * Hardware) :=
  '(vel_low, vel_high) ← window h period;
  v ← get_value (jcmdh_ h) hw;
  vel_cmd ← clamp v vel_low vel_high;
  hw' ← set_value (jcmdh_ h) vel_cmd hw;
  cached ← get_value (jcmdh_ h) hw';
  Ok (Base.set_prev_vel h cached, hw').

Definition reset (h : t) : t := Base.reset h.

End VelocityJointSaturationHandle.

(** ** [VelocityJointSoftLimitsHandle] *)

Module VelocityJointSoftLimitsHandle.

Record t : Type := {
  soft : JointSoftLimitsHandle;
  max_vel_limit_ : double
}.

Definition make (jposh jvelh jcmdh : option ptr) (limits : JointLimits)
    (soft_limits : SoftJointLimits) : result t :=
  let h := SoftBase.make jposh jvelh jcmdh limits soft_limits in
  if has_velocity_limits limits
  then Ok {| soft := h; max_vel_limit_ := max_velocity limits |}
  else Ok {| soft := h; max_vel_limit_ := numeric_limits_max |}.

Definition with_soft (h : t) (s : JointSoftLimitsHandle) : t :=
  {| soft := s; max_vel_limit_ := max_vel_limit_ h |}.

(** The velocity bounds from the soft position band. *)
Definition position_window (h : t) (hw : Hardware)
  : result (double * double) :=
  let limits := limits_ (sat (soft h)) in
  let sl := soft_limits_ (soft h) in
  if has_position_limits limits then
    pos ← get_value (jposh_ (sat (soft h))) hw;
    min_vel ← clamp (- k_position sl * (pos - soft_min_position sl))%D
                    (- max_vel_limit_ h)%D (max_vel_limit_ h);
    max_vel ← clamp (- k_position sl * (pos - soft_max_position sl))%D
                    (- max_vel_limit_ h)%D (max_vel_limit_ h);
    Ok (min_vel, max_vel)
  else Ok ((- max_vel_limit_ h)%D, max_vel_limit_ h).

(** The velocity bounds of the cycle. *)
Definition window (h : t) (period : Duration) (hw : Hardware)
  : result (double * double) :=
  let limits := limits_ (sat (soft h)) in
  '(min_vel, max_vel) ← position_window h hw;
  if has_acceleration_limits limits then
    vel ← Base.get_velocity (sat (soft h)) period hw;
    let delta_t := seconds period in
    Ok (std_max (vel - max_acceleration limits * delta_t)%D min_vel,
        std_min (vel + max_acceleration limits * delta_t)%D max_vel)
  else Ok (min_vel, max_vel).

Definition enforceLimits (h : t) (period : Duration) (hw : Hardware)
  : result (t * Hardware) :=
  '(min_vel, max_vel) ← window h period hw;
  v ← get_value (jcmdh_ (sat (soft h))) hw;
  cmd ← clamp v min_vel max_vel;
  hw' ← set_value (jcmdh_ (sat (soft h))) cmd hw;
  Ok (h, hw').

Definition reset (h : t) : t := with_soft h (SoftBase.reset (soft h)).

(** The states a handle goes through: any sequence of cycles and
    resets, over whatever the hardware holds at each cycle. *)
Inductive reachable (h0 : t) : t → Prop :=
| reach_init : reachable h0 h0
| reach_reset h : reachable h0 h → reachable h0 (reset h)
| reach_cycle h period hw h' hw' :
    reachable h0 h →
    enforceLimits h period hw = Ok (h', hw') →
    reachable h0 h'.

End VelocityJointSoftLimitsHandle.

(** ** [getSoftJointLimits]

    The node is seen through its parameter table: [has_parameter] tests
    the presence of a name, and the typed [get_parameter(name, out)]
    assigns [out] and returns true when the name is present, leaves [out]
    alone and returns false when it is not, and throws when the stored
    value has another type. *)

Inductive ParameterValue : Type :=
| PARAMETER_BOOL (b : bool)
| PARAMETER_INTEGER (z : Z)
| PARAMETER_DOUBLE (d : double)
| PARAMETER_STRING (s : string).

Record Node : Type := {
  node_name : string;
  parameters : gmap string ParameterValue
}.

Definition has_parameter (node : Node) (name : string) : bool :=
  bool_decide (is_Some (parameters node !! name)).

(** [node->get_parameter(name, out)] for a [bool]: the returned flag and
    the value of [out] after the call. *)
Definition get_parameter_bool (node : Node) (name : string) (out : bool)
  : result (bool * bool) :=
  match parameters node !! name with
  | None => Ok (false, out)
  | Some (PARAMETER_BOOL b) => Ok (true, b)
  | Some _ => Raise (InvalidParameterTypeException name)
  end.

(** [node->get_parameter(name, out)] for a [double]. *)
Definition get_parameter_double (node : Node) (name : string) (out : double)
  : result (bool * double) :=
  match parameters node !! name with
  | None => Ok (false, out)
  | Some (PARAMETER_DOUBLE d) => Ok (true, d)
  | Some _ => Raise (InvalidParameterTypeException name)
  end.

Definition getSoftJointLimits (joint_name : string) (node : Node)
    (soft_limits : SoftJointLimits) : result (bool * SoftJointLimits) :=
  let param_base_name := ("joint_limits." ++ joint_name)%string in
  let p (field : string) := (param_base_name ++ field)%string in
  if negb (has_parameter node (p ".has_soft_limits")) &&
     negb (has_parameter node (p ".k_velocity")) &&
     negb (has_parameter node (p ".k_position")) &&
     negb (has_parameter node (p ".soft_lower_limit")) &&
     negb (has_parameter node (p ".soft_upper_limit"))
  then Ok (false, soft_limits)
  else
    '(found, has_soft_limits) ←
       get_parameter_bool node (p ".has_soft_limits") false;
    if found && (has_soft_limits &&
       has_parameter node (p ".k_position") &&
       has_parameter node (p ".k_velocity") &&
       has_parameter node (p ".soft_lower_limit") &&
       has_parameter node (p ".soft_upper_limit"))
    then
      '(_, kp) ← get_parameter_double node (p ".k_position")
                   (k_position soft_limits);
      '(_, kv) ← get_parameter_double node (p ".k_velocity")
                   (k_velocity soft_limits);
      '(_, lo) ← get_parameter_double node (p ".soft_lower_limit")
                   (soft_min_position soft_limits);
      '(_, hi) ← get_parameter_double node (p ".soft_upper_limit")
                   (soft_max_position soft_limits);
      Ok (true, {| soft_min_position := lo; soft_max_position := hi;
                    k_position := kp; k_velocity := kv |})
    else Ok (false, soft_limits).

(** ** [getJointLimits]

    The function first tests the presence of eighteen names, then runs
    five blocks, one per group of limits; each block is given here as a
    function of its own, in the order of the source. *)

Module Limits.

Definition with_has_position_limits (l : JointLimits) (b : bool) : JointLimits :=
  {| min_position := min_position l; max_position := max_position l;
     max_velocity := max_velocity l; max_acceleration := max_acceleration l;
     max_jerk := max_jerk l; max_effort := max_effort l;
     has_position_limits := b;
     has_velocity_limits := has_velocity_limits l;
     has_acceleration_limits := has_acceleration_limits l;
     has_jerk_limits := has_jerk_limits l;
     has_effort_limits := has_effort_limits l;
     angle_wraparound := angle_wraparound l |}.

(** [has_position_limits = true; min_position = lo; max_position = hi] *)
Definition with_position (l : JointLimits) (lo hi : double) : JointLimits :=
  {| min_position := lo; max_position := hi;
     max_velocity := max_velocity l; max_acceleration := max_acceleration l;
     max_jerk := max_jerk l; max_effort := max_effort l;
     has_position_limits := true;
     has_velocity_limits := has_velocity_limits l;
     has_acceleration_limits := has_acceleration_limits l;
     has_jerk_limits := has_jerk_limits l;
     has_effort_limits := has_effort_limits l;
     angle_wraparound := angle_wraparound l |}.

Definition with_angle_wraparound (l : JointLimits) (b : bool) : JointLimits :=
  {| min_position := min_position l; max_position := max_position l;
     max_velocity := max_velocity l; max_acceleration := max_acceleration l;
     max_jerk := max_jerk l; max_effort := max_effort l;
     has_position_limits := has_position_limits l;
     has_velocity_limits := has_velocity_limits l;
     has_acceleration_limits := has_acceleration_limits l;
     has_jerk_limits := has_jerk_limits l;
     has_effort_limits := has_effort_limits l;
     angle_wraparound := b |}.

Definition with_has_velocity_limits (l : JointLimits) (b : bool) : JointLimits :=
  {| min_position := min_position l; max_position := max_position l;
     max_velocity := max_velocity l; max_acceleration := max_acceleration l;
     max_jerk := max_jerk l; max_effort := max_effort l;
     has_position_limits := has_position_limits l;
     has_velocity_limits := b;
     has_acceleration_limits := has_acceleration_limits l;
     has_jerk_limits := has_jerk_limits l;
     has_effort_limits := has_effort_limits l;
     angle_wraparound := angle_wraparound l |}.

(** [has_velocity_limits = true; max_velocity = v] *)
Definition with_velocity (l : JointLimits) (v : double) : JointLimits :=
  {| min_position := min_position l; max_position := max_position l;
     max_velocity := v; max_acceleration := max_acceleration l;
     max_jerk := max_jerk l; max_effort := max_effort l;
     has_position_limits := has_position_limits l;
     has_velocity_limits := true;
     has_acceleration_limits := has_acceleration_limits l;
     has_jerk_limits := has_jerk_limits l;
     has_effort_limits := has_effort_limits l;
     angle_wraparound := angle_wraparound l |}.

Definition with_has_acceleration_limits (l : JointLimits) (b : bool)
  : JointLimits :=
  {| min_position := min_position l; max_position := max_position l;
     max_velocity := max_velocity l; max_acceleration := max_acceleration l;
     max_jerk := max_jerk l; max_effort := max_effort l;
     has_position_limits := has_position_limits l;
     has_velocity_limits := has_velocity_limits l;
     has_acceleration_limits := b;
     has_jerk_limits := has_jerk_limits l;
     has_effort_limits := has_effort_limits l;
     angle_wraparound := angle_wraparound l |}.

(** [has_acceleration_limits = true; max_acceleration = v] *)
Definition with_acceleration (l : JointLimits) (v : double) : JointLimits :=
  {| min_position := min_position l; max_position := max_position l;
     max_velocity := max_velocity l; max_acceleration := v;
     max_jerk := max_jerk l; max_effort := max_effort l;
     has_position_limits := has_position_limits l;
     has_velocity_limits := has_velocity_limits l;
     has_acceleration_limits := true;
     has_jerk_limits := has_jerk_limits l;
     has_effort_limits := has_effort_limits l;
     angle_wraparound := angle_wraparound l |}.

Definition with_has_jerk_limits (l : JointLimits) (b : bool) : JointLimits :=
  {| min_position := min_position l; max_position := max_position l;
     max_velocity := max_velocity l; max_acceleration := max_acceleration l;
     max_jerk := max_jerk l; max_effort := max_effort l;
     has_position_limits := has_position_limits l;
     has_velocity_limits := has_velocity_limits l;
     has_acceleration_limits := has_acceleration_limits l;
     has_jerk_limits := b;
     has_effort_limits := has_effort_limits l;
     angle_wraparound := angle_wraparound l |}.

(** [has_jerk_limits = true; max_jerk = v] *)
Definition with_jerk (l : JointLimits) (v : double) : JointLimits :=
  {| min_position := min_position l; max_position := max_position l;
     max_velocity := max_velocity l; max_acceleration := max_acceleration l;
     max_jerk := v; max_effort := max_effort l;
     has_position_limits := has_position_limits l;
     has_velocity_limits := has_velocity_limits l;
     has_acceleration_limits := has_acceleration_limits l;
     has_jerk_limits := true;
     has_effort_limits := has_effort_limits l;
     angle_wraparound := angle_wraparound l |}.

Definition with_has_effort_limits (l : JointLimits) (b : bool) : JointLimits :=
  {| min_position := min_position l; max_position := max_position l;
     max_velocity := max_velocity l; max_acceleration := max_acceleration l;
     max_jerk := max_jerk l; max_effort := max_effort l;
     has_position_limits := has_position_limits l;
     has_velocity_limits := has_velocity_limits l;
     has_acceleration_limits := has_acceleration_limits l;
     has_jerk_limits := has_jerk_limits l;
     has_effort_limits := b;
     angle_wraparound := angle_wraparound l |}.

(** [has_effort_limits = true; max_effort = v] *)
Definition with_effort (l : JointLimits) (v : double) : JointLimits :=
  {| min_position := min_position l; max_position := max_position l;
     max_velocity := max_velocity l; max_acceleration := max_acceleration l;
     max_jerk := max_jerk l; max_effort := v;
     has_position_limits := has_position_limits l;
     has_velocity_limits := has_velocity_limits l;
     has_acceleration_limits := has_acceleration_limits l;
     has_jerk_limits := has_jerk_limits l;
     has_effort_limits := true;
     angle_wraparound := angle_wraparound l |}.

End Limits.

(** The names whose presence makes [getJointLimits] go on. *)
Definition joint_limits_fields : list string :=
  [ ".has_position_limits"; ".min_position"; ".max_position";
    ".has_velocity_limits"; ".min_velocity"; ".max_velocity";
    ".has_acceleration_limits"; ".max_acceleration";
    ".has_jerk_limits"; ".max_jerk";
    ".has_effort_limits"; ".max_effort";
    ".angle_wraparound"; ".has_soft_limits";
    ".k_position"; ".k_velocity";
    ".soft_lower_limit"; ".soft_upper_limit" ]%string.

(** The position block. *)
Definition load_position_limits (node : Node) (base : string)
    (limits : JointLimits) : result JointLimits :=
  '(found, has_position_limits) ←
     get_parameter_bool node (base ++ ".has_position_limits")%string false;
  if (found : bool) then
    let limits :=
      if negb (has_position_limits : bool)
      then Limits.with_has_position_limits limits false else limits in
    limits ←
      (if has_position_limits then
         '(found_min, min_pos) ←
            get_parameter_double node (base ++ ".min_position")%string zero;
         if (found_min : bool) then
           '(found_max, max_pos) ←
              get_parameter_double node (base ++ ".max_position")%string zero;
           if (found_max : bool)
           then Ok (Limits.with_position limits min_pos max_pos)
           else Ok limits
         else Ok limits
       else Ok limits);
    if negb (has_position_limits : bool) then
      '(found_wrap, wrap) ←
         get_parameter_bool node (base ++ ".angle_wraparound")%string false;
      if (found_wrap : bool)
      then Ok (Limits.with_angle_wraparound limits wrap)
      else Ok limits
    else Ok limits
  else Ok limits.

(** The velocity block. *)
Definition load_velocity_limits (node : Node) (base : string)
    (limits : JointLimits) : result JointLimits :=
  '(found, has_velocity_limits) ←
     get_parameter_bool node (base ++ ".has_velocity_limits")%string false;
  if (found : bool) then
    let limits :=
      if negb (has_velocity_limits : bool)
      then Limits.with_has_velocity_limits limits false else limits in
    if has_velocity_limits then
      '(found_max, max_vel) ←
         get_parameter_double node (base ++ ".max_velocity")%string zero;
      if (found_max : bool) then Ok (Limits.with_velocity limits max_vel) else Ok limits
    else Ok limits
  else Ok limits.

(** The acceleration block. *)
Definition load_acceleration_limits (node : Node) (base : string)
    (limits : JointLimits) : result JointLimits :=
  '(found, has_acceleration_limits) ←
     get_parameter_bool node (base ++ ".has_acceleration_limits")%string false;
  if (found : bool) then
    let limits :=
      if negb (has_acceleration_limits : bool)
      then Limits.with_has_acceleration_limits limits false else limits in
    if has_acceleration_limits then
      '(found_max, max_acc) ←
         get_parameter_double node (base ++ ".max_acceleration")%string zero;
      if (found_max : bool)
      then Ok (Limits.with_acceleration limits max_acc) else Ok limits
    else Ok limits
  else Ok limits.

(** The jerk block. *)
Definition load_jerk_limits (node : Node) (base : string)
    (limits : JointLimits) : result JointLimits :=
  '(found, has_jerk_limits) ←
     get_parameter_bool node (base ++ ".has_jerk_limits")%string false;
  if (found : bool) then
    let limits :=
      if negb (has_jerk_limits : bool)
      then Limits.with_has_jerk_limits limits false else limits in
    if has_jerk_limits then
      '(found_max, max_jerk) ←
         get_parameter_double node (base ++ ".max_jerk")%string zero;
      if (found_max : bool) then Ok (Limits.with_jerk limits max_jerk) else Ok limits
    else Ok limits
  else Ok limits.

(** The effort block. *)
Definition load_effort_limits (node : Node) (base : string)
    (limits : JointLimits) : result JointLimits :=
  '(found, has_effort_limits) ←
     get_parameter_bool node (base ++ ".has_effort_limits")%string false;
  if (found : bool) then
    let limits :=
      if negb (has_effort_limits : bool)
      then Limits.with_has_effort_limits limits false else limits in
    if has_effort_limits then
      '(found_max, max_effort) ←
         get_parameter_double node (base ++ ".max_effort")%string zero;
      if (found_max : bool) then Ok (Limits.with_effort limits max_effort) else Ok limits
    else Ok limits
  else Ok limits.

Definition getJointLimits (joint_name : string) (node : Node)
    (limits : JointLimits) : result (bool * JointLimits) :=
  let param_base_name := ("joint_limits." ++ joint_name)%string in
  if forallb (fun field =>
                negb (has_parameter node (param_base_name ++ field)%string))
       joint_limits_fields
  then Ok (false, limits)
  else
    limits ← load_position_limits node param_base_name limits;
    limits ← load_velocity_limits node param_base_name limits;
    limits ← load_acceleration_limits node param_base_name limits;
    limits ← load_jerk_limits node param_base_name limits;
    limits ← load_effort_limits node param_base_name limits;
    Ok (true, limits).

(** A field-wise overwrite of a [JointLimits]: [None] keeps the field. *)
Record LimitsPatch : Type := {
  p_min_position : option double;
  p_max_position : option double;
  p_max_velocity : option double;
  p_max_acceleration : option double;
  p_max_jerk : option double;
  p_max_effort : option double;
  p_has_position_limits : option bool;
  p_has_velocity_limits : option bool;
  p_has_acceleration_limits : option bool;
  p_has_jerk_limits : option bool;
  p_has_effort_limits : option bool;
  p_angle_wraparound : option bool
}.

Definition patch_limits (p : LimitsPatch) (l : JointLimits) : JointLimits :=
  {| min_position := default (min_position l) (p_min_position p);
     max_position := default (max_position l) (p_max_position p);
     max_velocity := default (max_velocity l) (p_max_velocity p);
     max_acceleration := default (max_acceleration l) (p_max_acceleration p);
     max_jerk := default (max_jerk l) (p_max_jerk p);
     max_effort := default (max_effort l) (p_max_effort p);
     has_position_limits :=
       default (has_position_limits l) (p_has_position_limits p);
     has_velocity_limits :=
       default (has_velocity_limits l) (p_has_velocity_limits p);
     has_acceleration_limits :=
       default (has_acceleration_limits l) (p_has_acceleration_limits p);
     has_jerk_limits := default (has_jerk_limits l) (p_has_jerk_limits p);
     has_effort_limits :=
       default (has_effort_limits l) (p_has_effort_limits p);
     angle_wraparound := default (angle_wraparound l) (p_angle_wraparound p) |}.

(** [q] after [p]. *)
Definition patch_then (p q : LimitsPatch) : LimitsPatch :=
  {| p_min_position := p_min_position q ∪ p_min_position p;
     p_max_position := p_max_position q ∪ p_max_position p;
     p_max_velocity := p_max_velocity q ∪ p_max_velocity p;
     p_max_acceleration := p_max_acceleration q ∪ p_max_acceleration p;
     p_max_jerk := p_max_jerk q ∪ p_max_jerk p;
     p_max_effort := p_max_effort q ∪ p_max_effort p;
     p_has_position_limits :=
       p_has_position_limits q ∪ p_has_position_limits p;
     p_has_velocity_limits :=
       p_has_velocity_limits q ∪ p_has_velocity_limits p;
     p_has_acceleration_limits :=
       p_has_acceleration_limits q ∪ p_has_acceleration_limits p;
     p_has_jerk_limits := p_has_jerk_limits q ∪ p_has_jerk_limits p;
     p_has_effort_limits := p_has_effort_limits q ∪ p_has_effort_limits p;
     p_angle_wraparound := p_angle_wraparound q ∪ p_angle_wraparound p |}.

Definition empty_patch : LimitsPatch :=
  {| p_min_position := None; p_max_position := None;
     p_max_velocity := None; p_max_acceleration := None;
     p_max_jerk := None; p_max_effort := None;
     p_has_position_limits := None; p_has_velocity_limits := None;
     p_has_acceleration_limits := None; p_has_jerk_limits := None;
     p_has_effort_limits := None; p_angle_wraparound := None |}.

(** ** Vocabulary of the statements *)

(** The two zeros. *)
Definition is_zero (x : double) : bool :=
  match x with
  | S754_zero _ => true
  | _ => false
  end.

(** [x] and [y] are the same number: equal, or two zeros. *)
Definition same (x y : double) : Prop :=
  x = y ∨ (is_zero x = true ∧ is_zero y = true).

(** [w] is [cmd] clamped into what the intervals [[a1, b1]] and
    [[a2, b2]] have in common: it lies in both; it is [cmd] when [cmd]
    lies in both; and when it is above [cmd] it is one of the lower
    ends, when it is below [cmd] one of the upper ends. *)
Definition clamped_into (cmd w a1 b1 a2 b2 : double) : Prop :=
  ((a1 <=? w)%D = true ∧ (w <=? b1)%D = true) ∧
  ((a2 <=? w)%D = true ∧ (w <=? b2)%D = true) ∧
  ((a1 <=? cmd)%D = true → (cmd <=? b1)%D = true →
   (a2 <=? cmd)%D = true → (cmd <=? b2)%D = true → w = cmd) ∧
  ((cmd <? w)%D = true → w = a1 ∨ w = a2) ∧
  ((w <? cmd)%D = true → w = b1 ∨ w = b2).

(** The value of the command handle after the call. *)
Definition command_after {T : Type} (jcmdh : ptr) (r : result (T * Hardware))
  : option double :=
  match r with
  | Ok (_, hw') => Some (jh_value (hw' jcmdh))
  | Raise _ => None
  end.

(** The limit handle after the call. *)
Definition handle_after {T : Type} (r : result (T * Hardware)) : option T :=
  match r with
  | Ok (h', _) => Some h'
  | Raise _ => None
  end.

(** The outcome of a constructor: a handle exactly when [required] holds,
    the configuration error otherwise. *)
Definition constructs_iff {T : Type} (r : result T) (required : bool) : Prop :=
  match r with
  | Ok _ => required = true
  | Raise e => required = false ∧ ∃ what, e = JointLimitsInterfaceException what
  end.

(** ** Scenarios *)

Module PositionSaturationScenario.

(** Position limits [-1, 1], velocity limit 2, period 1 s. *)
Definition limits : JointLimits :=
  {| min_position := of_Z (-1); max_position := of_Z 1;
     max_velocity := of_Z 2; max_acceleration := zero;
     max_jerk := zero; max_effort := zero;
     has_position_limits := true; has_velocity_limits := true;
     has_acceleration_limits := false; has_jerk_limits := false;
     has_effort_limits := false; angle_wraparound := false |}.

Definition jposh : ptr := 0%nat.
Definition jcmdh : ptr := 1%nat.

Definition hw (measured cmd : double) : Hardware :=
  fun a => {| jh_name := "joint";
              jh_value := if Nat.eqb a jposh then measured else cmd |}.

Definition period : Duration := {| seconds := of_Z 1 |}.

(** One cycle of a handle whose cached position is [prev]. *)
Definition run (prev measured cmd : double)
  : result (PositionJointSaturationHandle.t * Hardware) :=
  h0 ← PositionJointSaturationHandle.make (Some jposh) (Some jcmdh) limits;
  PositionJointSaturationHandle.enforceLimits
    (PositionJointSaturationHandle.with_base h0
       (Base.set_prev_pos (PositionJointSaturationHandle.base h0) prev))
    period (hw measured cmd).

End PositionSaturationScenario.

Module VelocitySaturationScenario.

(** Velocity limit 10, acceleration limit 1, period 1 s. *)
Definition limits : JointLimits :=
  {| min_position := zero; max_position := zero;
     max_velocity := of_Z 10; max_acceleration := of_Z 1;
     max_jerk := zero; max_effort := zero;
     has_position_limits := false; has_velocity_limits := true;
     has_acceleration_limits := true; has_jerk_limits := false;
     has_effort_limits := false; angle_wraparound := false |}.

Definition jcmdh : ptr := 0%nat.

Definition hw (cmd : double) : Hardware :=
  fun _ => {| jh_name := "joint"; jh_value := cmd |}.

Definition period : Duration := {| seconds := of_Z 1 |}.

(** The first cycle of a new handle: the cached velocity is 0. *)
Definition run (cmd : double)
  : result (VelocityJointSaturationHandle.t * Hardware) :=
  h ← VelocityJointSaturationHandle.make_cmd_only (Some jcmdh) limits (hw cmd);
  VelocityJointSaturationHandle.enforceLimits h period (hw cmd).

(** The velocity bounds of the cycle that follows a first cycle with
    the command [cmd1]. *)
Definition window_after (cmd1 : double) : result (double * double) :=
  '(h1, _) ← run cmd1;
  VelocityJointSaturationHandle.window h1 period.

(** Two cycles of a new handle, with the commands [cmd1] and [cmd2]. *)
Definition run_two (cmd1 cmd2 : double)
  : result (VelocityJointSaturationHandle.t * Hardware) :=
  '(h1, _) ← run cmd1;
  VelocityJointSaturationHandle.enforceLimits h1 period (hw cmd2).

End VelocitySaturationScenario.

Module EffortSaturationScenario.

(** Effort limit 20, velocity limit 5, position limits [-1, 1]. *)
Definition limits : JointLimits :=
  {| min_position := of_Z (-1); max_position := of_Z 1;
     max_velocity := of_Z 5; max_acceleration := zero;
     max_jerk := zero; max_effort := of_Z 20;
     has_position_limits := true; has_velocity_limits := true;
     has_acceleration_limits := false; has_jerk_limits := false;
     has_effort_limits := true; angle_wraparound := false |}.

Definition jposh : ptr := 0%nat.
Definition jvelh : ptr := 1%nat.
Definition jcmdh : ptr := 2%nat.

Definition hw (pos vel cmd : double) : Hardware :=
  fun a => {| jh_name := "joint";
              jh_value := if Nat.eqb a jposh then pos
                          else if Nat.eqb a jvelh then vel else cmd |}.

Definition period : Duration := {| seconds := of_Z 1 |}.

(** One cycle of a new handle with a velocity handle. *)
Definition run (pos vel cmd : double)
  : result (EffortJointSaturationHandle.t * Hardware) :=
  h ← EffortJointSaturationHandle.make (Some jposh) (Some jvelh) (Some jcmdh)
        limits (hw pos vel cmd);
  EffortJointSaturationHandle.enforceLimits h period (hw pos vel cmd).

(** One cycle of a new handle without a velocity handle. *)
Definition run_no_vel (pos cmd : double)
  : result (EffortJointSaturationHandle.t * Hardware) :=
  h ← EffortJointSaturationHandle.make_no_vel (Some jposh) (Some jcmdh)
        limits (hw pos zero cmd);
  EffortJointSaturationHandle.enforceLimits h period (hw pos zero cmd).

(** The effort window of that cycle. *)
Definition run_window (pos vel : double) : result (double * double) :=
  h ← EffortJointSaturationHandle.make (Some jposh) (Some jvelh) (Some jcmdh)
        limits (hw pos vel zero);
  EffortJointSaturationHandle.window h period (hw pos vel zero).

End EffortSaturationScenario.

Module VelocitySoftScenario.

(** Velocity limit 10, acceleration limit 1, position limits [-2, 2],
    soft band [-1, 1], position gain 10. *)
Definition limits : JointLimits :=
  {| min_position := of_Z (-2); max_position := of_Z 2;
     max_velocity := of_Z 10; max_acceleration := of_Z 1;
     max_jerk := zero; max_effort := zero;
     has_position_limits := true; has_velocity_limits := true;
     has_acceleration_limits := true; has_jerk_limits := false;
     has_effort_limits := false; angle_wraparound := false |}.

Definition soft_limits : SoftJointLimits :=
  {| soft_min_position := of_Z (-1); soft_max_position := of_Z 1;
     k_position := of_Z 10; k_velocity := of_Z 10 |}.

Definition jposh : ptr := 0%nat.
Definition jvelh : ptr := 1%nat.
Definition jcmdh : ptr := 2%nat.

Definition hw (pos vel cmd : double) : Hardware :=
  fun a => {| jh_name := "joint";
              jh_value := if Nat.eqb a jposh then pos
                          else if Nat.eqb a jvelh then vel else cmd |}.

Definition period : Duration := {| seconds := of_Z 1 |}.

(** One cycle of a new handle; [with_vel] tells whether the velocity
    handle is bound. *)
Definition run (with_vel : bool) (pos vel cmd : double)
  : result (VelocityJointSoftLimitsHandle.t * Hardware) :=
  h ← VelocityJointSoftLimitsHandle.make (Some jposh)
        (if with_vel then Some jvelh else None) (Some jcmdh)
        limits soft_limits;
  VelocityJointSoftLimitsHandle.enforceLimits h period (hw pos vel cmd).

(** The velocity bounds of that cycle. *)
Definition run_window (with_vel : bool) (pos vel : double)
  : result (double * double) :=
  h ← VelocityJointSoftLimitsHandle.make (Some jposh)
        (if with_vel then Some jvelh else None) (Some jcmdh)
        limits soft_limits;
  VelocityJointSoftLimitsHandle.window h period (hw pos vel zero).

End VelocitySoftScenario.

Module PositionSoftScenario.

(** Position gain 10, velocity limit 2, soft band [-1, 1]; the hard
    position limits are [[hard_min, 2]]. *)
Definition limits (hard_min : double) : JointLimits :=
  {| min_position := hard_min; max_position := of_Z 2;
     max_velocity := of_Z 2; max_acceleration := zero;
     max_jerk := zero; max_effort := zero;
     has_position_limits := true; has_velocity_limits := true;
     has_acceleration_limits := false; has_jerk_limits := false;
     has_effort_limits := false; angle_wraparound := false |}.

Definition soft_limits : SoftJointLimits :=
  {| soft_min_position := of_Z (-1); soft_max_position := of_Z 1;
     k_position := of_Z 10; k_velocity := zero |}.

Definition jposh : ptr := 0%nat.
Definition jcmdh : ptr := 1%nat.

Definition hw (measured cmd : double) : Hardware :=
  fun a => {| jh_name := "joint";
              jh_value := if Nat.eqb a jposh then measured else cmd |}.

Definition period : Duration := {| seconds := of_Z 1 |}.

(** The first cycle of a new handle: the cached position is seeded from
    the measured one. *)
Definition run (hard_min measured cmd : double)
  : result (PositionJointSoftLimitsHandle.t * Hardware) :=
  h ← PositionJointSoftLimitsHandle.make (Some jposh) (Some jcmdh)
        (limits hard_min) soft_limits (hw measured cmd);
  PositionJointSoftLimitsHandle.enforceLimits h period (hw measured cmd).

(** One cycle, of the given period, of a handle whose cached position
    is [prev]. *)
Definition run_from (hard_min prev cmd : double) (period : Duration)
  : result (PositionJointSoftLimitsHandle.t * Hardware) :=
  h ← PositionJointSoftLimitsHandle.make (Some jposh) (Some jcmdh)
        (limits hard_min) soft_limits (hw prev cmd);
  PositionJointSoftLimitsHandle.enforceLimits
    (SoftBase.with_sat h (Base.set_prev_pos (sat h) prev))
    period (hw prev cmd).

(** The position bounds of a cycle whose cached position is [pos]. *)
Definition run_window (hard_min pos : double) : result (double * double) :=
  h ← PositionJointSoftLimitsHandle.make (Some jposh) (Some jcmdh)
        (limits hard_min) soft_limits (hw pos zero);
  PositionJointSoftLimitsHandle.window h pos period.

End PositionSoftScenario.

Module SoftLimitsParameters.

(** The table of the documented example: the four soft fields of
    [foo_joint], without [has_soft_limits]. *)
Definition four_fields : gmap string ParameterValue :=
  <[ "joint_limits.foo_joint.soft_lower_limit" := PARAMETER_DOUBLE (of_Z 0) ]>
  (<[ "joint_limits.foo_joint.soft_upper_limit" := PARAMETER_DOUBLE (of_Z 1) ]>
  (<[ "joint_limits.foo_joint.k_position" := PARAMETER_DOUBLE (of_Z 10) ]>
  (<[ "joint_limits.foo_joint.k_velocity" := PARAMETER_DOUBLE (of_Z 10) ]> ∅))).

Definition node : Node :=
  {| node_name := "limits_node"; parameters := four_fields |}.

(** The same table with [has_soft_limits] set to [flag]. *)
Definition node_with_flag (flag : bool) : Node :=
  {| node_name := "limits_node";
     parameters :=
       <[ "joint_limits.foo_joint.has_soft_limits" := PARAMETER_BOOL flag ]>
       four_fields |}.

Definition loaded : SoftJointLimits :=
  {| soft_min_position := of_Z 0; soft_max_position := of_Z 1;
     k_position := of_Z 10; k_velocity := of_Z 10 |}.

End SoftLimitsParameters.

(** ** What the blocks of [getJointLimits] overwrite

    Each block, read as a patch that depends on the parameters only. *)

Definition patch_position (has : option bool) (lo hi : option double)
    (wrap : option bool) : LimitsPatch :=
  {| p_min_position := lo; p_max_position := hi;
     p_max_velocity := None; p_max_acceleration := None;
     p_max_jerk := None; p_max_effort := None;
     p_has_position_limits := has; p_has_velocity_limits := None;
     p_has_acceleration_limits := None; p_has_jerk_limits := None;
     p_has_effort_limits := None; p_angle_wraparound := wrap |}.

Definition patch_velocity (has : option bool) (v : option double)
  : LimitsPatch :=
  {| p_min_position := None; p_max_position := None;
     p_max_velocity := v; p_max_acceleration := None;
     p_max_jerk := None; p_max_effort := None;
     p_has_position_limits := None; p_has_velocity_limits := has;
     p_has_acceleration_limits := None; p_has_jerk_limits := None;
     p_has_effort_limits := None; p_angle_wraparound := None |}.

Definition patch_acceleration (has : option bool) (v : option double)
  : LimitsPatch :=
  {| p_min_position := None; p_max_position := None;
     p_max_velocity := None; p_max_acceleration := v;
     p_max_jerk := None; p_max_effort := None;
     p_has_position_limits := None; p_has_velocity_limits := None;
     p_has_acceleration_limits := has; p_has_jerk_limits := None;
     p_has_effort_limits := None; p_angle_wraparound := None |}.

Definition patch_jerk (has : option bool) (v : option double) : LimitsPatch :=
  {| p_min_position := None; p_max_position := None;
     p_max_velocity := None; p_max_acceleration := None;
     p_max_jerk := v; p_max_effort := None;
     p_has_position_limits := None; p_has_velocity_limits := None;
     p_has_acceleration_limits := None; p_has_jerk_limits := has;
     p_has_effort_limits := None; p_angle_wraparound := None |}.

Definition patch_effort (has : option bool) (v : option double) : LimitsPatch :=
  {| p_min_position := None; p_max_position := None;
     p_max_velocity := None; p_max_acceleration := None;
     p_max_jerk := None; p_max_effort := v;
     p_has_position_limits := None; p_has_velocity_limits := None;
     p_has_acceleration_limits := None; p_has_jerk_limits := None;
     p_has_effort_limits := has; p_angle_wraparound := None |}.

(** The patch of a block with one bound: nothing without the flag, the
    flag alone when it is false, flag and bound when it is true and the
    bound is there. *)
Definition bound_patch (mk : option bool → option double → LimitsPatch)
    (flag bound : option ParameterValue) : LimitsPatch :=
  match flag with
  | Some (PARAMETER_BOOL true) =>
      match bound with
      | Some (PARAMETER_DOUBLE v) => mk (Some true) (Some v)
      | _ => empty_patch
      end
  | Some (PARAMETER_BOOL false) => mk (Some false) None
  | _ => empty_patch
  end.

Definition position_patch (node : Node) (base : string) : LimitsPatch :=
  match parameters node !! (base ++ ".has_position_limits")%string with
  | Some (PARAMETER_BOOL true) =>
      match parameters node !! (base ++ ".min_position")%string,
            parameters node !! (base ++ ".max_position")%string with
      | Some (PARAMETER_DOUBLE lo), Some (PARAMETER_DOUBLE hi) =>
          patch_position (Some true) (Some lo) (Some hi) None
      | _, _ => empty_patch
      end
  | Some (PARAMETER_BOOL false) =>
      match parameters node !! (base ++ ".angle_wraparound")%string with
      | Some (PARAMETER_BOOL wrap) =>
          patch_position (Some false) None None (Some wrap)
      | _ => patch_position (Some false) None None None
      end
  | _ => empty_patch
  end.

Definition velocity_patch (node : Node) (base : string) : LimitsPatch :=
  bound_patch patch_velocity
    (parameters node !! (base ++ ".has_velocity_limits")%string)
    (parameters node !! (base ++ ".max_velocity")%string).

Definition acceleration_patch (node : Node) (base : string) : LimitsPatch :=
  bound_patch patch_acceleration
    (parameters node !! (base ++ ".has_acceleration_limits")%string)
    (parameters node !! (base ++ ".max_acceleration")%string).

Definition jerk_patch (node : Node) (base : string) : LimitsPatch :=
  bound_patch patch_jerk
    (parameters node !! (base ++ ".has_jerk_limits")%string)
    (parameters node !! (base ++ ".max_jerk")%string).

Definition effort_patch (node : Node) (base : string) : LimitsPatch :=
  bound_patch patch_effort
    (parameters node !! (base ++ ".has_effort_limits")%string)
    (parameters node !! (base ++ ".max_effort")%string).

Definition joint_limits_patch (node : Node) (base : string) : LimitsPatch :=
  patch_then
    (patch_then
       (patch_then
          (patch_then (position_patch node base) (velocity_patch node base))
          (acceleration_patch node base))
       (jerk_patch node base))
    (effort_patch node base).

(** Between [hw] and [hw'] no handle changed its name, and no handle but
    [p] changed its value. *)
Definition only_written (p : option ptr) (hw hw' : Hardware) : Prop :=
  ∀ a, jh_name (hw' a) = jh_name (hw a) ∧ (p ≠ Some a → hw' a = hw a).

(** ** States of the handles that cache a command *)

Inductive position_saturation_reachable (h0 : PositionJointSaturationHandle.t)
  : PositionJointSaturationHandle.t → Prop :=
| ps_reach_init : position_saturation_reachable h0 h0
| ps_reach_reset h :
    position_saturation_reachable h0 h →
    position_saturation_reachable h0 (PositionJointSaturationHandle.reset h)
| ps_reach_cycle h period hw h' hw' :
    position_saturation_reachable h0 h →
    PositionJointSaturationHandle.enforceLimits h period hw = Ok (h', hw') →
    position_saturation_reachable h0 h'.

Inductive position_soft_reachable (h0 : PositionJointSoftLimitsHandle.t)
  : PositionJointSoftLimitsHandle.t → Prop :=
| pl_reach_init : position_soft_reachable h0 h0
| pl_reach_reset h :
    position_soft_reachable h0 h →
    position_soft_reachable h0 (PositionJointSoftLimitsHandle.reset h)
| pl_reach_cycle h period hw h' hw' :
    position_soft_reachable h0 h →
    PositionJointSoftLimitsHandle.enforceLimits h period hw = Ok (h', hw') →
    position_soft_reachable h0 h'.

Inductive velocity_saturation_reachable (h0 : VelocityJointSaturationHandle.t)
  : VelocityJointSaturationHandle.t → Prop :=
| vsat_reach_init : velocity_saturation_reachable h0 h0
| vsat_reach_reset h :
    velocity_saturation_reachable h0 h →
    velocity_saturation_reachable h0 (VelocityJointSaturationHandle.reset h)
| vsat_reach_cycle h period hw h' hw' :
    velocity_saturation_reachable h0 h →
    VelocityJointSaturationHandle.enforceLimits h period hw = Ok (h', hw') →
    velocity_saturation_reachable h0 h'.

Inductive effort_soft_reachable (h0 : EffortJointSoftLimitsHandle.t)
  : EffortJointSoftLimitsHandle.t → Prop :=
| es_reach_init : effort_soft_reachable h0 h0
| es_reach_reset h :
    effort_soft_reachable h0 h →
    effort_soft_reachable h0 (EffortJointSoftLimitsHandle.reset h)
| es_reach_cycle h period hw h' hw' :
    effort_soft_reachable h0 h →
    EffortJointSoftLimitsHandle.enforceLimits h period hw = Ok (h', hw') →
    effort_soft_reachable h0 h'.

(** ** Parameter tables *)

Module JointLimitsParameters.

(** The documented [foo_joint]: every group present and enabled. *)
Definition foo_joint : gmap string ParameterValue :=
  <[ "joint_limits.foo_joint.has_position_limits" := PARAMETER_BOOL true ]>
  (<[ "joint_limits.foo_joint.min_position" := PARAMETER_DOUBLE (of_Z 0) ]>
  (<[ "joint_limits.foo_joint.max_position" := PARAMETER_DOUBLE (of_Z 1) ]>
  (<[ "joint_limits.foo_joint.has_velocity_limits" := PARAMETER_BOOL true ]>
  (<[ "joint_limits.foo_joint.max_velocity" := PARAMETER_DOUBLE (of_Z 2) ]>
  (<[ "joint_limits.foo_joint.has_acceleration_limits" := PARAMETER_BOOL true ]>
  (<[ "joint_limits.foo_joint.max_acceleration" := PARAMETER_DOUBLE (of_Z 5) ]>
  (<[ "joint_limits.foo_joint.has_jerk_limits" := PARAMETER_BOOL true ]>
  (<[ "joint_limits.foo_joint.max_jerk" := PARAMETER_DOUBLE (of_Z 100) ]>
  (<[ "joint_limits.foo_joint.has_effort_limits" := PARAMETER_BOOL true ]>
  (<[ "joint_limits.foo_joint.max_effort" := PARAMETER_DOUBLE (of_Z 20) ]>
   ∅)))))))))).

(** The documented [bar_joint]: a continuous joint with a velocity limit. *)
Definition bar_joint : gmap string ParameterValue :=
  <[ "joint_limits.bar_joint.has_position_limits" := PARAMETER_BOOL false ]>
  (<[ "joint_limits.bar_joint.has_velocity_limits" := PARAMETER_BOOL true ]>
  (<[ "joint_limits.bar_joint.max_velocity" := PARAMETER_DOUBLE (of_Z 4) ]>
   ∅)).

(** Bounds without their flags. *)
Definition baz_joint : gmap string ParameterValue :=
  <[ "joint_limits.baz_joint.min_position" := PARAMETER_DOUBLE (of_Z 0) ]>
  (<[ "joint_limits.baz_joint.max_position" := PARAMETER_DOUBLE (of_Z 1) ]>
  (<[ "joint_limits.baz_joint.max_velocity" := PARAMETER_DOUBLE (of_Z 2) ]>
   ∅)).

Definition node : Node :=
  {| node_name := "limits_node";
     parameters := foo_joint ∪ bar_joint ∪ baz_joint |}.

(** Limits with every flag set and every bound at 7. *)
Definition sevens : JointLimits :=
  {| min_position := of_Z 7; max_position := of_Z 7;
     max_velocity := of_Z 7; max_acceleration := of_Z 7;
     max_jerk := of_Z 7; max_effort := of_Z 7;
     has_position_limits := true; has_velocity_limits := true;
     has_acceleration_limits := true; has_jerk_limits := true;
     has_effort_limits := true; angle_wraparound := true |}.

End JointLimitsParameters.

(** * Properties *)

(** ** Facts about [double] comparisons and NaN *)

(** Case analysis on the integer comparisons inside [SFcompare]. *)
Ltac order_cases :=
  repeat match goal with
  | H : context [Z.compare ?a ?b] |- _ =>
      destruct (Z.compare_spec a b); cbn in H
  | |- context [Z.compare ?a ?b] =>
      destruct (Z.compare_spec a b); cbn
  | H : context [Pos.compare_cont Eq ?a ?b] |- _ =>
      change (Pos.compare_cont Eq a b) with (Pos.compare a b) in H;
      destruct (Pos.compare_spec a b); cbn in H
  | |- context [Pos.compare_cont Eq ?a ?b] =>
      change (Pos.compare_cont Eq a b) with (Pos.compare a b);
      destruct (Pos.compare_spec a b); cbn
  end.

Section DoubleFacts.

Implicit Types x y z : double.

Lemma compare_antisym x y :
  SFcompare y x = CompOpp <$> SFcompare x y.
Proof.
  destruct x as [sx|sx| |sx mx ex], y as [sy|sy| |sy my ey];
    try destruct sx; try destruct sy; try reflexivity; cbn;
    rewrite (Z.compare_antisym ey ex);
    destruct (ey ?= ex); cbn; try reflexivity;
    rewrite (Pos.compare_cont_antisym mx my Eq); reflexivity.
Qed.

Lemma compare_refl x : isnan x = false → SFcompare x x = Some Eq.
Proof.
  destruct x as [s|s| |s m e]; try destruct s; cbn; try done;
    intros _; rewrite Z.compare_refl;
    change (Pos.compare_cont Eq m m) with (Pos.compare m m);
    rewrite Pos.compare_refl; reflexivity.
Qed.

Lemma ltb_irrefl x : (x <? x)%D = false.
Proof.
  unfold ltb, SFltb. destruct (isnan x) eqn:E.
  - destruct x; done.
  - rewrite compare_refl; done.
Qed.

Lemma ltb_asym x y : (x <? y)%D = true → (y <? x)%D = false.
Proof.
  unfold ltb, SFltb. rewrite (compare_antisym x y).
  destruct (SFcompare x y) as [[]|]; done.
Qed.

Lemma ltb_nan_l x : (quiet_NaN <? x)%D = false.
Proof. reflexivity. Qed.

Lemma ltb_nan_r x : (x <? quiet_NaN)%D = false.
Proof. destruct x; reflexivity. Qed.

Lemma ltb_not_nan x y :
  (x <? y)%D = true → isnan x = false ∧ isnan y = false.
Proof. destruct x, y; done. Qed.

(** Between two numbers, [not (x < y)] is [y <= x]. *)
Lemma leb_of_not_ltb x y :
  isnan x = false → isnan y = false → (x <? y)%D = false → (y <=? x)%D = true.
Proof.
  unfold ltb, leb, SFltb, SFleb. rewrite (compare_antisym x y).
  intros Hx Hy. destruct (SFcompare x y) as [[]|] eqn:E; try done.
  destruct x, y; done.
Qed.

Lemma ltb_leb x y : (x <? y)%D = true → (x <=? y)%D = true.
Proof. unfold ltb, leb, SFltb, SFleb. destruct (SFcompare x y) as [[]|]; done. Qed.

Lemma leb_refl x : isnan x = false → (x <=? x)%D = true.
Proof. intros H. unfold leb, SFleb. rewrite compare_refl; done. Qed.

Lemma isnan_eq x : isnan x = true ↔ x = quiet_NaN.
Proof. destruct x; split; done. Qed.

Lemma sub_nan_r x : (x - quiet_NaN)%D = quiet_NaN.
Proof. destruct x; reflexivity. Qed.

Lemma sub_nan_l x : (quiet_NaN - x)%D = quiet_NaN.
Proof. reflexivity. Qed.

Lemma add_nan_l x : (quiet_NaN + x)%D = quiet_NaN.
Proof. reflexivity. Qed.

Lemma div_nan_l x : (quiet_NaN / x)%D = quiet_NaN.
Proof. reflexivity. Qed.

Lemma std_max_nan_l x : std_max quiet_NaN x = quiet_NaN.
Proof. reflexivity. Qed.

Lemma std_min_nan_l x : std_min quiet_NaN x = quiet_NaN.
Proof. unfold std_min. rewrite ltb_nan_r. reflexivity. Qed.

(** ** [rcppmath::clamp] *)

(** The call returns exactly when the interval is not reversed. *)
Lemma clamp_ok v lo hi :
  (hi <? lo)%D = false → clamp v lo hi = Ok (clamp_value v lo hi).
Proof. intros H. unfold clamp. by rewrite H. Qed.

Lemma clamp_reversed v lo hi :
  (hi <? lo)%D = true → clamp v lo hi = Raise AssertionFailed.
Proof. intros H. unfold clamp. by rewrite H. Qed.

Lemma clamp_returns v lo hi r :
  clamp v lo hi = Ok r → (hi <? lo)%D = false ∧ r = clamp_value v lo hi.
Proof. unfold clamp. destruct (hi <? lo)%D; cbn; [done|]. by intros [= <-]. Qed.

(** NaN bounds pass the assertion and let every command through. *)
Lemma clamp_value_nan_bounds x : clamp_value x quiet_NaN quiet_NaN = x.
Proof. unfold clamp_value. rewrite ltb_nan_r, ltb_nan_l. reflexivity. Qed.

Lemma clamp_nan_bounds x : clamp x quiet_NaN quiet_NaN = Ok x.
Proof. by rewrite clamp_ok, clamp_value_nan_bounds. Qed.

(** The clamped value is the command or one of the two bounds. *)
Lemma clamp_value_cases v lo hi :
  clamp_value v lo hi = v ∨ clamp_value v lo hi = lo ∨ clamp_value v lo hi = hi.
Proof. unfold clamp_value. destruct (v <? lo)%D, (hi <? v)%D; auto. Qed.

(** On an interval that is not reversed, the clamped value is neither
    below the lower end nor above the upper end. *)
Lemma clamp_value_not_outside v lo hi :
  (hi <? lo)%D = false →
  (clamp_value v lo hi <? lo)%D = false ∧ (hi <? clamp_value v lo hi)%D = false.
Proof.
  intros H. unfold clamp_value.
  destruct (v <? lo)%D eqn:E1; [by rewrite ltb_irrefl|].
  destruct (hi <? v)%D eqn:E2; [by rewrite ltb_irrefl|done].
Qed.

(** For numbers, this is membership in [[lo, hi]]. *)
Lemma clamp_value_inside v lo hi :
  isnan (clamp_value v lo hi) = false →
  isnan lo = false → isnan hi = false →
  (hi <? lo)%D = false →
  (lo <=? clamp_value v lo hi)%D = true ∧ (clamp_value v lo hi <=? hi)%D = true.
Proof.
  intros Hc Hlo Hhi H.
  destruct (clamp_value_not_outside v lo hi H) as [H1 H2].
  split; apply leb_of_not_ltb; done.
Qed.

Lemma clamp_value_not_nan v lo hi :
  isnan v = false → isnan lo = false → isnan hi = false →
  isnan (clamp_value v lo hi) = false.
Proof.
  intros Hv Hlo Hhi.
  by destruct (clamp_value_cases v lo hi) as [->|[->| ->]].
Qed.

(** A NaN command comes back as it is. *)
Lemma clamp_value_nan v lo hi : isnan v = true → clamp_value v lo hi = v.
Proof.
  destruct v; try done. intros _. unfold clamp_value. by rewrite ltb_nan_r.
Qed.

(** A command inside the interval is left as it is. *)
Lemma clamp_value_id v lo hi :
  (v <? lo)%D = false → (hi <? v)%D = false → clamp_value v lo hi = v.
Proof. intros H1 H2. unfold clamp_value. by rewrite H1, H2. Qed.

(** A clamped value above the command is the lower end, one below the
    command the upper end. *)
Lemma clamp_value_moved v lo hi :
  ((v <? clamp_value v lo hi)%D = true → clamp_value v lo hi = lo) ∧
  ((clamp_value v lo hi <? v)%D = true → clamp_value v lo hi = hi).
Proof.
  unfold clamp_value.
  destruct (v <? lo)%D eqn:E1.
  - split; [done|]. intros H. apply ltb_asym in H. congruence.
  - destruct (hi <? v)%D eqn:E2.
    + split; [|done]. intros H. apply ltb_asym in H. congruence.
    + rewrite ltb_irrefl. by split.
Qed.

(** The order is transitive. *)
Lemma ltb_trans x y z :
  (x <? y)%D = true → (y <? z)%D = true → (x <? z)%D = true.
Proof.
  unfold ltb, SFltb.
  destruct x as [sx|sx| |sx mx ex], y as [sy|sy| |sy my ey],
    z as [sz|sz| |sz mz ez];
    try destruct sx; try destruct sy; try destruct sz; cbn; try done;
    intros H1 H2; order_cases; try done; try lia.
Qed.

Lemma ltb_leb_trans x y z :
  (x <? y)%D = true → (y <=? z)%D = true → (x <? z)%D = true.
Proof.
  unfold ltb, leb, SFltb, SFleb.
  destruct x as [sx|sx| |sx mx ex], y as [sy|sy| |sy my ey],
    z as [sz|sz| |sz mz ez];
    try destruct sx; try destruct sy; try destruct sz; cbn; try done;
    intros H1 H2; order_cases; try done; try lia.
Qed.

Lemma leb_not_nan x y :
  (x <=? y)%D = true → isnan x = false ∧ isnan y = false.
Proof. destruct x, y; done. Qed.

(** [x <= y] excludes [y < x]. *)
Lemma leb_not_gtb x y : (x <=? y)%D = true → (y <? x)%D = false.
Proof.
  unfold ltb, leb, SFltb, SFleb. rewrite (compare_antisym x y).
  destruct (SFcompare x y) as [[]|]; done.
Qed.

Lemma leb_trans x y z :
  (x <=? y)%D = true → (y <=? z)%D = true → (x <=? z)%D = true.
Proof.
  intros H1 H2.
  destruct (leb_not_nan _ _ H1) as [Hx _], (leb_not_nan _ _ H2) as [_ Hz].
  apply leb_of_not_ltb; [done|done|].
  destruct (z <? x)%D eqn:E; [|done].
  pose proof (ltb_leb_trans _ _ _ E H1) as Hlt.
  apply leb_not_gtb in H2. congruence.
Qed.

(** ** [std::max] and [std::min] *)

Lemma std_max_cases x y : std_max x y = x ∨ std_max x y = y.
Proof. unfold std_max. destruct (x <? y)%D; auto. Qed.

Lemma std_min_cases x y : std_min x y = x ∨ std_min x y = y.
Proof. unfold std_min. destruct (y <? x)%D; auto. Qed.

(** Between two numbers, the maximum is above both and the minimum below
    both. *)
Lemma std_max_ge x y :
  isnan x = false → isnan y = false →
  (x <=? std_max x y)%D = true ∧ (y <=? std_max x y)%D = true.
Proof.
  intros Hx Hy. unfold std_max. destruct (x <? y)%D eqn:E.
  - split; [by apply ltb_leb|by apply leb_refl].
  - split; [by apply leb_refl|by apply leb_of_not_ltb].
Qed.

Lemma std_min_le x y :
  isnan x = false → isnan y = false →
  (std_min x y <=? x)%D = true ∧ (std_min x y <=? y)%D = true.
Proof.
  intros Hx Hy. unfold std_min. destruct (y <? x)%D eqn:E.
  - split; [by apply ltb_leb|by apply leb_refl].
  - split; [by apply leb_refl|by apply leb_of_not_ltb].
Qed.

(** ** Signed zeros *)

Lemma same_ltb_l x y z : same x y → (x <? z)%D = (y <? z)%D.
Proof. intros [->|[Hx Hy]]; [done|]. by destruct x, y, z. Qed.

Lemma same_ltb_r x y z : same x y → (z <? x)%D = (z <? y)%D.
Proof. intros [->|[Hx Hy]]; [done|]. by destruct x, y, z. Qed.

Lemma same_eqb x y : isnan x = false → same x y → (x =? y)%D = true.
Proof.
  intros Hn [<-|[Hx Hy]].
  - unfold eqb, SFeqb. by rewrite compare_refl.
  - by destruct x, y.
Qed.

Lemma is_zero_eqb x : is_zero x = true → (x =? zero)%D = true.
Proof. by destruct x. Qed.

Lemma sub_self x : isfinite x = true → is_zero (x - x)%D = true.
Proof.
  destruct x as [s|s| |s m e]; try done; [by destruct s|].
  intros _. unfold sub, SFsub. rewrite Z.min_id.
  unfold shl_align. by rewrite !Z.sub_diag.
Qed.

Lemma mul_zero_r x z :
  isfinite x = true → is_zero z = true → is_zero (x * z)%D = true.
Proof. by destruct x, z. Qed.

Lemma mul_zero_l z x :
  is_zero z = true → isfinite x = true → is_zero (z * x)%D = true.
Proof. by destruct z, x. Qed.

Lemma isfinite_neg x : isfinite (- x)%D = isfinite x.
Proof. by destruct x. Qed.

Lemma add_zero_r x z :
  isfinite x = true → is_zero z = true → same (x + z)%D x.
Proof.
  destruct x as [s|s| |s m e], z as [s'|s'| |s' m' e']; try done; intros _ _.
  - right. by destruct s, s'.
  - by left.
Qed.

Lemma same_leb_l x y z : same x y → (x <=? z)%D = (y <=? z)%D.
Proof. intros [->|[Hx Hy]]; [done|]. by destruct x, y, z. Qed.

Lemma same_leb_r x y z : same x y → (z <=? x)%D = (z <=? y)%D.
Proof. intros [->|[Hx Hy]]; [done|]. by destruct x, y, z. Qed.

Lemma same_isnan x y : same x y → isnan x = isnan y.
Proof. intros [->|[Hx Hy]]; [done|]. by destruct x, y. Qed.

(** A zero lies in [[-m, m]] for every [m] that is not negative. *)
Lemma clamp_value_zero z m :
  is_zero z = true → (zero <=? m)%D = true → clamp_value z (- m)%D m = z.
Proof.
  destruct z as [s| | |]; try done. intros _ Hm. unfold clamp_value.
  destruct m as [s'|s'| |s' m' e']; try done; by destruct s'.
Qed.

(** ** Bounds that are not negative

    [[-m, m]], [[0, m]] and [[-m, 0]] are reversed exactly when [m] is
    negative; a NaN [m] passes the assertion of [clamp]. *)
Lemma ltb_neg_self m : (m <? - m)%D = (m <? zero)%D.
Proof. destruct m as [s|s| |s m e]; try done; by destruct s. Qed.

Lemma ltb_zero_neg m : (zero <? - m)%D = (m <? zero)%D.
Proof. destruct m as [s|s| |s m e]; try done; by destruct s. Qed.

Lemma nonneg_not_negative m : (zero <=? m)%D = true → (m <? zero)%D = false.
Proof. apply leb_not_gtb. Qed.

End DoubleFacts.

Lemma set_value_get (a : ptr) (v : double) (hw hw' : Hardware) :
  set_value (Some a) v hw = Ok hw' → jh_value (hw' a) = v.
Proof. intros [= <-]. by rewrite Nat.eqb_refl. Qed.

Lemma set_value_other (a b : ptr) (v : double) (hw hw' : Hardware) :
  set_value (Some a) v hw = Ok hw' → b ≠ a → hw' b = hw b.
Proof.
  intros [= <-] Hne. destruct (Nat.eqb_spec b a); [contradiction|reflexivity].
Qed.

(** ** Clamping into what two intervals have in common *)

Section Intersection.

Variables cmd a1 b1 a2 b2 : double.

(** Each lower end is at most each upper end. *)
Hypothesis H11 : (a1 <=? b1)%D = true.
Hypothesis H12 : (a1 <=? b2)%D = true.
Hypothesis H21 : (a2 <=? b1)%D = true.
Hypothesis H22 : (a2 <=? b2)%D = true.

Lemma intersection_ends :
  isnan a1 = false ∧ isnan a2 = false ∧ isnan b1 = false ∧ isnan b2 = false.
Proof.
  destruct (leb_not_nan _ _ H11), (leb_not_nan _ _ H22). done.
Qed.

Lemma intersection_proper :
  (std_max a1 a2 <=? std_min b1 b2)%D = true.
Proof.
  destruct (std_max_cases a1 a2) as [-> | ->],
    (std_min_cases b1 b2) as [-> | ->]; done.
Qed.

Lemma clamp_intersection :
  isnan cmd = false →
  let w := clamp_value cmd (std_max a1 a2) (std_min b1 b2) in
  clamp cmd (std_max a1 a2) (std_min b1 b2) = Ok w ∧
  clamped_into cmd w a1 b1 a2 b2.
Proof.
  intros Hc w.
  destruct intersection_ends as (Na1 & Na2 & Nb1 & Nb2).
  pose proof intersection_proper as Hp.
  destruct (leb_not_nan _ _ Hp) as [Nlo Nhi].
  pose proof (leb_not_gtb _ _ Hp) as Hrev.
  split; [by apply clamp_ok|].
  assert (isnan w = false) as Nw by by apply clamp_value_not_nan.
  destruct (clamp_value_inside cmd _ _ Nw Nlo Nhi Hrev) as [Hlo Hhi].
  fold w in Hlo, Hhi.
  destruct (std_max_ge a1 a2 Na1 Na2) as [M1 M2].
  destruct (std_min_le b1 b2 Nb1 Nb2) as [m1 m2].
  unfold clamped_into. repeat apply conj.
  - exact (leb_trans _ _ _ M1 Hlo).
  - exact (leb_trans _ _ _ Hhi m1).
  - exact (leb_trans _ _ _ M2 Hlo).
  - exact (leb_trans _ _ _ Hhi m2).
  - intros C1 C2 C3 C4. apply clamp_value_id.
    + apply leb_not_gtb. by destruct (std_max_cases a1 a2) as [-> | ->].
    + apply leb_not_gtb. by destruct (std_min_cases b1 b2) as [-> | ->].
  - intros Hup. unfold w. rewrite (proj1 (clamp_value_moved cmd _ _) Hup).
    destruct (std_max_cases a1 a2) as [-> | ->]; auto.
  - intros Hdown. unfold w. rewrite (proj2 (clamp_value_moved cmd _ _) Hdown).
    destruct (std_min_cases b1 b2) as [-> | ->]; auto.
Qed.

End Intersection.

(** ** Position saturation *)

Section PositionSaturation.

Import PositionJointSaturationHandle.

Lemma position_saturation_cycle (h : t) (jcmdh : ptr) (prev : double)
    (period : Duration) (hw : Hardware) :
  jcmdh_ (base h) = Some jcmdh →
  prev_pos_ (base h) = prev →
  isnan prev = false →
  let w := window h prev period in
  (snd w <? fst w)%D = false →
  let cmd := clamp_value (jh_value (hw jcmdh)) (fst w) (snd w) in
  ∃ h' hw',
    enforceLimits h period hw = Ok (h', hw') ∧
    jh_value (hw' jcmdh) = cmd ∧
    prev_pos_ (base h') = cmd ∧
    (∀ a, a ≠ jcmdh → hw' a = hw a).
Proof.
  intros Hc Hp Hn w Hrev cmd. unfold enforceLimits.
  rewrite Hp, Hn, Hc. cbn -[clamp].
  fold w. destruct w as [lo hi] eqn:Ew. cbn [fst snd] in *.
  rewrite clamp_ok by done. cbn.
  eexists _, _. split; [reflexivity|]. cbn.
  rewrite Nat.eqb_refl. repeat split.
  intros a Ha. destruct (Nat.eqb_spec a jcmdh); [contradiction|reflexivity].
Qed.

(** On a reversed interval the assertion of [clamp] fails. *)
Lemma position_saturation_cycle_reversed (h : t) (jcmdh : ptr) (prev : double)
    (period : Duration) (hw : Hardware) :
  jcmdh_ (base h) = Some jcmdh →
  prev_pos_ (base h) = prev →
  isnan prev = false →
  let w := window h prev period in
  (snd w <? fst w)%D = true →
  enforceLimits h period hw = Raise AssertionFailed.
Proof.
  intros Hc Hp Hn w Hrev. unfold enforceLimits.
  rewrite Hp, Hn, Hc. cbn -[clamp].
  fold w. destruct w as [lo hi] eqn:Ew. cbn [fst snd] in *.
  by rewrite clamp_reversed.
Qed.

(** C2, as stated, fails on a cached position from which the hard band
    cannot be reached within the cycle, and on a command that is not a
    number.  With limits [-1, 1], velocity limit 2, period 1 s and the
    cached position 5, the interval of the claim is [[3, 1]], which
    holds no value; the call fails the assertion of [clamp], writes
    nothing and caches nothing, whatever the measured position and the
    command are; the value [clamp] would return for the command 0 is 3,
    above the upper end 1.  With the cached position 0 the interval is
    [[-1, 1]], and a NaN command is written and cached as NaN. *)
Lemma position_saturation_interval_reversed :
  (isnan (of_Z 5) = false ∧
   (h ← make (Some PositionSaturationScenario.jposh)
          (Some PositionSaturationScenario.jcmdh)
          PositionSaturationScenario.limits;
    Ok (window h (of_Z 5) PositionSaturationScenario.period))
   = Ok (of_Z 3, of_Z 1) ∧
   (of_Z 1 <? of_Z 3)%D = true ∧
   (∀ measured cmd,
      PositionSaturationScenario.run (of_Z 5) measured cmd
      = Raise AssertionFailed) ∧
   clamp_value (of_Z 0) (of_Z 3) (of_Z 1) = of_Z 3) ∧
  (∀ measured,
     command_after PositionSaturationScenario.jcmdh
       (PositionSaturationScenario.run (of_Z 0) measured quiet_NaN)
     = Some quiet_NaN ∧
     prev_pos_ <$> (base <$> handle_after
       (PositionSaturationScenario.run (of_Z 0) measured quiet_NaN))
     = Some quiet_NaN).
Proof. repeat split; done. Qed.

(** C2, amended: with position and velocity limits present, an
    initialized cached position [prev] and a command that is a number,
    whenever the velocity interval
    [[prev - max_velocity*dt, prev + max_velocity*dt]] and the position
    interval [[min_position, max_position]] have a value in common, a
    cycle writes
    [clamp(cmd, max(prev - max_velocity*dt, min_position),
                min(prev + max_velocity*dt, max_position))]
    to the command handle, touches no other handle, and caches the
    written value, whatever the measured position is; the written value
    lies in both intervals, is the command when the command lies in
    both, and is otherwise the end the command passed.  When the
    interval of the cycle is reversed, the call fails the assertion of
    [clamp]; when it is not, a NaN command is written and cached as it
    is.  In the scenario (limits [-1, 1], max_velocity 2, cached
    position 0, period 1 s) the command 5 is written as 1 and the
    command -5 as -1. *)
Theorem position_saturation_enforceLimits :
  (∀ (jposh : option ptr) (jcmdh : ptr) (limits : JointLimits) (h0 : t)
     (prev : double) (period : Duration) (hw : Hardware),
     has_position_limits limits = true →
     has_velocity_limits limits = true →
     make jposh (Some jcmdh) limits = Ok h0 →
     isnan prev = false →
     let h := with_base h0 (Base.set_prev_pos (base h0) prev) in
     let delta := (max_velocity limits * seconds period)%D in
     let cmd := jh_value (hw jcmdh) in
     let lo := std_max (prev - delta)%D (min_position limits) in
     let hi := std_min (prev + delta)%D (max_position limits) in
     (isnan cmd = false →
      (prev - delta <=? prev + delta)%D = true →
      (prev - delta <=? max_position limits)%D = true →
      (min_position limits <=? prev + delta)%D = true →
      (min_position limits <=? max_position limits)%D = true →
      ∃ h' hw',
        enforceLimits h period hw = Ok (h', hw') ∧
        jh_value (hw' jcmdh) = clamp_value cmd lo hi ∧
        prev_pos_ (base h') = jh_value (hw' jcmdh) ∧
        (∀ a, a ≠ jcmdh → hw' a = hw a) ∧
        clamped_into cmd (jh_value (hw' jcmdh))
          (prev - delta)%D (prev + delta)%D
          (min_position limits) (max_position limits)) ∧
     ((hi <? lo)%D = true →
      enforceLimits h period hw = Raise AssertionFailed) ∧
     ((hi <? lo)%D = false → isnan cmd = true →
      ∃ h' hw',
        enforceLimits h period hw = Ok (h', hw') ∧
        jh_value (hw' jcmdh) = cmd ∧ prev_pos_ (base h') = cmd))
  ∧ (∀ measured,
       let up := PositionSaturationScenario.run (of_Z 0) measured (of_Z 5) in
       let down :=
         PositionSaturationScenario.run (of_Z 0) measured (of_Z (-5)) in
       command_after PositionSaturationScenario.jcmdh up = Some (of_Z 1) ∧
       prev_pos_ <$> (base <$> handle_after up) = Some (of_Z 1) ∧
       command_after PositionSaturationScenario.jcmdh down
       = Some (of_Z (-1)) ∧
       prev_pos_ <$> (base <$> handle_after down) = Some (of_Z (-1))).
Proof.
  split.
  - intros jposh jcmdh limits h0 prev period hw Hpos Hvel Hmk Hn
      h delta cmd lo hi.
    unfold make in Hmk. rewrite Hpos in Hmk. injection Hmk as <-.
    assert (window h prev period = (lo, hi)) as Hw
      by (unfold window; cbn; by rewrite Hvel).
    repeat apply conj.
    + intros Hc H11 H12 H21 H22.
      destruct (clamp_intersection cmd _ _ _ _ H11 H12 H21 H22 Hc)
        as [Hok Hin].
      fold lo hi in Hok, Hin.
      destruct (clamp_returns _ _ _ _ Hok) as [Hrev _].
      destruct (position_saturation_cycle h jcmdh prev period hw)
        as (h' & hw' & Hrun & Hwr & Hp & Hother); try done.
      { by rewrite Hw. }
      rewrite Hw in Hwr, Hp. cbn [fst snd] in Hwr, Hp.
      exists h', hw'. rewrite Hwr.
      split; [done|]. split; [done|]. split; [done|]. split; [done|].
      exact Hin.
    + intros Hrev.
      apply (position_saturation_cycle_reversed h jcmdh prev); try done.
      by rewrite Hw.
    + intros Hrev Hc.
      destruct (position_saturation_cycle h jcmdh prev period hw)
        as (h' & hw' & Hrun & Hwr & Hp & _); try done.
      { by rewrite Hw. }
      rewrite Hw in Hwr, Hp. cbn [fst snd] in Hwr, Hp.
      rewrite clamp_value_nan in Hwr, Hp by done.
      by exists h', hw'.
  - intros measured. repeat split; reflexivity.
Qed.

(** The amended statement at the scenario: the cached position 0 moves
    to the written command 1. *)
Lemma position_saturation_enforceLimits_witness :
  ∃ h' hw',
    PositionSaturationScenario.run (of_Z 0) (of_Z 7) (of_Z 5) = Ok (h', hw') ∧
    jh_value (hw' PositionSaturationScenario.jcmdh) = of_Z 1 ∧
    prev_pos_ (base h') = of_Z 1.
Proof.
  destruct (proj1 (proj1 position_saturation_enforceLimits
              (Some PositionSaturationScenario.jposh)
              PositionSaturationScenario.jcmdh
              PositionSaturationScenario.limits
              {| base := Base.make (Some PositionSaturationScenario.jposh) None
                           (Some PositionSaturationScenario.jcmdh)
                           PositionSaturationScenario.limits;
                 min_pos_limit_ := of_Z (-1); max_pos_limit_ := of_Z 1 |}
              (of_Z 0) PositionSaturationScenario.period
              (PositionSaturationScenario.hw (of_Z 7) (of_Z 5))
              eq_refl eq_refl eq_refl eq_refl)
              eq_refl eq_refl eq_refl eq_refl eq_refl)
    as (h' & hw' & Hrun & Hw & Hp & _).
  exists h', hw'. split; [exact Hrun|]. split; [exact Hw|].
  rewrite Hp. exact Hw.
Defined.

End PositionSaturation.

(** ** Velocity saturation *)

Section VelocitySaturation.

Import VelocityJointSaturationHandle.

(** C3, as stated, fails once the cached velocity is not a number: the
    new handle of the scenario (max_velocity 10, max_acceleration 1,
    period 1 s) writes a NaN command as it is and caches it; in the next
    cycle both velocity bounds are NaN and the command 1000 is written
    as it is, above [max_velocity], and cached; from the cached velocity
    1000 the interval of the claim is [[999, 10]], which holds no value,
    and the call fails the assertion of [clamp]. *)
Lemma velocity_saturation_nan_cached_velocity :
  let h0 := Base.make None None (Some VelocitySaturationScenario.jcmdh)
              VelocitySaturationScenario.limits in
  command_after VelocitySaturationScenario.jcmdh
    (VelocitySaturationScenario.run quiet_NaN) = Some quiet_NaN ∧
  handle_after (VelocitySaturationScenario.run quiet_NaN)
  = Some (Base.set_prev_vel h0 quiet_NaN) ∧
  VelocitySaturationScenario.window_after quiet_NaN
  = Ok (quiet_NaN, quiet_NaN) ∧
  command_after VelocitySaturationScenario.jcmdh
    (VelocitySaturationScenario.run_two quiet_NaN (of_Z 1000))
  = Some (of_Z 1000) ∧
  (max_velocity VelocitySaturationScenario.limits <? of_Z 1000)%D = true ∧
  handle_after (VelocitySaturationScenario.run_two quiet_NaN (of_Z 1000))
  = Some (Base.set_prev_vel h0 (of_Z 1000)) ∧
  window (Base.set_prev_vel h0 (of_Z 1000)) VelocitySaturationScenario.period
  = Ok (of_Z 999, of_Z 10) ∧
  (∀ cmd, enforceLimits (Base.set_prev_vel h0 (of_Z 1000))
            VelocitySaturationScenario.period
            (VelocitySaturationScenario.hw cmd)
          = Raise AssertionFailed).
Proof.
  intros h0. repeat apply conj; reflexivity.
Qed.

(** C3, amended: with acceleration limits present and a positive
    period, whenever the cached velocity [prev] and the command are
    numbers and the acceleration interval
    [[prev - max_acceleration*dt, prev + max_acceleration*dt]] and the
    velocity interval [[-max_velocity, max_velocity]] have a value in
    common, a cycle writes
    [clamp(cmd, max(prev - max_acceleration*dt, -max_velocity),
                min(prev + max_acceleration*dt, max_velocity))]
    to the command handle, touches no other handle, and caches the
    written value as [prev_vel_]; the written value lies in both
    intervals, is the command when the command lies in both, and is
    otherwise the end the command passed.  When the interval of the
    cycle is reversed the call fails the assertion of [clamp], and when
    the period is not positive it fails the assertion of the cycle.  A
    NaN command is written and cached as it is, and from a NaN cached
    velocity both bounds are NaN and every command is written as it
    is.  In
    the scenario (max_velocity 10, max_acceleration 1, cached velocity
    0, period 1 s) the command 100 is written as 1 and the command -100
    as -1, and the written value becomes the cached velocity. *)
Theorem velocity_saturation_enforceLimits :
  (∀ (jvelh : option ptr) (jcmdh : ptr) (limits : JointLimits) (h0 : t)
     (prev : double) (period : Duration) (hw0 hw : Hardware),
     has_acceleration_limits limits = true →
     make jvelh (Some jcmdh) limits hw0 = Ok h0 →
     let h := Base.set_prev_vel h0 prev in
     let delta := (max_acceleration limits * seconds period)%D in
     let cmd := jh_value (hw jcmdh) in
     let lo := std_max (prev - delta)%D (- max_velocity limits)%D in
     let hi := std_min (prev + delta)%D (max_velocity limits) in
     ((seconds period >? zero)%D = true →
      isnan cmd = false →
      (prev - delta <=? prev + delta)%D = true →
      (prev - delta <=? max_velocity limits)%D = true →
      (- max_velocity limits <=? prev + delta)%D = true →
      (- max_velocity limits <=? max_velocity limits)%D = true →
      ∃ h' hw',
        enforceLimits h period hw = Ok (h', hw') ∧
        jh_value (hw' jcmdh) = clamp_value cmd lo hi ∧
        prev_vel_ h' = jh_value (hw' jcmdh) ∧
        (∀ a, a ≠ jcmdh → hw' a = hw a) ∧
        clamped_into cmd (jh_value (hw' jcmdh))
          (prev - delta)%D (prev + delta)%D
          (- max_velocity limits)%D (max_velocity limits)) ∧
     ((seconds period >? zero)%D = true → (hi <? lo)%D = true →
      enforceLimits h period hw = Raise AssertionFailed) ∧
     ((seconds period >? zero)%D = false →
      enforceLimits h period hw = Raise AssertionFailed) ∧
     ((seconds period >? zero)%D = true → (hi <? lo)%D = false →
      isnan cmd = true →
      ∃ h' hw',
        enforceLimits h period hw = Ok (h', hw') ∧
        jh_value (hw' jcmdh) = cmd ∧ prev_vel_ h' = cmd) ∧
     ((seconds period >? zero)%D = true → isnan prev = true →
      window h period = Ok (quiet_NaN, quiet_NaN) ∧
      ∃ h' hw',
        enforceLimits h period hw = Ok (h', hw') ∧
        jh_value (hw' jcmdh) = cmd ∧ prev_vel_ h' = cmd))
  ∧ (let up := VelocitySaturationScenario.run (of_Z 100) in
     let down := VelocitySaturationScenario.run (of_Z (-100)) in
     command_after VelocitySaturationScenario.jcmdh up = Some (of_Z 1) ∧
     prev_vel_ <$> handle_after up = Some (of_Z 1) ∧
     command_after VelocitySaturationScenario.jcmdh down = Some (of_Z (-1)) ∧
     prev_vel_ <$> handle_after down = Some (of_Z (-1))).
Proof.
  split.
  - intros jvelh jcmdh limits h0 prev period hw0 hw Hacc Hmk h delta cmd lo hi.
    unfold make in Hmk.
    destruct (negb (has_velocity_limits limits)); [discriminate|].
    injection Hmk as <-.
    repeat apply conj.
    + intros Hdt Hc H11 H12 H21 H22.
      destruct (clamp_intersection cmd _ _ _ _ H11 H12 H21 H22 Hc)
        as [Hok Hin].
      fold lo hi in Hok, Hin.
      unfold enforceLimits, window. cbn -[clamp]. rewrite Hacc, Hdt.
      cbn -[clamp]. fold delta lo hi cmd. rewrite Hok. cbn.
      eexists _, _. split; [reflexivity|]. cbn.
      rewrite Nat.eqb_refl. cbn.
      split; [done|]. split; [done|]. split; [|exact Hin].
      intros a Ha. destruct (Nat.eqb_spec a jcmdh); [contradiction|reflexivity].
    + intros Hdt Hrev.
      unfold enforceLimits, window. cbn -[clamp]. rewrite Hacc, Hdt.
      cbn -[clamp]. fold delta lo hi cmd. by rewrite clamp_reversed.
    + intros Hdt.
      unfold enforceLimits, window. cbn -[clamp]. by rewrite Hacc, Hdt.
    + intros Hdt Hrev Hc.
      unfold enforceLimits, window. cbn -[clamp]. rewrite Hacc, Hdt.
      cbn -[clamp]. fold delta lo hi cmd.
      rewrite clamp_ok, clamp_value_nan by done. cbn.
      eexists _, _. split; [reflexivity|]. cbn.
      by rewrite Nat.eqb_refl.
    + intros Hdt Hp. apply isnan_eq in Hp.
      assert (window h period = Ok (quiet_NaN, quiet_NaN)) as Hw.
      { unfold window. cbn -[std_max std_min]. rewrite Hacc, Hdt, Hp.
        cbn -[std_max std_min]. by rewrite std_min_nan_l. }
      split; [exact Hw|].
      unfold enforceLimits. rewrite Hw. cbn -[clamp].
      rewrite clamp_nan_bounds. cbn.
      eexists _, _. split; [reflexivity|]. cbn.
      by rewrite Nat.eqb_refl.
  - repeat split; reflexivity.
Qed.

(** The amended statement at the scenario. *)
Lemma velocity_saturation_enforceLimits_witness :
  ∃ h' hw',
    enforceLimits
      (Base.set_prev_vel
         (Base.make None None (Some VelocitySaturationScenario.jcmdh)
            VelocitySaturationScenario.limits) (of_Z 0))
      VelocitySaturationScenario.period
      (VelocitySaturationScenario.hw (of_Z 100)) = Ok (h', hw') ∧
    jh_value (hw' VelocitySaturationScenario.jcmdh) = of_Z 1 ∧
    prev_vel_ h' = of_Z 1.
Proof.
  destruct (proj1 (proj1 velocity_saturation_enforceLimits
              None VelocitySaturationScenario.jcmdh
              VelocitySaturationScenario.limits
              (Base.make None None (Some VelocitySaturationScenario.jcmdh)
                 VelocitySaturationScenario.limits)
              (of_Z 0) VelocitySaturationScenario.period
              (VelocitySaturationScenario.hw zero)
              (VelocitySaturationScenario.hw (of_Z 100))
              eq_refl eq_refl)
              eq_refl eq_refl eq_refl eq_refl eq_refl eq_refl)
    as (h' & hw' & Hrun & Hw & Hp & _).
  exists h', hw'. split; [exact Hrun|]. split; [exact Hw|].
  rewrite Hp. exact Hw.
Defined.

End VelocitySaturation.
(** ** Construction *)

Lemma constructs_iff_is_ok {T : Type} (r : result T) (required : bool) :
  constructs_iff r required → is_ok r = required.
Proof. destruct r; cbn; [done|by intros [-> _]]. Qed.

Section Construction.

Variables (jposh jvelh jcmdh : option ptr).
Variable limits : JointLimits.
Variable soft_limits : SoftJointLimits.
Variable hw : Hardware.

(** C5: the constructors of the Position-Soft and Velocity-Saturation
    handles throw the configuration error exactly when
    [has_velocity_limits] is false, those of the two effort handles
    exactly when [has_velocity_limits] or [has_effort_limits] is false,
    and a throwing constructor yields no handle; no other flag matters,
    and the Position-Saturation and Velocity-Soft constructors always
    succeed. *)
Theorem construction_requirements :
  constructs_iff
    (PositionJointSoftLimitsHandle.make jposh jcmdh limits soft_limits hw)
    (has_velocity_limits limits) ∧
  constructs_iff
    (EffortJointSaturationHandle.make jposh jvelh jcmdh limits hw)
    (has_velocity_limits limits && has_effort_limits limits) ∧
  constructs_iff
    (EffortJointSaturationHandle.make_no_vel jposh jcmdh limits hw)
    (has_velocity_limits limits && has_effort_limits limits) ∧
  constructs_iff
    (EffortJointSoftLimitsHandle.make jposh jvelh jcmdh limits soft_limits hw)
    (has_velocity_limits limits && has_effort_limits limits) ∧
  constructs_iff
    (EffortJointSoftLimitsHandle.make_no_vel jposh jcmdh limits soft_limits hw)
    (has_velocity_limits limits && has_effort_limits limits) ∧
  constructs_iff
    (VelocityJointSaturationHandle.make jvelh jcmdh limits hw)
    (has_velocity_limits limits) ∧
  constructs_iff
    (VelocityJointSaturationHandle.make_cmd_only jcmdh limits hw)
    (has_velocity_limits limits) ∧
  constructs_iff (PositionJointSaturationHandle.make jposh jcmdh limits) true ∧
  constructs_iff
    (VelocityJointSoftLimitsHandle.make jposh jvelh jcmdh limits soft_limits)
    true.
Proof.
  unfold PositionJointSoftLimitsHandle.make,
    EffortJointSaturationHandle.make_no_vel, EffortJointSaturationHandle.make,
    EffortJointSoftLimitsHandle.make_no_vel, EffortJointSoftLimitsHandle.make,
    VelocityJointSaturationHandle.make,
    VelocityJointSaturationHandle.make_cmd_only,
    PositionJointSaturationHandle.make, VelocityJointSoftLimitsHandle.make.
  destruct (has_velocity_limits limits), (has_effort_limits limits),
    (has_position_limits limits); cbn; repeat split; eauto.
Qed.

End Construction.

(** ** The velocity cap of the Velocity-Soft handle *)

Section VelocityCap.

Lemma lt_pow2_digits (m : positive) : (Z.pos m < 2 ^ Z.pos (digits2_pos m))%Z.
Proof.
  induction m as [m IH|m IH|]; cbn [digits2_pos]; [| |done];
    rewrite Pos2Z.inj_succ, Z.pow_succ_r by lia; lia.
Qed.

(** No finite [double] is above [std::numeric_limits<double>::max()]. *)
Lemma numeric_limits_max_largest (x : double) :
  valid_binary prec emax x = true → isfinite x = true →
  (numeric_limits_max <? x)%D = false.
Proof.
  destruct x as [s|s| |s m e]; try done.
  intros Hv _. cbn in Hv. unfold bounded in Hv.
  apply andb_true_iff in Hv as [Hc He].
  apply Z.leb_le in He. change (emax - prec)%Z with 971%Z in He.
  destruct s; [reflexivity|].
  unfold ltb, SFltb, numeric_limits_max, SFmax_float, SFcompare.
  change (emax - prec)%Z with 971%Z.
  destruct (Z.compare_spec 971 e) as [<-| |]; [|lia|done].
  unfold canonical_mantissa, fexp, emin in Hc.
  apply Z.eqb_eq in Hc.
  assert (Z.pos (digits2_pos m) = 53%Z) as Hd
    by (unfold prec, emax in Hc; lia).
  pose proof (lt_pow2_digits m) as Hm. rewrite Hd in Hm.
  change (Pos.compare_cont Eq ?a ?b) with (Pos.compare a b).
  destruct (Pos.compare_spec
              (Pos.iter xO 1%positive (Z.to_pos prec) - 1)%positive m)
    as [| Hlt |]; try done.
  exfalso. revert Hlt Hm.
  change (Pos.iter xO 1%positive (Z.to_pos prec) - 1)%positive
    with 9007199254740991%positive.
  change (2 ^ 53)%Z with 9007199254740992%Z. lia.
Qed.

(** C6: from limits without [has_velocity_limits], the Velocity-Soft
    constructor succeeds and caps the velocity at
    [std::numeric_limits<double>::max()], above which no finite
    [double] lies, while both Velocity-Saturation constructors throw the
    configuration error. *)
Theorem velocity_soft_accepts_missing_velocity_limits
    (jposh jvelh jcmdh : option ptr) (limits : JointLimits)
    (soft_limits : SoftJointLimits) (hw : Hardware) :
  has_velocity_limits limits = false →
  (∃ h, VelocityJointSoftLimitsHandle.make jposh jvelh jcmdh limits soft_limits
        = Ok h ∧
        VelocityJointSoftLimitsHandle.max_vel_limit_ h = numeric_limits_max ∧
        isfinite (VelocityJointSoftLimitsHandle.max_vel_limit_ h) = true ∧
        ∀ x, valid_binary prec emax x = true → isfinite x = true →
             (VelocityJointSoftLimitsHandle.max_vel_limit_ h <? x)%D = false) ∧
  (∃ what, VelocityJointSaturationHandle.make jvelh jcmdh limits hw
           = Raise (JointLimitsInterfaceException what)) ∧
  (∃ what, VelocityJointSaturationHandle.make_cmd_only jcmdh limits hw
           = Raise (JointLimitsInterfaceException what)).
Proof.
  intros H.
  unfold VelocityJointSoftLimitsHandle.make, VelocityJointSaturationHandle.make,
    VelocityJointSaturationHandle.make_cmd_only.
  rewrite H. cbn. repeat split; eauto.
  eexists. repeat split. cbn. apply numeric_limits_max_largest.
Qed.

Lemma velocity_soft_accepts_missing_velocity_limits_witness :
  ∃ h, VelocityJointSoftLimitsHandle.make (Some 0%nat) None (Some 1%nat)
         {| min_position := zero; max_position := zero;
            max_velocity := zero; max_acceleration := zero;
            max_jerk := zero; max_effort := zero;
            has_position_limits := false; has_velocity_limits := false;
            has_acceleration_limits := false; has_jerk_limits := false;
            has_effort_limits := false; angle_wraparound := false |}
         {| soft_min_position := zero; soft_max_position := zero;
            k_position := zero; k_velocity := zero |} = Ok h ∧
       VelocityJointSoftLimitsHandle.max_vel_limit_ h = numeric_limits_max.
Proof.
  destruct (velocity_soft_accepts_missing_velocity_limits
              (Some 0%nat) None (Some 1%nat)
              {| min_position := zero; max_position := zero;
                 max_velocity := zero; max_acceleration := zero;
                 max_jerk := zero; max_effort := zero;
                 has_position_limits := false; has_velocity_limits := false;
                 has_acceleration_limits := false; has_jerk_limits := false;
                 has_effort_limits := false; angle_wraparound := false |}
              {| soft_min_position := zero; soft_max_position := zero;
                 k_position := zero; k_velocity := zero |}
              (fun _ => {| jh_name := "joint"; jh_value := zero |})
              eq_refl) as [(h & Hmk & Hcap & _) _].
  exists h. split; [exact Hmk|exact Hcap].
Defined.

End VelocityCap.

(** ** Effort saturation without a velocity handle *)

Section EffortSaturationNoVelocity.

Import EffortJointSaturationHandle.

Lemma effort_enforceLimits_keeps_handle (h h' : t) period hw hw' :
  enforceLimits h period hw = Ok (h', hw') → h' = h.
Proof.
  unfold enforceLimits.
  destruct (window h period hw) as [[lo hi]|]; [cbn -[clamp]|done].
  destruct (get_value (jcmdh_ h) hw); [cbn -[clamp]|done].
  destruct (clamp _ lo hi); [cbn|done].
  destruct (set_value (jcmdh_ h) _ hw); [cbn|done].
  by intros [= <- _].
Qed.

Lemma effort_reachable_shape (h0 h : t) :
  reachable h0 h →
  prev_pos_ h0 = quiet_NaN →
  prev_pos_ h = quiet_NaN ∧ jposh_ h = jposh_ h0 ∧ jvelh_ h = jvelh_ h0 ∧
  jcmdh_ h = jcmdh_ h0 ∧ limits_ h = limits_ h0.
Proof.
  intros Hr H0. induction Hr as [|h Hr IH|h period hw h' hw' Hr IH Hc].
  - done.
  - destruct IH as (_ & ? & ? & ? & ?). done.
  - apply effort_enforceLimits_keeps_handle in Hc as ->. exact IH.
Qed.

Lemma velocity_window_nan (limits : JointLimits) (w : double * double) :
  velocity_window limits quiet_NaN w = w.
Proof. unfold velocity_window, gtb. by rewrite ltb_nan_l, ltb_nan_r. Qed.

(** With an effort limit that is not negative, none of the windows the
    position test leaves is reversed. *)
Lemma position_window_proper (limits : JointLimits) (pos : double) :
  (max_effort limits <? zero)%D = false →
  (snd (position_window limits pos) <? fst (position_window limits pos))%D
  = false.
Proof.
  intros Hm. unfold position_window.
  destruct (pos <? _)%D; [done|].
  destruct (pos >? _)%D; cbn [fst snd];
    by rewrite ?ltb_zero_neg, ?ltb_neg_self.
Qed.

(** C9: a handle built by the constructor without a velocity handle
    keeps [prev_pos_] at NaN through every cycle and reset; in every
    cycle [get_velocity] is NaN, both tests of the velocity against
    [-max_velocity] and [max_velocity] are false, and the effort window
    is the one left by the position test (or [[-max_effort, max_effort]]
    without position limits); with an effort limit that is not negative
    the cycle returns and the command is clamped into that window. *)
Theorem effort_saturation_without_velocity_handle
    (jh jcmdh : ptr) (limits : JointLimits) (hw0 : Hardware) (h0 h : t) :
  make_no_vel (Some jh) (Some jcmdh) limits hw0 = Ok h0 →
  reachable h0 h →
  prev_pos_ h = quiet_NaN ∧
  ∀ (period : Duration) (hw : Hardware),
    Base.get_velocity h period hw = Ok quiet_NaN ∧
    (quiet_NaN <? - max_velocity limits)%D = false ∧
    (quiet_NaN >? max_velocity limits)%D = false ∧
    let w := if has_position_limits limits
             then position_window limits (jh_value (hw jh))
             else ((- max_effort limits)%D, max_effort limits) in
    window h period hw = Ok w ∧
    ((max_effort limits <? zero)%D = false →
     ∃ hw',
       enforceLimits h period hw = Ok (h, hw') ∧
       jh_value (hw' jcmdh)
       = clamp_value (jh_value (hw jcmdh)) (fst w) (snd w)).
Proof.
  intros Hmk Hr.
  assert (h0 = Base.make (Some jh) None (Some jcmdh) limits) as ->.
  { unfold make_no_vel, make in Hmk.
    destruct (negb (has_velocity_limits limits)); [done|].
    destruct (negb (has_effort_limits limits)); [done|]. by injection Hmk. }
  destruct (effort_reachable_shape _ _ Hr eq_refl) as (Hp & Hjp & Hjv & Hjc & Hl).
  cbn in Hjp, Hjv, Hjc, Hl.
  split; [exact Hp|]. intros period hw.
  assert (Base.get_velocity h period hw = Ok quiet_NaN) as Hvel.
  { unfold Base.get_velocity. rewrite Hjv, Hjp, Hp. cbn.
    by rewrite sub_nan_r. }
  split; [exact Hvel|].
  split; [apply ltb_nan_l|]. split; [apply ltb_nan_r|].
  intros w.
  assert (window h period hw = Ok w) as Hw.
  { unfold window. rewrite Hvel, Hl, Hjp. subst w.
    destruct (has_position_limits limits);
      cbn -[velocity_window position_window];
      by rewrite velocity_window_nan. }
  split; [exact Hw|].
  intros Hm.
  assert ((snd w <? fst w)%D = false) as Hrev.
  { unfold w. destruct (has_position_limits limits);
      [by apply position_window_proper|].
    cbn [fst snd]. by rewrite ltb_neg_self. }
  unfold enforceLimits. rewrite Hw, Hjc. cbn -[clamp].
  destruct w as [lo hi]. cbn [fst snd] in *. rewrite clamp_ok by done. cbn.
  eexists. split; [reflexivity|].
  cbn. by rewrite Nat.eqb_refl.
Qed.

End EffortSaturationNoVelocity.

Section EffortSaturationNoVelocityWitness.

Import EffortJointSaturationHandle.

(** The statement of C9 at the scenario handle after a cycle and a
    reset: with the position at 2, above [max_position], a command of -15
    is let through. *)
Lemma effort_saturation_without_velocity_handle_witness :
  let h0 := Base.make (Some EffortSaturationScenario.jposh) None
              (Some EffortSaturationScenario.jcmdh)
              EffortSaturationScenario.limits in
  prev_pos_ h0 = quiet_NaN ∧
  ∃ hw',
    enforceLimits h0 EffortSaturationScenario.period
      (EffortSaturationScenario.hw (of_Z 2) zero (of_Z (-15))) = Ok (h0, hw') ∧
    jh_value (hw' EffortSaturationScenario.jcmdh) = of_Z (-15).
Proof.
  intros h0.
  assert (reachable h0 h0) as Hr.
  { apply (reach_reset h0 h0).
    eapply (reach_cycle h0 h0 EffortSaturationScenario.period
              (EffortSaturationScenario.hw (of_Z 2) zero (of_Z 15)));
      [apply reach_init|reflexivity]. }
  destruct (effort_saturation_without_velocity_handle
              EffortSaturationScenario.jposh EffortSaturationScenario.jcmdh
              EffortSaturationScenario.limits
              (EffortSaturationScenario.hw zero zero zero) h0 h0
              eq_refl Hr) as [Hp Hcycle].
  split; [exact Hp|].
  destruct (Hcycle EffortSaturationScenario.period
              (EffortSaturationScenario.hw (of_Z 2) zero (of_Z (-15))))
    as (_ & _ & _ & _ & Hwritten).
  destruct (Hwritten eq_refl) as (hw' & Hrun & Hcmd).
  exists hw'. split; [exact Hrun|exact Hcmd].
Defined.

End EffortSaturationNoVelocityWitness.

(** ** Velocity soft limits without a velocity handle *)

Section VelocitySoftNoVelocity.

Import VelocityJointSoftLimitsHandle.

Lemma vs_enforceLimits_keeps_handle (h h' : t) period hw hw' :
  enforceLimits h period hw = Ok (h', hw') → h' = h.
Proof.
  unfold enforceLimits.
  destruct (window h period hw) as [[lo hi]|]; [cbn -[clamp]|done].
  destruct (get_value (jcmdh_ (sat (soft h))) hw); [cbn -[clamp]|done].
  destruct (clamp _ lo hi); [cbn|done].
  destruct (set_value (jcmdh_ (sat (soft h))) _ hw); [cbn|done].
  by intros [= <- _].
Qed.

(** Cycles keep the handle; resets keep everything but the cache, which
    they put back to NaN and 0. *)
Lemma velocity_soft_reachable_shape (h0 h : t) :
  reachable h0 h →
  prev_pos_ (sat (soft h0)) = quiet_NaN →
  prev_pos_ (sat (soft h)) = quiet_NaN ∧
  jposh_ (sat (soft h)) = jposh_ (sat (soft h0)) ∧
  jvelh_ (sat (soft h)) = jvelh_ (sat (soft h0)) ∧
  jcmdh_ (sat (soft h)) = jcmdh_ (sat (soft h0)) ∧
  limits_ (sat (soft h)) = limits_ (sat (soft h0)) ∧
  soft_limits_ (soft h) = soft_limits_ (soft h0) ∧
  max_vel_limit_ h = max_vel_limit_ h0.
Proof.
  intros Hr H0. induction Hr as [|h Hr IH|h period hw h' hw' Hr IH Hc].
  - done.
  - destruct IH as (_ & ? & ? & ? & ? & ? & ?). done.
  - apply vs_enforceLimits_keeps_handle in Hc as ->. exact IH.
Qed.

(** With a cap that is not negative the bounds from the soft position
    band are computed. *)
Lemma position_window_returns (h : t) (jposh : ptr) (hw : Hardware) :
  jposh_ (sat (soft h)) = Some jposh →
  (max_vel_limit_ h <? zero)%D = false →
  ∃ w, position_window h hw = Ok w.
Proof.
  intros Hj Hm. unfold position_window. rewrite Hj.
  destruct (has_position_limits _); [|by eexists].
  cbn -[clamp]. rewrite !clamp_ok by by rewrite ltb_neg_self. cbn.
  by eexists.
Qed.

(** C10: with acceleration limits present and no velocity handle bound,
    [prev_pos_] stays NaN through every cycle and reset; in every cycle
    the estimated velocity is NaN and the velocity bounds, whenever they
    are computed, are both NaN; with a velocity cap that is not negative
    they are computed, the cycle returns, and the command handle keeps
    the proposed command, whatever its value. *)
Theorem velocity_soft_without_velocity_handle
    (jposh jcmdh : ptr) (limits : JointLimits)
    (soft_limits : SoftJointLimits) (h0 h : t) :
  has_acceleration_limits limits = true →
  make (Some jposh) None (Some jcmdh) limits soft_limits = Ok h0 →
  reachable h0 h →
  prev_pos_ (sat (soft h)) = quiet_NaN ∧
  ∀ (period : Duration) (hw : Hardware),
    Base.get_velocity (sat (soft h)) period hw = Ok quiet_NaN ∧
    (∀ w, window h period hw = Ok w → w = (quiet_NaN, quiet_NaN)) ∧
    ((max_vel_limit_ h <? zero)%D = false →
     window h period hw = Ok (quiet_NaN, quiet_NaN) ∧
     ∃ hw',
       enforceLimits h period hw = Ok (h, hw') ∧
       jh_value (hw' jcmdh) = jh_value (hw jcmdh) ∧
       (∀ a, a ≠ jcmdh → hw' a = hw a)).
Proof.
  intros Hacc Hmk Hr.
  assert (prev_pos_ (sat (soft h0)) = quiet_NaN ∧
          jposh_ (sat (soft h0)) = Some jposh ∧
          jvelh_ (sat (soft h0)) = None ∧
          jcmdh_ (sat (soft h0)) = Some jcmdh ∧
          limits_ (sat (soft h0)) = limits) as (H0 & E1 & E2 & E3 & E4).
  { unfold make in Hmk.
    destruct (has_velocity_limits limits); injection Hmk as <-; done. }
  destruct (velocity_soft_reachable_shape _ _ Hr H0) as (Hp & Hjp & Hjv & Hjc & Hl & _).
  rewrite E1 in Hjp. rewrite E2 in Hjv. rewrite E3 in Hjc. rewrite E4 in Hl.
  split; [exact Hp|]. intros period hw.
  assert (Base.get_velocity (sat (soft h)) period hw = Ok quiet_NaN) as Hvel.
  { unfold Base.get_velocity. rewrite Hjv, Hjp, Hp. cbn.
    by rewrite sub_nan_r. }
  split; [exact Hvel|].
  assert (∀ w, position_window h hw = Ok w →
               window h period hw = Ok (quiet_NaN, quiet_NaN)) as Hnan.
  { intros [pmin pmax] Hpw. unfold window. rewrite Hpw, Hvel, Hl, Hacc.
    cbn -[std_max std_min]. by rewrite std_min_nan_l. }
  split.
  { intros w Hw.
    destruct (position_window h hw) as [pw|] eqn:Hpw;
      [|by unfold window in Hw; rewrite Hpw in Hw].
    rewrite (Hnan pw eq_refl) in Hw. by injection Hw. }
  intros Hm.
  destruct (position_window_returns h jposh hw Hjp Hm) as [pw Hpw].
  pose proof (Hnan pw Hpw) as Hw.
  split; [exact Hw|].
  unfold enforceLimits. rewrite Hw, Hjc. cbn -[clamp].
  rewrite clamp_nan_bounds. cbn.
  eexists. split; [reflexivity|]. cbn. rewrite Nat.eqb_refl.
  split; [done|].
  intros a Ha. destruct (Nat.eqb_spec a jcmdh); [contradiction|reflexivity].
Qed.

(** The statement of C10 at the scenario handle after a cycle and a
    reset: velocity limit 10, command 1000. *)
Lemma velocity_soft_without_velocity_handle_witness :
  ∃ h hw',
    VelocitySoftScenario.run false zero zero (of_Z 1000) = Ok (h, hw') ∧
    jh_value (hw' VelocitySoftScenario.jcmdh) = of_Z 1000.
Proof.
  pose (h0 := {| soft := SoftBase.make (Some VelocitySoftScenario.jposh) None
                           (Some VelocitySoftScenario.jcmdh)
                           VelocitySoftScenario.limits
                           VelocitySoftScenario.soft_limits;
                 max_vel_limit_ := of_Z 10 |}).
  assert (reachable h0 h0) as Hr.
  { apply (reach_reset h0 h0).
    eapply (reach_cycle h0 h0 VelocitySoftScenario.period
              (VelocitySoftScenario.hw zero zero (of_Z 3)));
      [apply reach_init|reflexivity]. }
  destruct (velocity_soft_without_velocity_handle
              VelocitySoftScenario.jposh VelocitySoftScenario.jcmdh
              VelocitySoftScenario.limits VelocitySoftScenario.soft_limits
              h0 h0 eq_refl eq_refl Hr) as [_ Hcycle].
  destruct (Hcycle VelocitySoftScenario.period
              (VelocitySoftScenario.hw zero zero (of_Z 1000)))
    as (_ & _ & Hwritten).
  destruct (Hwritten eq_refl) as (_ & hw' & Hrun & Hcmd & _).
  exists h0, hw'. split; [exact Hrun|exact Hcmd].
Defined.

End VelocitySoftNoVelocity.

(** ** Effort saturation with the position out of bounds *)

Section EffortSaturationPosition.

Import EffortJointSaturationHandle.




End EffortSaturationPosition.

(** ** Position soft limits at the edge of the soft band *)

Section PositionSoftEdge.

Import PositionJointSoftLimitsHandle.

(** C7, as stated, fails when the soft band reaches below the hard one:
    with hard limits [0, 2] and the cached position at
    [soft_min_position] -1, [soft_min_vel] is a zero, but the lower
    position bound is the hard limit 0 and not the cached position. *)
Lemma position_soft_lower_bound_not_cached_position :
  fst <$> SoftBase.soft_vel_bounds (PositionSoftScenario.limits (of_Z 0))
            PositionSoftScenario.soft_limits (of_Z (-1))
  = Ok (S754_zero true) ∧
  fst <$> PositionSoftScenario.run_window (of_Z 0) (of_Z (-1))
  = Ok (of_Z 0) ∧
  (of_Z 0 =? of_Z (-1))%D = false ∧
  command_after PositionSoftScenario.jcmdh
    (PositionSoftScenario.run (of_Z 0) (of_Z (-1)) (of_Z (-1)))
  = Some (of_Z 0).
Proof. repeat split; done. Qed.

(** With a velocity limit that is not negative, the soft velocity
    bounds are computed. *)
Lemma soft_vel_bounds_returns (limits : JointLimits) (soft : SoftJointLimits)
    (pos : double) :
  (max_velocity limits <? zero)%D = false →
  SoftBase.soft_vel_bounds limits soft pos
  = Ok (if has_position_limits limits
        then (clamp_value (- k_position soft * (pos - soft_min_position soft))%D
                (- max_velocity limits)%D (max_velocity limits),
              clamp_value (- k_position soft * (pos - soft_max_position soft))%D
                (- max_velocity limits)%D (max_velocity limits))
        else ((- max_velocity limits)%D, max_velocity limits)).
Proof.
  intros Hm. unfold SoftBase.soft_vel_bounds.
  destruct (has_position_limits limits); [|done].
  by rewrite !clamp_ok by by rewrite ltb_neg_self.
Qed.

Lemma soft_min_vel_at_edge (limits : JointLimits) (soft : SoftJointLimits) :
  has_position_limits limits = true →
  isfinite (soft_min_position soft) = true →
  isfinite (k_position soft) = true →
  (zero <=? max_velocity limits)%D = true →
  ∃ soft_min_vel soft_max_vel,
    SoftBase.soft_vel_bounds limits soft (soft_min_position soft)
    = Ok (soft_min_vel, soft_max_vel) ∧
    is_zero soft_min_vel = true.
Proof.
  intros Hpos Hfin Hk Hmv.
  rewrite soft_vel_bounds_returns by by apply nonneg_not_negative.
  rewrite Hpos. eexists _, _. split; [reflexivity|].
  assert (is_zero (- k_position soft
                   * (soft_min_position soft - soft_min_position soft))%D
          = true) as Hz
    by (apply mul_zero_r; [by rewrite isfinite_neg|by apply sub_self]).
  by rewrite clamp_value_zero.
Qed.

(** A clamped number is not below a lower end that is a number. *)
Lemma clamp_value_lower (v lo hi : double) :
  isnan v = false → isnan lo = false → (hi <? lo)%D = false →
  (lo <=? clamp_value v lo hi)%D = true.
Proof.
  intros Hv Hlo Hrev. unfold clamp_value.
  destruct (v <? lo)%D eqn:E1; [by apply leb_refl|].
  destruct (hi <? v)%D eqn:E2; [|by apply leb_of_not_ltb].
  destruct (ltb_not_nan _ _ E2) as [Hhi _]. by apply leb_of_not_ltb.
Qed.

(** C7, amended: with position limits present, a finite
    [soft_min_position], gain and period and a velocity limit that is
    not negative, when the cached position equals [soft_min_position]
    the computed [soft_min_vel] is
    [clamp(0, -max_velocity, max_velocity) == 0], and the lower position
    bound of the cycle is the larger of the cached position and the hard
    [min_position]: it compares equal to the cached position whenever
    that is not below [min_position], and is [min_position] otherwise.
    When the interval of the cycle is not reversed the cycle returns and
    no command below the cached position is written (a command that is
    a number is written as a number at or above it); when it is
    reversed the call fails the assertion of [clamp]. With k_position 10
    and max_velocity 2, [soft_min_vel] is (minus) zero, and a command of
    -5 at the cached position -1 is written as -1; with the hard limits
    [0, 2] and a period of 0.25 s the interval at the cached position -1
    is reversed and the call fails. *)
Theorem position_soft_limits_at_soft_min :
  (∀ (jposh : option ptr) (jcmdh : ptr) (limits : JointLimits)
     (soft : SoftJointLimits) (hw0 hw : Hardware) (h0 : t)
     (period : Duration),
     has_position_limits limits = true →
     make jposh (Some jcmdh) limits soft hw0 = Ok h0 →
     isfinite (soft_min_position soft) = true →
     isfinite (k_position soft) = true →
     isfinite (seconds period) = true →
     (seconds period >? zero)%D = true →
     (zero <=? max_velocity limits)%D = true →
     let pos := soft_min_position soft in
     let h := SoftBase.with_sat h0 (Base.set_prev_pos (sat h0) pos) in
     let cmd := jh_value (hw jcmdh) in
     ∃ soft_min_vel soft_max_vel lo hi,
       SoftBase.soft_vel_bounds limits soft pos
       = Ok (soft_min_vel, soft_max_vel) ∧
       (soft_min_vel =? zero)%D = true ∧
       window h pos period = Ok (lo, hi) ∧
       ((pos <? min_position limits)%D = false → (lo =? pos)%D = true) ∧
       ((pos <? min_position limits)%D = true → lo = min_position limits) ∧
       ((hi <? lo)%D = false →
        ∃ h' hw',
          enforceLimits h period hw = Ok (h', hw') ∧
          jh_value (hw' jcmdh) = clamp_value cmd lo hi ∧
          prev_pos_ (sat h') = jh_value (hw' jcmdh) ∧
          (jh_value (hw' jcmdh) <? pos)%D = false ∧
          (isnan cmd = false → (pos <=? jh_value (hw' jcmdh))%D = true)) ∧
       ((hi <? lo)%D = true →
        enforceLimits h period hw = Raise AssertionFailed))
  ∧ (fst <$> SoftBase.soft_vel_bounds (PositionSoftScenario.limits (of_Z (-2)))
               PositionSoftScenario.soft_limits (of_Z (-1))
     = Ok (S754_zero true) ∧
     (S754_zero true =? zero)%D = true ∧
     fst <$> PositionSoftScenario.run_window (of_Z (-2)) (of_Z (-1))
     = Ok (of_Z (-1)) ∧
     command_after PositionSoftScenario.jcmdh
       (PositionSoftScenario.run (of_Z (-2)) (of_Z (-1)) (of_Z (-5)))
     = Some (of_Z (-1)) ∧
     ∀ cmd, PositionSoftScenario.run_from (of_Z 0) (of_Z (-1)) cmd
              {| seconds := (of_Z 1 / of_Z 4)%D |}
            = Raise AssertionFailed).
Proof.
  split; [|repeat split; done].
  intros jposh jcmdh limits soft hw0 hw h0 period Hpos Hmk Hfin Hk Hdt Hdt0 Hmv
    pos h cmd.
  assert (h0 = SoftBase.make jposh None (Some jcmdh) limits soft) as ->.
  { unfold make in Hmk.
    destruct (negb (has_velocity_limits limits)); [done|]. by injection Hmk. }
  destruct (soft_min_vel_at_edge limits soft Hpos Hfin Hk Hmv)
    as (vmin & vmax & Hb & Hz).
  fold pos in Hb.
  assert (isnan pos = false) as Hn
    by (revert Hfin; unfold pos; by destruct (soft_min_position soft)).
  set (lo := std_max (pos + vmin * seconds period)%D (min_position limits)).
  set (hi := std_min (pos + vmax * seconds period)%D (max_position limits)).
  assert (window h pos period = Ok (lo, hi)) as Hw.
  { unfold window. cbn -[SoftBase.soft_vel_bounds std_max std_min].
    rewrite Hb. cbn -[std_max std_min]. by rewrite Hpos. }
  assert (same (pos + vmin * seconds period)%D pos) as Hsame
    by (apply add_zero_r; [done|by apply mul_zero_l]).
  assert ((pos <? min_position limits)%D = false → same lo pos) as Hin.
  { intros Hge. unfold lo, std_max.
    by rewrite (same_ltb_l _ _ _ Hsame), Hge. }
  assert ((pos <? min_position limits)%D = true → lo = min_position limits)
    as Hout.
  { intros Hlt. unfold lo, std_max.
    by rewrite (same_ltb_l _ _ _ Hsame), Hlt. }
  assert (isnan lo = false ∧ (pos <=? lo)%D = true) as [Hnlo Hple].
  { destruct (pos <? min_position limits)%D eqn:E.
    - rewrite (Hout eq_refl). destruct (ltb_not_nan _ _ E) as [_ Hnm].
      split; [done|by apply ltb_leb].
    - pose proof (Hin eq_refl) as Hs. split.
      + by rewrite (same_isnan _ _ Hs).
      + rewrite (same_leb_r _ _ _ Hs). by apply leb_refl. }
  exists vmin, vmax, lo, hi.
  split; [exact Hb|].
  split; [by apply is_zero_eqb|].
  split; [exact Hw|].
  split.
  { intros Hge. apply same_eqb; [done|by apply Hin]. }
  split; [exact Hout|].
  split.
  - intros Hrev. unfold enforceLimits. rewrite Hdt0.
    cbn -[window clamp]. fold pos. rewrite Hn.
    cbn -[window clamp]. fold h. rewrite Hw.
    cbn -[clamp]. rewrite clamp_ok by done. cbn.
    eexists _, _. split; [reflexivity|]. cbn.
    rewrite Nat.eqb_refl. cbn. fold cmd.
    split; [done|]. split; [done|].
    destruct (clamp_value_not_outside cmd lo hi Hrev) as [Hlow _].
    split.
    + destruct (clamp_value cmd lo hi <? pos)%D eqn:Ec; [|done].
      pose proof (ltb_leb_trans _ _ _ Ec Hple). congruence.
    + intros Hc. apply (leb_trans _ lo); [done|].
      by apply clamp_value_lower.
  - intros Hrev. unfold enforceLimits. rewrite Hdt0.
    cbn -[window clamp]. fold pos. rewrite Hn.
    cbn -[window clamp]. fold h. rewrite Hw.
    cbn -[clamp]. by rewrite clamp_reversed.
Qed.

(** The amended statement at the scenario: hard limits [-2, 2], cached
    position -1, command -5. *)
Lemma position_soft_limits_at_soft_min_witness :
  let h := SoftBase.with_sat
             (SoftBase.make (Some PositionSoftScenario.jposh) None
                (Some PositionSoftScenario.jcmdh)
                (PositionSoftScenario.limits (of_Z (-2)))
                PositionSoftScenario.soft_limits)
             (Base.set_prev_pos
                (Base.make (Some PositionSoftScenario.jposh) None
                   (Some PositionSoftScenario.jcmdh)
                   (PositionSoftScenario.limits (of_Z (-2))))
                (of_Z (-1))) in
  ∃ h' hw',
    enforceLimits h PositionSoftScenario.period
      (PositionSoftScenario.hw (of_Z 7) (of_Z (-5))) = Ok (h', hw') ∧
    jh_value (hw' PositionSoftScenario.jcmdh) = of_Z (-1).
Proof.
  intros h.
  destruct (proj1 position_soft_limits_at_soft_min
              (Some PositionSoftScenario.jposh) PositionSoftScenario.jcmdh
              (PositionSoftScenario.limits (of_Z (-2)))
              PositionSoftScenario.soft_limits
              (PositionSoftScenario.hw zero zero)
              (PositionSoftScenario.hw (of_Z 7) (of_Z (-5)))
              (SoftBase.make (Some PositionSoftScenario.jposh) None
                 (Some PositionSoftScenario.jcmdh)
                 (PositionSoftScenario.limits (of_Z (-2)))
                 PositionSoftScenario.soft_limits)
              PositionSoftScenario.period
              eq_refl eq_refl eq_refl eq_refl eq_refl eq_refl eq_refl)
    as (vmin & vmax & lo & hi & _ & _ & Hw & _ & _ & Hcycle & _).
  assert (lo = of_Z (-1) ∧ hi = of_Z 1) as [-> ->]
    by (vm_compute in Hw; by injection Hw as <- <-).
  destruct (Hcycle eq_refl) as (h' & hw' & Hrun & Hcmd & _).
  exists h', hw'. split; [exact Hrun|]. rewrite Hcmd. reflexivity.
Defined.

End PositionSoftEdge.

(** ** The written command and the hard limits *)

Section HardLimits.

(** C1 at a first cycle whose measured position lies outside the hard
    band.  Position saturation, limits [-1, 1], velocity limit 2, period
    1 s, measured position 5: the interval of the cycle is [[3, 1]], its
    lower end above the hard [max_position]; the call fails the
    assertion of [clamp] whatever the command is, and the value [clamp]
    would return for the command 0 is 3.  Position soft limits, hard
    limits [-2, 2], soft band [-1, 1], measured position 5: the interval
    is [[3, 2]], with the same outcome.  Velocity soft limits, velocity
    limit 10, acceleration limit 1: with a measured velocity of 100 the
    interval is [[99, 10]], with the same outcome and 99 for the command
    0; without a velocity handle both bounds are NaN and the command
    1000 is written as it is.  A first cycle that measures NaN as
    position gives the two position handles NaN bounds as well, and the
    command 1000 is written as it is. *)
Theorem written_command_outside_hard_limits :
  ((h ← PositionJointSaturationHandle.make
          (Some PositionSaturationScenario.jposh)
          (Some PositionSaturationScenario.jcmdh)
          PositionSaturationScenario.limits;
    Ok (PositionJointSaturationHandle.window h (of_Z 5)
          PositionSaturationScenario.period)) = Ok (of_Z 3, of_Z 1) ∧
   (max_position PositionSaturationScenario.limits <? of_Z 3)%D = true ∧
   (∀ cmd, PositionSaturationScenario.run quiet_NaN (of_Z 5) cmd
           = Raise AssertionFailed) ∧
   clamp_value (of_Z 0) (of_Z 3) (of_Z 1) = of_Z 3) ∧
  (PositionSoftScenario.run_window (of_Z (-2)) (of_Z 5)
   = Ok (of_Z 3, of_Z 2) ∧
   (max_position (PositionSoftScenario.limits (of_Z (-2))) <? of_Z 3)%D
   = true ∧
   (∀ cmd, PositionSoftScenario.run (of_Z (-2)) (of_Z 5) cmd
           = Raise AssertionFailed) ∧
   clamp_value (of_Z 0) (of_Z 3) (of_Z 2) = of_Z 3) ∧
  (VelocitySoftScenario.run_window true zero (of_Z 100)
   = Ok (of_Z 99, of_Z 10) ∧
   (max_velocity VelocitySoftScenario.limits <? of_Z 99)%D = true ∧
   (∀ cmd, VelocitySoftScenario.run true zero (of_Z 100) cmd
           = Raise AssertionFailed) ∧
   clamp_value (of_Z 0) (of_Z 99) (of_Z 10) = of_Z 99) ∧
  (VelocitySoftScenario.run_window false zero zero
   = Ok (quiet_NaN, quiet_NaN) ∧
   command_after VelocitySoftScenario.jcmdh
     (VelocitySoftScenario.run false zero zero (of_Z 1000))
   = Some (of_Z 1000) ∧
   (max_velocity VelocitySoftScenario.limits <? of_Z 1000)%D = true) ∧
  (command_after PositionSaturationScenario.jcmdh
     (PositionSaturationScenario.run quiet_NaN quiet_NaN (of_Z 1000))
   = Some (of_Z 1000) ∧
   (max_position PositionSaturationScenario.limits <? of_Z 1000)%D = true ∧
   PositionSoftScenario.run_window (of_Z (-2)) quiet_NaN
   = Ok (quiet_NaN, quiet_NaN) ∧
   command_after PositionSoftScenario.jcmdh
     (PositionSoftScenario.run (of_Z (-2)) quiet_NaN (of_Z 1000))
   = Some (of_Z 1000) ∧
   (max_position (PositionSoftScenario.limits (of_Z (-2))) <? of_Z 1000)%D
   = true).
Proof. repeat split; done. Qed.

End HardLimits.

(** ** Soft limits from the parameters *)

Section SoftLimitsLoading.

Import SoftLimitsParameters.

(** Whenever [getSoftJointLimits] returns false, the argument is as it
    was. *)
Lemma getSoftJointLimits_false_untouched (joint_name : string) (node : Node)
    (soft soft' : SoftJointLimits) :
  getSoftJointLimits joint_name node soft = Ok (false, soft') → soft' = soft.
Proof.
  unfold getSoftJointLimits.
  destruct (negb _ && _ && _ && _ && _); [by intros [= <-]|].
  destruct (get_parameter_bool node _ false) as [[found flag]|]; [cbn|done].
  destruct (found && _); [|by intros [= <-]].
  repeat (match goal with
          | |- context [get_parameter_double ?n ?k ?o] =>
              destruct (get_parameter_double n k o) as [[? ?]|]; [cbn|done]
          end).
  done.
Qed.

(** C8 on the documented parameter layout: with all four soft fields
    present and no [has_soft_limits] (or [has_soft_limits] false),
    [getSoftJointLimits] returns false and leaves its argument
    untouched; it returns true and loads the four fields only when
    [has_soft_limits] is also present and true. *)
Theorem getSoftJointLimits_needs_has_soft_limits (soft : SoftJointLimits) :
  (has_parameter node "joint_limits.foo_joint.k_position" = true ∧
   has_parameter node "joint_limits.foo_joint.k_velocity" = true ∧
   has_parameter node "joint_limits.foo_joint.soft_lower_limit" = true ∧
   has_parameter node "joint_limits.foo_joint.soft_upper_limit" = true) ∧
  getSoftJointLimits "foo_joint" node soft = Ok (false, soft) ∧
  getSoftJointLimits "foo_joint" (node_with_flag false) soft
  = Ok (false, soft) ∧
  getSoftJointLimits "foo_joint" (node_with_flag true) soft
  = Ok (true, loaded).
Proof. repeat split; vm_compute; reflexivity. Qed.

End SoftLimitsLoading.

(** ** Limits from the parameters *)

Section JointLimitsLoading.

Lemma patch_limits_then (p q : LimitsPatch) (l : JointLimits) :
  patch_limits q (patch_limits p l) = patch_limits (patch_then p q) l.
Proof.
  destruct p, q, l. unfold patch_limits, patch_then. cbn.
  f_equal;
    match goal with
    | |- default (default _ ?a) ?b = _ => by destruct a, b
    end.
Qed.

Lemma patch_limits_idemp (p : LimitsPatch) (l : JointLimits) :
  patch_limits p (patch_limits p l) = patch_limits p l.
Proof.
  destruct p, l. unfold patch_limits. cbn.
  f_equal;
    match goal with
    | |- default (default _ ?a) ?a = _ => by destruct a
    end.
Qed.

Lemma patch_limits_empty (l : JointLimits) : patch_limits empty_patch l = l.
Proof. by destruct l. Qed.

(** Unfolding a block down to the lookups in the parameter table. *)
Ltac block_cases :=
  unfold get_parameter_bool, get_parameter_double, bound_patch;
  repeat match goal with
         | |- context [parameters ?n !! ?k] =>
             destruct (parameters n !! k) as [[[]| | |]|]; cbn
         end.

Lemma load_position_limits_patch (node : Node) (base : string)
    (l l' : JointLimits) :
  load_position_limits node base l = Ok l' →
  ∀ m, load_position_limits node base m
       = Ok (patch_limits (position_patch node base) m).
Proof.
  unfold load_position_limits, position_patch. block_cases;
    intros H m; try done; by destruct m.
Qed.

Lemma load_velocity_limits_patch (node : Node) (base : string)
    (l l' : JointLimits) :
  load_velocity_limits node base l = Ok l' →
  ∀ m, load_velocity_limits node base m
       = Ok (patch_limits (velocity_patch node base) m).
Proof.
  unfold load_velocity_limits, velocity_patch. block_cases;
    intros H m; try done; by destruct m.
Qed.

Lemma load_acceleration_limits_patch (node : Node) (base : string)
    (l l' : JointLimits) :
  load_acceleration_limits node base l = Ok l' →
  ∀ m, load_acceleration_limits node base m
       = Ok (patch_limits (acceleration_patch node base) m).
Proof.
  unfold load_acceleration_limits, acceleration_patch. block_cases;
    intros H m; try done; by destruct m.
Qed.

Lemma load_jerk_limits_patch (node : Node) (base : string)
    (l l' : JointLimits) :
  load_jerk_limits node base l = Ok l' →
  ∀ m, load_jerk_limits node base m
       = Ok (patch_limits (jerk_patch node base) m).
Proof.
  unfold load_jerk_limits, jerk_patch. block_cases;
    intros H m; try done; by destruct m.
Qed.

Lemma load_effort_limits_patch (node : Node) (base : string)
    (l l' : JointLimits) :
  load_effort_limits node base l = Ok l' →
  ∀ m, load_effort_limits node base m
       = Ok (patch_limits (effort_patch node base) m).
Proof.
  unfold load_effort_limits, effort_patch. block_cases;
    intros H m; try done; by destruct m.
Qed.

(** Whether [getJointLimits] returns, and what it then overwrites, depends
    on the parameters only. *)
Lemma getJointLimits_patch (joint_name : string) (node : Node)
    (l l' : JointLimits) (b : bool) :
  getJointLimits joint_name node l = Ok (b, l') →
  ∀ m, getJointLimits joint_name node m
       = Ok (b, if b
                then patch_limits
                       (joint_limits_patch node ("joint_limits." ++ joint_name))
                       m
                else m).
Proof.
  unfold getJointLimits.
  destruct (forallb _ joint_limits_fields); [by intros [= <- <-]|].
  set (base := ("joint_limits." ++ joint_name)%string).
  destruct (load_position_limits node base l) as [l1|] eqn:E1; [cbn|done].
  destruct (load_velocity_limits node base l1) as [l2|] eqn:E2; [cbn|done].
  destruct (load_acceleration_limits node base l2) as [l3|] eqn:E3; [cbn|done].
  destruct (load_jerk_limits node base l3) as [l4|] eqn:E4; [cbn|done].
  destruct (load_effort_limits node base l4) as [l5|] eqn:E5; [cbn|done].
  intros [= <- <-] m.
  rewrite (load_position_limits_patch _ _ _ _ E1). cbn -[patch_limits].
  rewrite (load_velocity_limits_patch _ _ _ _ E2). cbn -[patch_limits].
  rewrite (load_acceleration_limits_patch _ _ _ _ E3). cbn -[patch_limits].
  rewrite (load_jerk_limits_patch _ _ _ _ E4). cbn -[patch_limits].
  rewrite (load_effort_limits_patch _ _ _ _ E5). cbn -[patch_limits].
  unfold joint_limits_patch. by rewrite <- !patch_limits_then.
Qed.

End JointLimitsLoading.

Section JointLimitsMerge.

Lemma position_patch_footprint (node : Node) (base : string) :
  let p := position_patch node base in
  p_max_velocity p = None ∧ p_max_acceleration p = None ∧
  p_max_jerk p = None ∧ p_max_effort p = None ∧
  p_has_velocity_limits p = None ∧ p_has_acceleration_limits p = None ∧
  p_has_jerk_limits p = None ∧ p_has_effort_limits p = None.
Proof. unfold position_patch. by repeat case_match. Qed.

Lemma velocity_patch_footprint (node : Node) (base : string) :
  let p := velocity_patch node base in
  p_min_position p = None ∧ p_max_position p = None ∧
  p_max_acceleration p = None ∧ p_max_jerk p = None ∧ p_max_effort p = None ∧
  p_has_position_limits p = None ∧ p_has_acceleration_limits p = None ∧
  p_has_jerk_limits p = None ∧ p_has_effort_limits p = None ∧
  p_angle_wraparound p = None.
Proof. unfold velocity_patch, bound_patch. by repeat case_match. Qed.

Lemma acceleration_patch_footprint (node : Node) (base : string) :
  let p := acceleration_patch node base in
  p_min_position p = None ∧ p_max_position p = None ∧
  p_max_velocity p = None ∧ p_max_jerk p = None ∧ p_max_effort p = None ∧
  p_has_position_limits p = None ∧ p_has_velocity_limits p = None ∧
  p_has_jerk_limits p = None ∧ p_has_effort_limits p = None ∧
  p_angle_wraparound p = None.
Proof. unfold acceleration_patch, bound_patch. by repeat case_match. Qed.

Lemma jerk_patch_footprint (node : Node) (base : string) :
  let p := jerk_patch node base in
  p_min_position p = None ∧ p_max_position p = None ∧
  p_max_velocity p = None ∧ p_max_acceleration p = None ∧
  p_max_effort p = None ∧
  p_has_position_limits p = None ∧ p_has_velocity_limits p = None ∧
  p_has_acceleration_limits p = None ∧ p_has_effort_limits p = None ∧
  p_angle_wraparound p = None.
Proof. unfold jerk_patch, bound_patch. by repeat case_match. Qed.

Lemma effort_patch_footprint (node : Node) (base : string) :
  let p := effort_patch node base in
  p_min_position p = None ∧ p_max_position p = None ∧
  p_max_velocity p = None ∧ p_max_acceleration p = None ∧
  p_max_jerk p = None ∧
  p_has_position_limits p = None ∧ p_has_velocity_limits p = None ∧
  p_has_acceleration_limits p = None ∧ p_has_jerk_limits p = None ∧
  p_angle_wraparound p = None.
Proof. unfold effort_patch, bound_patch. by repeat case_match. Qed.

(** Every field is overwritten by the block of its own group only. *)
Lemma joint_limits_patch_fields (node : Node) (base : string) :
  let p := joint_limits_patch node base in
  (p_has_position_limits p = p_has_position_limits (position_patch node base) ∧
   p_min_position p = p_min_position (position_patch node base) ∧
   p_max_position p = p_max_position (position_patch node base) ∧
   p_angle_wraparound p = p_angle_wraparound (position_patch node base)) ∧
  (p_has_velocity_limits p = p_has_velocity_limits (velocity_patch node base) ∧
   p_max_velocity p = p_max_velocity (velocity_patch node base)) ∧
  (p_has_acceleration_limits p
   = p_has_acceleration_limits (acceleration_patch node base) ∧
   p_max_acceleration p = p_max_acceleration (acceleration_patch node base)) ∧
  (p_has_jerk_limits p = p_has_jerk_limits (jerk_patch node base) ∧
   p_max_jerk p = p_max_jerk (jerk_patch node base)) ∧
  (p_has_effort_limits p = p_has_effort_limits (effort_patch node base) ∧
   p_max_effort p = p_max_effort (effort_patch node base)).
Proof.
  destruct (position_patch_footprint node base)
    as (P1 & P2 & P3 & P4 & P5 & P6 & P7 & P8).
  destruct (velocity_patch_footprint node base)
    as (V1 & V2 & V3 & V4 & V5 & V6 & V7 & V8 & V9 & V10).
  destruct (acceleration_patch_footprint node base)
    as (A1 & A2 & A3 & A4 & A5 & A6 & A7 & A8 & A9 & A10).
  destruct (jerk_patch_footprint node base)
    as (J1 & J2 & J3 & J4 & J5 & J6 & J7 & J8 & J9 & J10).
  destruct (effort_patch_footprint node base)
    as (E1 & E2 & E3 & E4 & E5 & E6 & E7 & E8 & E9 & E10).
  unfold joint_limits_patch, patch_then.
  cbn [p_min_position p_max_position p_max_velocity p_max_acceleration
       p_max_jerk p_max_effort p_has_position_limits p_has_velocity_limits
       p_has_acceleration_limits p_has_jerk_limits p_has_effort_limits
       p_angle_wraparound].
  rewrite P1, P2, P3, P4, P5, P6, P7, P8,
    V1, V2, V3, V4, V5, V6, V7, V8, V9, V10,
    A1, A2, A3, A4, A5, A6, A7, A8, A9, A10,
    J1, J2, J3, J4, J5, J6, J7, J8, J9, J10,
    E1, E2, E3, E4, E5, E6, E7, E8, E9, E10.
  repeat split;
    match goal with
    | |- context [p_has_position_limits ?q] => by destruct (p_has_position_limits q)
    | |- context [p_min_position ?q] => by destruct (p_min_position q)
    | |- context [p_max_position ?q] => by destruct (p_max_position q)
    | |- context [p_angle_wraparound ?q] => by destruct (p_angle_wraparound q)
    | |- context [p_has_velocity_limits ?q] => by destruct (p_has_velocity_limits q)
    | |- context [p_max_velocity ?q] => by destruct (p_max_velocity q)
    | |- context [p_has_acceleration_limits ?q] =>
        by destruct (p_has_acceleration_limits q)
    | |- context [p_max_acceleration ?q] => by destruct (p_max_acceleration q)
    | |- context [p_has_jerk_limits ?q] => by destruct (p_has_jerk_limits q)
    | |- context [p_max_jerk ?q] => by destruct (p_max_jerk q)
    | |- context [p_has_effort_limits ?q] => by destruct (p_has_effort_limits q)
    | |- context [p_max_effort ?q] => by destruct (p_max_effort q)
    end.
Qed.

Lemma getJointLimits_result (joint_name : string) (node : Node)
    (l l' : JointLimits) (b : bool) :
  getJointLimits joint_name node l = Ok (b, l') →
  l' = if b
       then patch_limits
              (joint_limits_patch node ("joint_limits." ++ joint_name)) l
       else l.
Proof.
  intros H. pose proof (getJointLimits_patch _ _ _ _ _ H l) as H'.
  rewrite H in H'. by injection H'.
Qed.

End JointLimitsMerge.

Section JointLimitsTheorems.

Lemma has_parameter_false (node : Node) (name : string) :
  negb (has_parameter node name) = true → parameters node !! name = None.
Proof.
  unfold has_parameter. destruct (parameters node !! name) eqn:E; [|done].
  rewrite bool_decide_eq_true_2; [done|by eexists].
Qed.

Lemma forallb_negb_existsb {A : Type} (f : A → bool) (xs : list A) :
  forallb (fun x => negb (f x)) xs = negb (existsb f xs).
Proof.
  induction xs as [|x xs IH]; [done|]. cbn. rewrite IH. by destruct (f x).
Qed.

(** What a call that returns has done to the limits, in both cases. *)
Lemma getJointLimits_overwrites (joint_name : string) (node : Node)
    (l l' : JointLimits) (b : bool) :
  getJointLimits joint_name node l = Ok (b, l') →
  l' = patch_limits (joint_limits_patch node ("joint_limits." ++ joint_name)) l.
Proof.
  intros H. pose proof (getJointLimits_result _ _ _ _ _ H) as ->.
  destruct b; [done|].
  unfold getJointLimits in H.
  destruct (forallb _ joint_limits_fields) eqn:E.
  - cbn in E. rewrite !andb_true_iff in E.
    destruct E as (F1 & _ & _ & F2 & _ & _ & F3 & _ & F4 & _ & F5 & _).
    apply has_parameter_false in F1, F2, F3, F4, F5.
    unfold joint_limits_patch, position_patch, velocity_patch,
      acceleration_patch, jerk_patch, effort_patch, bound_patch.
    rewrite F1, F2, F3, F4, F5. by destruct l.
  - destruct (load_position_limits _ _ _) as [l1|]; [cbn in H|done].
    destruct (load_velocity_limits _ _ _) as [l2|]; [cbn in H|done].
    destruct (load_acceleration_limits _ _ _) as [l3|]; [cbn in H|done].
    destruct (load_jerk_limits _ _ _) as [l4|]; [cbn in H|done].
    destruct (load_effort_limits _ _ _) as [l5|]; [cbn in H|done].
    done.
Qed.

Lemma getJointLimits_returns (joint_name : string) (node : Node)
    (l l' : JointLimits) (b : bool) :
  getJointLimits joint_name node l = Ok (b, l') →
  b = existsb (fun field =>
                 has_parameter node (("joint_limits." ++ joint_name) ++ field))
        joint_limits_fields ∧
  (b = false → l' = l).
Proof.
  unfold getJointLimits. rewrite forallb_negb_existsb.
  destruct (existsb _ joint_limits_fields); cbn.
  - destruct (load_position_limits _ _ _) as [l1|]; [cbn|done].
    destruct (load_velocity_limits _ _ _) as [l2|]; [cbn|done].
    destruct (load_acceleration_limits _ _ _) as [l3|]; [cbn|done].
    destruct (load_jerk_limits _ _ _) as [l4|]; [cbn|done].
    destruct (load_effort_limits _ _ _) as [l5|]; [cbn|done].
    by intros [= <- <-].
  - by intros [= <- <-].
Qed.

(** X1: [getJointLimits] reports a specification exactly when one of the
    eighteen names is in the table, the soft-limit names and
    [min_velocity] included, and a call that reports none leaves the
    limits as they were. *)
Theorem getJointLimits_found (joint_name : string) (node : Node)
    (l l' : JointLimits) (b : bool) :
  getJointLimits joint_name node l = Ok (b, l') →
  b = existsb (fun field =>
                 has_parameter node (("joint_limits." ++ joint_name) ++ field))
        joint_limits_fields ∧
  (b = false → l' = l).
Proof. apply getJointLimits_returns. Qed.

(** A table that holds nothing but [min_velocity], a name the function
    tests and never reads, is reported as a specification. *)
Lemma getJointLimits_found_witness :
  let node := {| node_name := "limits_node";
                 parameters :=
                   {[ "joint_limits.qux_joint.min_velocity"
                      := PARAMETER_DOUBLE (of_Z 1) ]} |} in
  true = existsb (fun field =>
                    has_parameter node (("joint_limits." ++ "qux_joint") ++ field))
           joint_limits_fields ∧
  (true = false → JointLimitsParameters.sevens = JointLimitsParameters.sevens).
Proof.
  intros node.
  apply (getJointLimits_found "qux_joint" node JointLimitsParameters.sevens
           JointLimitsParameters.sevens true).
  vm_compute. reflexivity.
Defined.

End JointLimitsTheorems.

Section JointLimitsGroups.

Variable joint_name : string.
Variable node : Node.
Variables (l l' : JointLimits) (b : bool).

Local Abbreviation key field :=
  (parameters node !! (("joint_limits." ++ joint_name) ++ field)%string).

(** Reduce the fields of the result to the patches of their groups. *)
Ltac group_fields H :=
  apply getJointLimits_overwrites in H; subst l';
  destruct (joint_limits_patch_fields node ("joint_limits." ++ joint_name))
    as ((Fp1 & Fp2 & Fp3 & Fp4) & (Fv1 & Fv2) & (Fa1 & Fa2) & (Fj1 & Fj2)
        & (Fe1 & Fe2));
  unfold patch_limits;
  cbn [min_position max_position max_velocity max_acceleration max_jerk
       max_effort has_position_limits has_velocity_limits
       has_acceleration_limits has_jerk_limits has_effort_limits
       angle_wraparound];
  rewrite Fp1, Fp2, Fp3, Fp4, Fv1, Fv2, Fa1, Fa2, Fj1, Fj2, Fe1, Fe2;
  unfold position_patch, velocity_patch, acceleration_patch, jerk_patch,
    effort_patch, bound_patch.

(** X2: a group whose [has_*] flag is not in the table is left as it was,
    also when its bounds are in the table. *)
Theorem getJointLimits_flag_absent :
  getJointLimits joint_name node l = Ok (b, l') →
  (key ".has_position_limits" = None →
   has_position_limits l' = has_position_limits l ∧
   min_position l' = min_position l ∧ max_position l' = max_position l ∧
   angle_wraparound l' = angle_wraparound l) ∧
  (key ".has_velocity_limits" = None →
   has_velocity_limits l' = has_velocity_limits l ∧
   max_velocity l' = max_velocity l) ∧
  (key ".has_acceleration_limits" = None →
   has_acceleration_limits l' = has_acceleration_limits l ∧
   max_acceleration l' = max_acceleration l) ∧
  (key ".has_jerk_limits" = None →
   has_jerk_limits l' = has_jerk_limits l ∧ max_jerk l' = max_jerk l) ∧
  (key ".has_effort_limits" = None →
   has_effort_limits l' = has_effort_limits l ∧ max_effort l' = max_effort l).
Proof.
  intros H. group_fields H.
  repeat split;
    repeat match goal with
           | H : _ ∨ _ |- _ => destruct H
           | H : parameters node !! _ = _ |- _ => rewrite H; clear H
           end; try done; by repeat case_match.
Qed.

(** X3: a group whose flag is false in the table has its flag cleared and
    keeps its bounds; the position block then also takes
    [angle_wraparound] from the table when it is there. *)
Theorem getJointLimits_flag_false :
  getJointLimits joint_name node l = Ok (b, l') →
  (key ".has_position_limits" = Some (PARAMETER_BOOL false) →
   has_position_limits l' = false ∧
   min_position l' = min_position l ∧ max_position l' = max_position l ∧
   angle_wraparound l'
   = match key ".angle_wraparound" with
     | Some (PARAMETER_BOOL wrap) => wrap
     | _ => angle_wraparound l
     end) ∧
  (key ".has_velocity_limits" = Some (PARAMETER_BOOL false) →
   has_velocity_limits l' = false ∧ max_velocity l' = max_velocity l) ∧
  (key ".has_acceleration_limits" = Some (PARAMETER_BOOL false) →
   has_acceleration_limits l' = false ∧
   max_acceleration l' = max_acceleration l) ∧
  (key ".has_jerk_limits" = Some (PARAMETER_BOOL false) →
   has_jerk_limits l' = false ∧ max_jerk l' = max_jerk l) ∧
  (key ".has_effort_limits" = Some (PARAMETER_BOOL false) →
   has_effort_limits l' = false ∧ max_effort l' = max_effort l).
Proof.
  intros H. group_fields H.
  repeat split;
    repeat match goal with
           | H : _ ∨ _ |- _ => destruct H
           | H : parameters node !! _ = _ |- _ => rewrite H; clear H
           end; try done; by repeat case_match.
Qed.

(** X4: a group whose flag is true in the table is loaded when its bounds are
    there (both of them, for the position), and is left as it was, flag
    included, when a bound is missing; [angle_wraparound] is not read. *)
Theorem getJointLimits_flag_true :
  getJointLimits joint_name node l = Ok (b, l') →
  (key ".has_position_limits" = Some (PARAMETER_BOOL true) →
   angle_wraparound l' = angle_wraparound l ∧
   (∀ lo hi, key ".min_position" = Some (PARAMETER_DOUBLE lo) →
             key ".max_position" = Some (PARAMETER_DOUBLE hi) →
             has_position_limits l' = true ∧
             min_position l' = lo ∧ max_position l' = hi) ∧
   (key ".min_position" = None ∨ key ".max_position" = None →
    has_position_limits l' = has_position_limits l ∧
    min_position l' = min_position l ∧ max_position l' = max_position l)) ∧
  (key ".has_velocity_limits" = Some (PARAMETER_BOOL true) →
   (∀ v, key ".max_velocity" = Some (PARAMETER_DOUBLE v) →
         has_velocity_limits l' = true ∧ max_velocity l' = v) ∧
   (key ".max_velocity" = None →
    has_velocity_limits l' = has_velocity_limits l ∧
    max_velocity l' = max_velocity l)) ∧
  (key ".has_acceleration_limits" = Some (PARAMETER_BOOL true) →
   (∀ v, key ".max_acceleration" = Some (PARAMETER_DOUBLE v) →
         has_acceleration_limits l' = true ∧ max_acceleration l' = v) ∧
   (key ".max_acceleration" = None →
    has_acceleration_limits l' = has_acceleration_limits l ∧
    max_acceleration l' = max_acceleration l)) ∧
  (key ".has_jerk_limits" = Some (PARAMETER_BOOL true) →
   (∀ v, key ".max_jerk" = Some (PARAMETER_DOUBLE v) →
         has_jerk_limits l' = true ∧ max_jerk l' = v) ∧
   (key ".max_jerk" = None →
    has_jerk_limits l' = has_jerk_limits l ∧ max_jerk l' = max_jerk l)) ∧
  (key ".has_effort_limits" = Some (PARAMETER_BOOL true) →
   (∀ v, key ".max_effort" = Some (PARAMETER_DOUBLE v) →
         has_effort_limits l' = true ∧ max_effort l' = v) ∧
   (key ".max_effort" = None →
    has_effort_limits l' = has_effort_limits l ∧
    max_effort l' = max_effort l)).
Proof.
  intros H. group_fields H.
  repeat split;
    repeat match goal with
           | H : _ ∨ _ |- _ => destruct H
           | H : parameters node !! _ = _ |- _ => rewrite H; clear H
           end; try done; by repeat case_match.
Qed.

(** X5: loading the same parameters again changes nothing. *)
Theorem getJointLimits_idempotent :
  getJointLimits joint_name node l = Ok (b, l') →
  getJointLimits joint_name node l' = Ok (b, l').
Proof.
  intros H. rewrite (getJointLimits_patch _ _ _ _ _ H l').
  pose proof (getJointLimits_result _ _ _ _ _ H) as ->.
  destruct b; [|done]. by rewrite patch_limits_idemp.
Qed.

End JointLimitsGroups.

Section JointLimitsWitnesses.

Import JointLimitsParameters.

(** [baz_joint] has bounds and no flag: nothing of it is loaded. *)
Lemma getJointLimits_flag_absent_witness :
  getJointLimits "baz_joint" node sevens = Ok (true, sevens) ∧
  parameters node !! "joint_limits.baz_joint.max_velocity"
  = Some (PARAMETER_DOUBLE (of_Z 2)) ∧
  max_velocity sevens = of_Z 7.
Proof.
  assert (getJointLimits "baz_joint" node sevens = Ok (true, sevens)) as H
    by (vm_compute; reflexivity).
  destruct (getJointLimits_flag_absent "baz_joint" node sevens sevens true H)
    as (_ & Hv & _).
  split; [exact H|]. split; [vm_compute; reflexivity|].
  apply Hv. vm_compute. reflexivity.
Defined.

(** [bar_joint] is continuous: the position flag is cleared, the position
    bounds stay. *)
Lemma getJointLimits_flag_false_witness :
  let l' := Limits.with_velocity
              (Limits.with_has_position_limits sevens false) (of_Z 4) in
  has_position_limits l' = false ∧ min_position l' = of_Z 7.
Proof.
  intros l'.
  assert (getJointLimits "bar_joint" node sevens = Ok (true, l')) as H
    by (vm_compute; reflexivity).
  destruct (getJointLimits_flag_false "bar_joint" node sevens l' true H)
    as (Hp & _).
  destruct Hp as (H1 & H2 & _); [vm_compute; reflexivity|].
  split; [exact H1|exact H2].
Defined.

(** [foo_joint] has every group: all of them are loaded. *)
Lemma getJointLimits_flag_true_witness :
  let l' := Limits.with_effort
              (Limits.with_jerk
                 (Limits.with_acceleration
                    (Limits.with_velocity
                       (Limits.with_position sevens (of_Z 0) (of_Z 1))
                       (of_Z 2))
                    (of_Z 5))
                 (of_Z 100))
              (of_Z 20) in
  has_position_limits l' = true ∧ min_position l' = of_Z 0 ∧
  max_position l' = of_Z 1.
Proof.
  intros l'.
  assert (getJointLimits "foo_joint" node sevens = Ok (true, l')) as H
    by (vm_compute; reflexivity).
  destruct (getJointLimits_flag_true "foo_joint" node sevens l' true H)
    as (Hp & _).
  destruct Hp as (_ & Hload & _); [vm_compute; reflexivity|].
  apply (Hload (of_Z 0) (of_Z 1)); vm_compute; reflexivity.
Defined.

Lemma getJointLimits_idempotent_witness :
  let l' := Limits.with_velocity
              (Limits.with_has_position_limits sevens false) (of_Z 4) in
  getJointLimits "bar_joint" node l' = Ok (true, l').
Proof.
  intros l'.
  apply (getJointLimits_idempotent "bar_joint" node sevens l' true).
  vm_compute. reflexivity.
Defined.

End JointLimitsWitnesses.

(** ** Soft limits: what a successful call has loaded *)

Section SoftLimitsLoaded.

Variable joint_name : string.
Variable node : Node.

Local Abbreviation soft_key field :=
  (parameters node !! (("joint_limits." ++ joint_name) ++ field)%string).

Lemma getSoftJointLimits_true (soft soft' : SoftJointLimits) :
  getSoftJointLimits joint_name node soft = Ok (true, soft') →
  soft_key ".has_soft_limits" = Some (PARAMETER_BOOL true) ∧
  soft_key ".k_position" = Some (PARAMETER_DOUBLE (k_position soft')) ∧
  soft_key ".k_velocity" = Some (PARAMETER_DOUBLE (k_velocity soft')) ∧
  soft_key ".soft_lower_limit"
  = Some (PARAMETER_DOUBLE (soft_min_position soft')) ∧
  soft_key ".soft_upper_limit"
  = Some (PARAMETER_DOUBLE (soft_max_position soft')).
Proof.
  unfold getSoftJointLimits.
  destruct (negb _ && _ && _ && _ && _); [done|].
  unfold get_parameter_bool, get_parameter_double, has_parameter.
  destruct (soft_key ".has_soft_limits") as [[[]| | |]|]; cbn; try done.
  destruct (soft_key ".k_position") as [[]|]; cbn; try done;
  destruct (soft_key ".k_velocity") as [[]|]; cbn; try done;
  destruct (soft_key ".soft_lower_limit") as [[]|]; cbn; try done;
  destruct (soft_key ".soft_upper_limit") as [[]|]; cbn; try done.
  by intros [= <-].
Qed.

(** X6: when [getSoftJointLimits] returns true, [has_soft_limits] is true in
    the table and each of the four fields of the result is the value of
    its parameter, whatever the argument held before. *)
Theorem getSoftJointLimits_true_loaded (soft soft' : SoftJointLimits) :
  getSoftJointLimits joint_name node soft = Ok (true, soft') →
  soft_key ".has_soft_limits" = Some (PARAMETER_BOOL true) ∧
  soft_key ".k_position" = Some (PARAMETER_DOUBLE (k_position soft')) ∧
  soft_key ".k_velocity" = Some (PARAMETER_DOUBLE (k_velocity soft')) ∧
  soft_key ".soft_lower_limit"
  = Some (PARAMETER_DOUBLE (soft_min_position soft')) ∧
  soft_key ".soft_upper_limit"
  = Some (PARAMETER_DOUBLE (soft_max_position soft')).
Proof. apply getSoftJointLimits_true. Qed.

(** X7: whenever [getSoftJointLimits] returns false, be it for a missing or
    false [has_soft_limits] or for a missing field, its argument is as it
    was: nothing is loaded in part. *)
Theorem getSoftJointLimits_false_keeps_argument (soft soft' : SoftJointLimits) :
  getSoftJointLimits joint_name node soft = Ok (false, soft') → soft' = soft.
Proof. apply getSoftJointLimits_false_untouched. Qed.

(** X8: whenever [getSoftJointLimits] finds soft limits, [getJointLimits] on
    the same joint reports a specification. *)
Theorem getSoftJointLimits_found_implies_getJointLimits_found
    (soft soft' : SoftJointLimits) (l l' : JointLimits) (b : bool) :
  getSoftJointLimits joint_name node soft = Ok (true, soft') →
  getJointLimits joint_name node l = Ok (b, l') →
  b = true.
Proof.
  intros Hs Hl. apply getSoftJointLimits_true in Hs as (Hflag & _).
  apply getJointLimits_returns in Hl as [-> _].
  apply existsb_exists. exists ".has_soft_limits"%string.
  split; [cbn; tauto|].
  unfold has_parameter. rewrite Hflag. apply bool_decide_eq_true_2. by eexists.
Qed.

End SoftLimitsLoaded.

Section SoftLimitsWitnesses.

Import SoftLimitsParameters.

Lemma getSoftJointLimits_true_loaded_witness :
  parameters (node_with_flag true) !! "joint_limits.foo_joint.k_position"
  = Some (PARAMETER_DOUBLE (of_Z 10)).
Proof.
  destruct (getSoftJointLimits_true_loaded "foo_joint" (node_with_flag true)
              loaded loaded) as (_ & Hk & _); [vm_compute; reflexivity|].
  exact Hk.
Defined.

(** The table with the soft fields and nothing else. *)
Lemma getSoftJointLimits_found_implies_getJointLimits_found_witness :
  match getJointLimits "foo_joint" (node_with_flag true)
          JointLimitsParameters.sevens with
  | Ok (b, _) => b = true
  | Raise _ => False
  end.
Proof.
  destruct (getJointLimits "foo_joint" (node_with_flag true)
              JointLimitsParameters.sevens) as [[b l']|e] eqn:E.
  - apply (getSoftJointLimits_found_implies_getJointLimits_found
             "foo_joint" (node_with_flag true) loaded loaded
             JointLimitsParameters.sevens l' b); [|exact E].
    vm_compute. reflexivity.
  - vm_compute in E. discriminate E.
Defined.

(** Without [has_soft_limits] the argument comes back as it was. *)
Lemma getSoftJointLimits_false_keeps_argument_witness :
  match getSoftJointLimits "foo_joint" node loaded with
  | Ok (false, soft') => soft' = loaded
  | _ => False
  end.
Proof.
  destruct (getSoftJointLimits "foo_joint" node loaded)
    as [[[] soft']|e] eqn:E.
  - vm_compute in E. discriminate E.
  - apply (getSoftJointLimits_false_keeps_argument "foo_joint" node loaded
             soft').
    exact E.
  - vm_compute in E. discriminate E.
Defined.

End SoftLimitsWitnesses.

(** ** More on comparisons and clamping *)

Section ClampFacts.

Implicit Types x y v lo hi : double.

Lemma mul_nan_r x : (x * quiet_NaN)%D = quiet_NaN.
Proof. by destruct x. Qed.

Lemma std_max_lower x y : (std_max x y <? y)%D = false.
Proof. unfold std_max. destruct (x <? y)%D eqn:E; [apply ltb_irrefl|done]. Qed.

Lemma std_min_upper x y : (y <? std_min x y)%D = false.
Proof. unfold std_min. destruct (y <? x)%D eqn:E; [apply ltb_irrefl|done]. Qed.

(** Clamping twice into the same interval is clamping once. *)
Lemma clamp_value_idemp v lo hi :
  (hi <? lo)%D = false →
  clamp_value (clamp_value v lo hi) lo hi = clamp_value v lo hi.
Proof.
  intros H. unfold clamp_value.
  destruct (v <? lo)%D eqn:E1; [by rewrite ltb_irrefl, H|].
  destruct (hi <? v)%D eqn:E2; [by rewrite H, ltb_irrefl|].
  by rewrite E1, E2.
Qed.

(** A value clamped into a proper interval of numbers respects every
    bound that the interval respects. *)
Lemma clamp_value_bounded v lo hi x y :
  (hi <? lo)%D = false → isnan lo = false → isnan hi = false →
  (lo <? x)%D = false → (y <? hi)%D = false →
  (clamp_value v lo hi <? x)%D = false ∧ (y <? clamp_value v lo hi)%D = false.
Proof.
  intros Hrev Hlo Hhi Hx Hy.
  destruct (clamp_value_not_outside v lo hi Hrev) as [H1 H2].
  split.
  - destruct (clamp_value v lo hi <? x)%D eqn:E; [|done].
    destruct (ltb_not_nan _ _ E) as [_ Hnx].
    pose proof (leb_of_not_ltb _ _ Hlo Hnx Hx) as Hle.
    pose proof (ltb_leb_trans _ _ _ E Hle). congruence.
  - destruct (y <? clamp_value v lo hi)%D eqn:E; [|done].
    destruct (ltb_not_nan _ _ E) as [_ Hnw].
    pose proof (leb_of_not_ltb _ _ Hhi Hnw H2) as Hle.
    pose proof (ltb_leb_trans _ _ _ E Hle). congruence.
Qed.

(** Comparisons around a bound that is not negative. *)
Lemma nonneg_bound x :
  (zero <=? x)%D = true →
  isnan x = false ∧ isnan (- x)%D = false ∧
  (x <? - x)%D = false ∧ (x <? zero)%D = false ∧ (zero <? - x)%D = false.
Proof. destruct x as [s|s| |s m e]; try done; by destruct s. Qed.

Lemma neg_neg x : (- - x)%D = x.
Proof. destruct x; cbn; by rewrite ?negb_involutive. Qed.

Lemma ltb_neg x y : (- x <? - y)%D = (y <? x)%D.
Proof.
  unfold ltb, SFltb.
  destruct x as [sx|sx| |sx mx ex], y as [sy|sy| |sy my ey];
    try destruct sx; try destruct sy; try reflexivity; cbn;
    rewrite (Z.compare_antisym ex ey);
    destruct (ex ?= ey); cbn; try reflexivity;
    first [rewrite (Pos.compare_cont_antisym my mx Eq)
          |rewrite (Pos.compare_cont_antisym mx my Eq)];
    reflexivity.
Qed.

Lemma valid_binary_neg x :
  valid_binary prec emax (- x)%D = valid_binary prec emax x.
Proof. by destruct x. Qed.

(** No finite [double] is below [-std::numeric_limits<double>::max()]. *)
Lemma numeric_limits_lowest (x : double) :
  valid_binary prec emax x = true → isfinite x = true →
  (x <? - numeric_limits_max)%D = false.
Proof.
  intros Hv Hf. rewrite <- (neg_neg x), ltb_neg.
  apply numeric_limits_max_largest;
    [by rewrite valid_binary_neg|by rewrite isfinite_neg].
Qed.

(** A finite command passes the widest interval unchanged. *)
Lemma clamp_value_unbounded (x : double) :
  valid_binary prec emax x = true → isfinite x = true →
  clamp_value x (- numeric_limits_max)%D numeric_limits_max = x.
Proof.
  intros Hv Hf. unfold clamp_value.
  by rewrite numeric_limits_lowest, numeric_limits_max_largest.
Qed.

(** The widest interval is not reversed. *)
Lemma clamp_widest (x : double) :
  clamp x (- numeric_limits_max)%D numeric_limits_max
  = Ok (clamp_value x (- numeric_limits_max)%D numeric_limits_max).
Proof. by apply clamp_ok. Qed.

(** A number clamped into a proper interval of numbers that lies within
    [[x, y]] lies within [[x, y]]. *)
Lemma clamp_value_within v lo hi x y :
  isnan v = false →
  (x <=? lo)%D = true → (lo <=? hi)%D = true → (hi <=? y)%D = true →
  (x <=? clamp_value v lo hi)%D = true ∧ (clamp_value v lo hi <=? y)%D = true.
Proof.
  intros Hv Hx Hp Hy.
  destruct (leb_not_nan _ _ Hp) as [Hlo Hhi].
  pose proof (leb_not_gtb _ _ Hp) as Hrev.
  assert (isnan (clamp_value v lo hi) = false) as Hc
    by by apply clamp_value_not_nan.
  destruct (clamp_value_inside v lo hi Hc Hlo Hhi Hrev) as [H1 H2].
  split; [exact (leb_trans _ _ _ Hx H1)|exact (leb_trans _ _ _ H2 Hy)].
Qed.

End ClampFacts.

(** ** What a cycle touches *)

Section Frames.

Lemma set_value_frame (p : option ptr) (v : double) (hw hw' : Hardware) :
  set_value p v hw = Ok hw' →
  ∀ a, jh_name (hw' a) = jh_name (hw a) ∧ (p ≠ Some a → hw' a = hw a).
Proof.
  destruct p as [c|]; [|done]. intros [= <-] a. cbn.
  destruct (Nat.eqb_spec a c) as [->|Hne]; cbn; [by split|].
  split; [done|]. done.
Qed.

(** Take a successful chain of calls apart. *)
Ltac chain H :=
  repeat match type of H with
         | context [mbind _ ?m] =>
             let E := fresh "E" in
             destruct m as [?|?] eqn:E; cbn in H; [|discriminate H]
         | context [let '(_, _) := ?w in _] =>
             let E := fresh "E" in destruct w as [? ?] eqn:E; cbn in H
         end.

Lemma enforceLimits_frame :
  (∀ h period hw h' hw',
     PositionJointSaturationHandle.enforceLimits h period hw = Ok (h', hw') →
     only_written (jcmdh_ (PositionJointSaturationHandle.base h)) hw hw') ∧
  (∀ h period hw h' hw',
     PositionJointSoftLimitsHandle.enforceLimits h period hw = Ok (h', hw') →
     only_written (jcmdh_ (sat h)) hw hw') ∧
  (∀ h period hw h' hw',
     EffortJointSaturationHandle.enforceLimits h period hw = Ok (h', hw') →
     only_written (jcmdh_ h) hw hw') ∧
  (∀ h period hw h' hw',
     EffortJointSoftLimitsHandle.enforceLimits h period hw = Ok (h', hw') →
     only_written (jcmdh_ (sat h)) hw hw') ∧
  (∀ h period hw h' hw',
     VelocityJointSaturationHandle.enforceLimits h period hw = Ok (h', hw') →
     only_written (jcmdh_ h) hw hw') ∧
  (∀ h period hw h' hw',
     VelocityJointSoftLimitsHandle.enforceLimits h period hw = Ok (h', hw') →
     only_written (jcmdh_ (sat (VelocityJointSoftLimitsHandle.soft h))) hw hw').
Proof.
  unfold PositionJointSaturationHandle.enforceLimits,
    PositionJointSoftLimitsHandle.enforceLimits,
    EffortJointSaturationHandle.enforceLimits,
    EffortJointSoftLimitsHandle.enforceLimits,
    VelocityJointSaturationHandle.enforceLimits,
    VelocityJointSoftLimitsHandle.enforceLimits.
  repeat apply conj; intros h period hw h' hw' H; chain H;
    injection H as <- <-; unfold only_written; by eapply set_value_frame.
Qed.

(** X9: a cycle of any of the six handles changes the value of the command
    handle and nothing else in the hardware: no name, and no value of a
    handle at another address. *)
Theorem enforceLimits_writes_command_only :
  (∀ h period hw h' hw',
     PositionJointSaturationHandle.enforceLimits h period hw = Ok (h', hw') →
     only_written (jcmdh_ (PositionJointSaturationHandle.base h)) hw hw') ∧
  (∀ h period hw h' hw',
     PositionJointSoftLimitsHandle.enforceLimits h period hw = Ok (h', hw') →
     only_written (jcmdh_ (sat h)) hw hw') ∧
  (∀ h period hw h' hw',
     EffortJointSaturationHandle.enforceLimits h period hw = Ok (h', hw') →
     only_written (jcmdh_ h) hw hw') ∧
  (∀ h period hw h' hw',
     EffortJointSoftLimitsHandle.enforceLimits h period hw = Ok (h', hw') →
     only_written (jcmdh_ (sat h)) hw hw') ∧
  (∀ h period hw h' hw',
     VelocityJointSaturationHandle.enforceLimits h period hw = Ok (h', hw') →
     only_written (jcmdh_ h) hw hw') ∧
  (∀ h period hw h' hw',
     VelocityJointSoftLimitsHandle.enforceLimits h period hw = Ok (h', hw') →
     only_written (jcmdh_ (sat (VelocityJointSoftLimitsHandle.soft h))) hw hw').
Proof. exact enforceLimits_frame. Qed.

(** At the effort scenario the velocity handle keeps its reading. *)
Lemma enforceLimits_writes_command_only_witness :
  match EffortSaturationScenario.run (of_Z 2) (of_Z 3) (of_Z 15) with
  | Ok (_, hw') => jh_value (hw' EffortSaturationScenario.jvelh) = of_Z 3
  | Raise _ => False
  end.
Proof.
  destruct (EffortSaturationScenario.run (of_Z 2) (of_Z 3) (of_Z 15))
    as [[h1 hw1]|] eqn:E; [|vm_compute in E; discriminate E].
  destruct (proj1 (proj2 (proj2 enforceLimits_writes_command_only))
              (Base.make (Some EffortSaturationScenario.jposh)
                 (Some EffortSaturationScenario.jvelh)
                 (Some EffortSaturationScenario.jcmdh)
                 EffortSaturationScenario.limits)
              EffortSaturationScenario.period
              (EffortSaturationScenario.hw (of_Z 2) (of_Z 3) (of_Z 15))
              h1 hw1 E EffortSaturationScenario.jvelh) as [_ Hval].
  rewrite Hval; [reflexivity|discriminate].
Defined.

Lemma enforceLimits_configuration :
  (∀ h period hw h' hw',
     PositionJointSaturationHandle.enforceLimits h period hw = Ok (h', hw') →
     ∃ cmd, h' = PositionJointSaturationHandle.with_base h
                   (Base.set_prev_pos (PositionJointSaturationHandle.base h)
                      cmd)) ∧
  (∀ h period hw h' hw',
     PositionJointSoftLimitsHandle.enforceLimits h period hw = Ok (h', hw') →
     ∃ cmd, h' = SoftBase.with_sat h (Base.set_prev_pos (sat h) cmd)) ∧
  (∀ h period hw h' hw',
     EffortJointSaturationHandle.enforceLimits h period hw = Ok (h', hw') →
     h' = h) ∧
  (∀ h period hw h' hw',
     EffortJointSoftLimitsHandle.enforceLimits h period hw = Ok (h', hw') →
     h' = h) ∧
  (∀ h period hw h' hw',
     VelocityJointSaturationHandle.enforceLimits h period hw = Ok (h', hw') →
     ∃ cmd, h' = Base.set_prev_vel h cmd) ∧
  (∀ h period hw h' hw',
     VelocityJointSoftLimitsHandle.enforceLimits h period hw = Ok (h', hw') →
     h' = h).
Proof.
  unfold PositionJointSaturationHandle.enforceLimits,
    PositionJointSoftLimitsHandle.enforceLimits,
    EffortJointSaturationHandle.enforceLimits,
    EffortJointSoftLimitsHandle.enforceLimits,
    VelocityJointSaturationHandle.enforceLimits,
    VelocityJointSoftLimitsHandle.enforceLimits.
  repeat apply conj; intros h period hw h' hw' H; chain H;
    injection H as <- <-; eauto.
Qed.

(** X10: a cycle never changes the handles, the limits or the soft limits a
    limit handle was built with: the position handles change their cached
    position only, the velocity saturation handle its cached velocity
    only, and the effort handles and the velocity soft handle nothing. *)
Theorem enforceLimits_keeps_configuration :
  (∀ h period hw h' hw',
     PositionJointSaturationHandle.enforceLimits h period hw = Ok (h', hw') →
     ∃ cmd, h' = PositionJointSaturationHandle.with_base h
                   (Base.set_prev_pos (PositionJointSaturationHandle.base h)
                      cmd)) ∧
  (∀ h period hw h' hw',
     PositionJointSoftLimitsHandle.enforceLimits h period hw = Ok (h', hw') →
     ∃ cmd, h' = SoftBase.with_sat h (Base.set_prev_pos (sat h) cmd)) ∧
  (∀ h period hw h' hw',
     EffortJointSaturationHandle.enforceLimits h period hw = Ok (h', hw') →
     h' = h) ∧
  (∀ h period hw h' hw',
     EffortJointSoftLimitsHandle.enforceLimits h period hw = Ok (h', hw') →
     h' = h) ∧
  (∀ h period hw h' hw',
     VelocityJointSaturationHandle.enforceLimits h period hw = Ok (h', hw') →
     ∃ cmd, h' = Base.set_prev_vel h cmd) ∧
  (∀ h period hw h' hw',
     VelocityJointSoftLimitsHandle.enforceLimits h period hw = Ok (h', hw') →
     h' = h).
Proof. exact enforceLimits_configuration. Qed.

(** At the position scenario the handle after the cycle is the one
    before it, with the written command as cached position. *)
Lemma enforceLimits_keeps_configuration_witness :
  match PositionSaturationScenario.run (of_Z 0) (of_Z 7) (of_Z 5) with
  | Ok (h', _) =>
      ∃ cmd,
        h' = {| PositionJointSaturationHandle.base :=
                  Base.set_prev_pos
                    (Base.make (Some PositionSaturationScenario.jposh) None
                       (Some PositionSaturationScenario.jcmdh)
                       PositionSaturationScenario.limits) cmd;
                PositionJointSaturationHandle.min_pos_limit_ := of_Z (-1);
                PositionJointSaturationHandle.max_pos_limit_ := of_Z 1 |}
  | Raise _ => False
  end.
Proof.
  destruct (PositionSaturationScenario.run (of_Z 0) (of_Z 7) (of_Z 5))
    as [[h1 hw1]|] eqn:E; [|vm_compute in E; discriminate E].
  destruct (proj1 enforceLimits_keeps_configuration
              {| PositionJointSaturationHandle.base :=
                   Base.set_prev_pos
                     (Base.make (Some PositionSaturationScenario.jposh) None
                        (Some PositionSaturationScenario.jcmdh)
                        PositionSaturationScenario.limits) (of_Z 0);
                 PositionJointSaturationHandle.min_pos_limit_ := of_Z (-1);
                 PositionJointSaturationHandle.max_pos_limit_ := of_Z 1 |}
              PositionSaturationScenario.period
              (PositionSaturationScenario.hw (of_Z 7) (of_Z 5))
              h1 hw1 E) as [cmd ->].
  by exists cmd.
Defined.

End Frames.

(** ** Effort saturation: the effort limit *)

Section EffortSaturationBound.

Import EffortJointSaturationHandle.

Ltac chain H :=
  repeat match type of H with
         | context [mbind _ ?m] =>
             let E := fresh "E" in
             destruct m as [?|?] eqn:E; cbn in H; [|discriminate H]
         | context [let '(_, _) := ?w in _] =>
             let E := fresh "E" in destruct w as [? ?] eqn:E; cbn in H
         end.

Lemma effort_window_shape (h : t) period hw lo hi :
  window h period hw = Ok (lo, hi) →
  (lo = (- max_effort (limits_ h))%D ∨ lo = zero) ∧
  (hi = zero ∨ hi = max_effort (limits_ h)).
Proof.
  unfold window, velocity_window, position_window. intros H.
  destruct (has_position_limits (limits_ h)).
  - destruct (get_value (jposh_ h) hw) as [pos|]; [cbn in H|done].
    destruct (Base.get_velocity h period hw) as [vel|]; [cbn in H|done].
    revert H.
    repeat match goal with
           | |- context [if ?c then _ else _] => destruct c
           end; cbn; intros [= <- <-]; auto.
  - cbn in H.
    destruct (Base.get_velocity h period hw) as [vel|]; [cbn in H|done].
    revert H.
    repeat match goal with
           | |- context [if ?c then _ else _] => destruct c
           end; cbn; intros [= <- <-]; auto.
Qed.

Lemma effort_window_proper (h : t) period hw lo hi :
  (zero <=? max_effort (limits_ h))%D = true →
  window h period hw = Ok (lo, hi) →
  (hi <? lo)%D = false ∧ isnan lo = false ∧ isnan hi = false ∧
  (lo <? - max_effort (limits_ h))%D = false ∧
  (max_effort (limits_ h) <? hi)%D = false.
Proof.
  intros Hm Hw.
  destruct (nonneg_bound _ Hm) as (N1 & N2 & N3 & N4 & N5).
  destruct (effort_window_shape _ _ _ _ _ Hw) as [[-> | ->] [-> | ->]];
    rewrite ?ltb_irrefl; done.
Qed.

(** X17: with an effort limit that is not negative, the effort written by a
    cycle is never below [-max_effort] nor above [max_effort], whatever
    the position, the velocity and the command are. *)
Theorem effort_saturation_within_max_effort (h h' : t) (period : Duration)
    (hw hw' : Hardware) (jcmdh : ptr) :
  (zero <=? max_effort (limits_ h))%D = true →
  jcmdh_ h = Some jcmdh →
  enforceLimits h period hw = Ok (h', hw') →
  (jh_value (hw' jcmdh) <? - max_effort (limits_ h))%D = false ∧
  (max_effort (limits_ h) <? jh_value (hw' jcmdh))%D = false.
Proof.
  intros Hm Hc H. unfold enforceLimits in H.
  destruct (window h period hw) as [[lo hi]|] eqn:Ew; [cbn -[clamp] in H|done].
  destruct (get_value (jcmdh_ h) hw) as [v|]; [cbn -[clamp] in H|done].
  destruct (clamp v lo hi) as [w|] eqn:Ec; [cbn in H|done].
  destruct (set_value (jcmdh_ h) w hw) as [hw1|] eqn:Es; [cbn in H|done].
  injection H as <- <-.
  rewrite Hc in *. apply set_value_get in Es. rewrite Es.
  destruct (clamp_returns _ _ _ _ Ec) as [_ ->].
  destruct (effort_window_proper _ _ _ _ _ Hm Ew) as (P1 & P2 & P3 & P4 & P5).
  by apply clamp_value_bounded.
Qed.

Lemma effort_saturation_within_max_effort_witness :
  match EffortSaturationScenario.run (of_Z 0) (of_Z 0) (of_Z 1000) with
  | Ok (_, hw') =>
      (of_Z 20 <? jh_value (hw' EffortSaturationScenario.jcmdh))%D = false
  | Raise _ => False
  end.
Proof.
  destruct (EffortSaturationScenario.run (of_Z 0) (of_Z 0) (of_Z 1000))
    as [[h1 hw1]|] eqn:E; [|vm_compute in E; discriminate E].
  exact (proj2 (effort_saturation_within_max_effort
                  (Base.make (Some EffortSaturationScenario.jposh)
                     (Some EffortSaturationScenario.jvelh)
                     (Some EffortSaturationScenario.jcmdh)
                     EffortSaturationScenario.limits)
                  h1 EffortSaturationScenario.period
                  (EffortSaturationScenario.hw (of_Z 0) (of_Z 0) (of_Z 1000))
                  hw1 EffortSaturationScenario.jcmdh eq_refl eq_refl E)).
Defined.

(** X18: with an effort limit that is not negative and sense handles other
    than the command handle, a second cycle over the hardware the first
    one left writes the same effort again. *)
Theorem effort_saturation_idempotent (h h' : t) (period : Duration)
    (hw hw' : Hardware) (jcmdh : ptr) :
  (zero <=? max_effort (limits_ h))%D = true →
  jcmdh_ h = Some jcmdh →
  jposh_ h ≠ Some jcmdh → jvelh_ h ≠ Some jcmdh →
  enforceLimits h period hw = Ok (h', hw') →
  ∃ hw'',
    enforceLimits h' period hw' = Ok (h', hw'') ∧
    jh_value (hw'' jcmdh) = jh_value (hw' jcmdh) ∧
    ∀ a, hw'' a = hw' a.
Proof.
  intros Hm Hc Hp Hv H. unfold enforceLimits in H.
  destruct (window h period hw) as [[lo hi]|] eqn:Ew; [cbn -[clamp] in H|done].
  destruct (get_value (jcmdh_ h) hw) as [v|]; [cbn -[clamp] in H|done].
  destruct (clamp v lo hi) as [w|] eqn:Ec; [cbn in H|done].
  destruct (set_value (jcmdh_ h) w hw) as [hw1|] eqn:E0; [cbn in H|done].
  injection H as <- <-. rename hw1 into hw'.
  destruct (clamp_returns _ _ _ _ Ec) as [_ ->].
  destruct (effort_window_proper _ _ _ _ _ Hm Ew) as (P1 & _).
  pose proof (set_value_frame _ _ _ _ E0) as Hframe.
  assert (get_value (jposh_ h) hw' = get_value (jposh_ h) hw) as Gp.
  { destruct (jposh_ h) as [a|] eqn:Ea; [cbn|done].
    destruct (Hframe a) as [_ ->]; [done|congruence]. }
  assert (Base.get_velocity h period hw' = Base.get_velocity h period hw) as Gv.
  { unfold Base.get_velocity. rewrite Gp.
    destruct (jvelh_ h) as [a|] eqn:Ea; [|done].
    destruct (Hframe a) as [_ ->]; [done|congruence]. }
  assert (window h period hw' = Ok (lo, hi)) as Ew'
    by (unfold window in *; by rewrite Gp, Gv).
  unfold enforceLimits. rewrite Ew'. cbn -[clamp].
  rewrite Hc in *. pose proof (set_value_get _ _ _ _ E0) as Hval.
  cbn -[clamp]. rewrite Hval, clamp_ok, (clamp_value_idemp _ _ _ P1) by done.
  cbn. eexists. split; [reflexivity|]. cbn. rewrite Nat.eqb_refl.
  split; [done|]. intros a.
  destruct (Nat.eqb_spec a jcmdh) as [->|]; [|done].
  rewrite <- Hval. by destruct (hw' jcmdh).
Qed.

Lemma effort_saturation_idempotent_witness :
  match EffortSaturationScenario.run (of_Z 2) (of_Z 0) (of_Z 15) with
  | Ok (h', hw') =>
      ∃ hw'', enforceLimits h' EffortSaturationScenario.period hw'
              = Ok (h', hw'') ∧
              jh_value (hw'' EffortSaturationScenario.jcmdh)
              = jh_value (hw' EffortSaturationScenario.jcmdh)
  | Raise _ => False
  end.
Proof.
  destruct (EffortSaturationScenario.run (of_Z 2) (of_Z 0) (of_Z 15))
    as [[h1 hw1]|] eqn:E; [|vm_compute in E; discriminate E].
  destruct (effort_saturation_idempotent
              (Base.make (Some EffortSaturationScenario.jposh)
                 (Some EffortSaturationScenario.jvelh)
                 (Some EffortSaturationScenario.jcmdh)
                 EffortSaturationScenario.limits)
              h1 EffortSaturationScenario.period
              (EffortSaturationScenario.hw (of_Z 2) (of_Z 0) (of_Z 15))
              hw1 EffortSaturationScenario.jcmdh
              eq_refl eq_refl ltac:(discriminate) ltac:(discriminate) E)
    as (hw2 & H1 & H2 & _).
  by exists hw2.
Defined.

End EffortSaturationBound.

(** ** Effort soft limits without a velocity handle *)

Section EffortSoftNoVelocity.

Import EffortJointSoftLimitsHandle.

Lemma effort_soft_reachable_same (h0 h : t) :
  effort_soft_reachable h0 h →
  prev_pos_ (sat h0) = quiet_NaN → prev_vel_ (sat h0) = zero → h = h0.
Proof.
  intros Hr Hp Hv. induction Hr as [|h Hr IH|h period hw h' hw' Hr IH Hc].
  - done.
  - rewrite IH. destruct h0 as [[] ?]. cbn in Hp, Hv. by subst.
  - destruct enforceLimits_configuration as (_ & _ & _ & Hk & _).
    by rewrite (Hk _ _ _ _ _ Hc).
Qed.

(** A soft effort bound computed from a NaN velocity is NaN. *)
Lemma soft_effort_bound_nan (k soft_vel lo hi r : double) :
  clamp (- k * (quiet_NaN - soft_vel))%D lo hi = Ok r → r = quiet_NaN.
Proof.
  rewrite sub_nan_l, mul_nan_r. intros H.
  destruct (clamp_returns _ _ _ _ H) as [_ ->]. by apply clamp_value_nan.
Qed.



End EffortSoftNoVelocity.

(** ** Handles built from limits without flags *)

Section Unlimited.

(** X14: without position and velocity limits, the position saturation handle
    writes every finite command back as it is and caches it; an infinite
    command is cut to [std::numeric_limits<double>::max()] in magnitude. *)
Theorem position_saturation_without_limits
    (jposh jcmdh : ptr) (limits : JointLimits)
    (h0 : PositionJointSaturationHandle.t) (prev : double)
    (period : Duration) (hw : Hardware) :
  has_position_limits limits = false →
  has_velocity_limits limits = false →
  PositionJointSaturationHandle.make (Some jposh) (Some jcmdh) limits = Ok h0 →
  let h := PositionJointSaturationHandle.with_base h0
             (Base.set_prev_pos (PositionJointSaturationHandle.base h0) prev) in
  let cmd := jh_value (hw jcmdh) in
  ∃ h' hw',
    PositionJointSaturationHandle.enforceLimits h period hw = Ok (h', hw') ∧
    prev_pos_ (PositionJointSaturationHandle.base h') = jh_value (hw' jcmdh) ∧
    (valid_binary prec emax cmd = true → isfinite cmd = true →
     jh_value (hw' jcmdh) = cmd) ∧
    (∀ s, cmd = S754_infinity s →
          jh_value (hw' jcmdh)
          = if s then (- numeric_limits_max)%D else numeric_limits_max).
Proof.
  intros Hp Hv Hmk h cmd.
  unfold PositionJointSaturationHandle.make in Hmk. rewrite Hp in Hmk.
  injection Hmk as <-.
  unfold PositionJointSaturationHandle.enforceLimits,
    PositionJointSaturationHandle.window.
  cbn -[clamp numeric_limits_max]. rewrite Hv.
  destruct (isnan prev); cbn -[clamp numeric_limits_max];
    rewrite clamp_widest; cbn -[clamp_value numeric_limits_max];
    (eexists _, _; split; [reflexivity|];
     cbn -[clamp_value numeric_limits_max];
     rewrite Nat.eqb_refl; cbn -[clamp_value numeric_limits_max]; fold cmd;
     split; [done|]; split;
     [intros Hval Hfin; by apply clamp_value_unbounded
     |intros s ->; by destruct s]).
Qed.

Lemma position_saturation_without_limits_witness :
  let limits :=
    {| min_position := zero; max_position := zero; max_velocity := zero;
       max_acceleration := zero; max_jerk := zero; max_effort := zero;
       has_position_limits := false; has_velocity_limits := false;
       has_acceleration_limits := false; has_jerk_limits := false;
       has_effort_limits := false; angle_wraparound := false |} in
  let h := {| PositionJointSaturationHandle.base :=
                Base.make (Some 0%nat) None (Some 1%nat) limits;
              PositionJointSaturationHandle.min_pos_limit_ :=
                (- numeric_limits_max)%D;
              PositionJointSaturationHandle.max_pos_limit_ :=
                numeric_limits_max |} in
  ∃ h' hw',
    PositionJointSaturationHandle.enforceLimits h
      PositionSaturationScenario.period
      (PositionSaturationScenario.hw (of_Z 0) (of_Z 1000000)) = Ok (h', hw') ∧
    jh_value (hw' 1%nat) = of_Z 1000000.
Proof.
  intros limits h.
  destruct (position_saturation_without_limits 0%nat 1%nat limits h
              quiet_NaN PositionSaturationScenario.period
              (PositionSaturationScenario.hw (of_Z 0) (of_Z 1000000))
              eq_refl eq_refl eq_refl)
    as (h' & hw' & Hrun & _ & Hfin & _).
  exists h', hw'. split; [exact Hrun|]. by apply Hfin.
Defined.

(** X22: without position, velocity and acceleration limits, the velocity soft
    handle writes every finite command back as it is, whatever the soft
    limits are and whether or not sense handles are bound. *)
Theorem velocity_soft_without_limits
    (jposh jvelh : option ptr) (jcmdh : ptr) (limits : JointLimits)
    (soft_limits : SoftJointLimits) (h : VelocityJointSoftLimitsHandle.t)
    (period : Duration) (hw : Hardware) :
  has_position_limits limits = false →
  has_velocity_limits limits = false →
  has_acceleration_limits limits = false →
  VelocityJointSoftLimitsHandle.make jposh jvelh (Some jcmdh) limits
    soft_limits = Ok h →
  valid_binary prec emax (jh_value (hw jcmdh)) = true →
  isfinite (jh_value (hw jcmdh)) = true →
  ∃ hw',
    VelocityJointSoftLimitsHandle.enforceLimits h period hw = Ok (h, hw') ∧
    jh_value (hw' jcmdh) = jh_value (hw jcmdh).
Proof.
  intros Hp Hv Ha Hmk Hval Hfin.
  unfold VelocityJointSoftLimitsHandle.make in Hmk. rewrite Hv in Hmk.
  injection Hmk as <-.
  unfold VelocityJointSoftLimitsHandle.enforceLimits,
    VelocityJointSoftLimitsHandle.window,
    VelocityJointSoftLimitsHandle.position_window.
  cbn -[clamp numeric_limits_max]. rewrite Hp, Ha.
  cbn -[clamp numeric_limits_max].
  rewrite clamp_widest, clamp_value_unbounded by done. cbn.
  eexists. split; [reflexivity|]. cbn. by rewrite Nat.eqb_refl.
Qed.

Lemma velocity_soft_without_limits_witness :
  let limits :=
    {| min_position := zero; max_position := zero; max_velocity := zero;
       max_acceleration := zero; max_jerk := zero; max_effort := zero;
       has_position_limits := false; has_velocity_limits := false;
       has_acceleration_limits := false; has_jerk_limits := false;
       has_effort_limits := false; angle_wraparound := false |} in
  let h := {| VelocityJointSoftLimitsHandle.soft :=
                SoftBase.make None None (Some 2%nat) limits
                  VelocitySoftScenario.soft_limits;
              VelocityJointSoftLimitsHandle.max_vel_limit_ :=
                numeric_limits_max |} in
  ∃ hw',
    VelocityJointSoftLimitsHandle.enforceLimits h VelocitySoftScenario.period
      (VelocitySoftScenario.hw zero zero (of_Z 1000000)) = Ok (h, hw') ∧
    jh_value (hw' 2%nat) = of_Z 1000000.
Proof.
  intros limits h.
  apply (velocity_soft_without_limits None None 2%nat limits
           VelocitySoftScenario.soft_limits h VelocitySoftScenario.period
           (VelocitySoftScenario.hw zero zero (of_Z 1000000)));
    reflexivity.
Defined.

End Unlimited.

(** ** The cached position *)

Section CachedPosition.

(** X12: a cycle of a position handle whose cached position is NaN (a new or
    reset handle) is the cycle of the same handle with the measured
    position as cached position. *)
Theorem first_cycle_seeds_from_measurement :
  (∀ (h : PositionJointSaturationHandle.t) (jposh : ptr) period hw,
     jposh_ (PositionJointSaturationHandle.base h) = Some jposh →
     isnan (prev_pos_ (PositionJointSaturationHandle.base h)) = true →
     PositionJointSaturationHandle.enforceLimits h period hw
     = PositionJointSaturationHandle.enforceLimits
         (PositionJointSaturationHandle.with_base h
            (Base.set_prev_pos (PositionJointSaturationHandle.base h)
               (jh_value (hw jposh))))
         period hw) ∧
  (∀ (h : PositionJointSoftLimitsHandle.t) (jposh : ptr) period hw,
     jposh_ (sat h) = Some jposh →
     isnan (prev_pos_ (sat h)) = true →
     PositionJointSoftLimitsHandle.enforceLimits h period hw
     = PositionJointSoftLimitsHandle.enforceLimits
         (SoftBase.with_sat h
            (Base.set_prev_pos (sat h) (jh_value (hw jposh))))
         period hw).
Proof.
  split; intros h jposh period hw Hj Hn.
  - unfold PositionJointSaturationHandle.enforceLimits. rewrite Hn, Hj.
    cbn. rewrite Hj. by destruct (isnan (jh_value (hw jposh))).
  - unfold PositionJointSoftLimitsHandle.enforceLimits. rewrite Hn, Hj.
    cbn. rewrite Hj. by destruct (isnan (jh_value (hw jposh))).
Qed.

(** A new handle that measures 0 behaves as the scenario handle whose
    cached position is 0. *)
Lemma first_cycle_seeds_from_measurement_witness :
  let h := {| PositionJointSaturationHandle.base :=
                Base.make (Some PositionSaturationScenario.jposh) None
                  (Some PositionSaturationScenario.jcmdh)
                  PositionSaturationScenario.limits;
              PositionJointSaturationHandle.min_pos_limit_ := of_Z (-1);
              PositionJointSaturationHandle.max_pos_limit_ := of_Z 1 |} in
  command_after PositionSaturationScenario.jcmdh
    (PositionJointSaturationHandle.enforceLimits h
       PositionSaturationScenario.period
       (PositionSaturationScenario.hw (of_Z 0) (of_Z 5)))
  = Some (of_Z 1).
Proof.
  intros h.
  rewrite (proj1 first_cycle_seeds_from_measurement h
             PositionSaturationScenario.jposh
             PositionSaturationScenario.period
             (PositionSaturationScenario.hw (of_Z 0) (of_Z 5))
             eq_refl eq_refl).
  reflexivity.
Defined.

Lemma position_saturation_reachable_shape
    (h0 h : PositionJointSaturationHandle.t) :
  position_saturation_reachable h0 h →
  prev_vel_ (PositionJointSaturationHandle.base h0) = zero →
  ∃ p, h = PositionJointSaturationHandle.with_base h0
             (Base.set_prev_pos (PositionJointSaturationHandle.base h0) p).
Proof.
  intros Hr Hv. induction Hr as [|h Hr IH|h period hw h' hw' Hr IH Hc].
  - exists (prev_pos_ (PositionJointSaturationHandle.base h0)).
    by destruct h0 as [[] ? ?].
  - destruct IH as [p ->]. exists quiet_NaN.
    destruct h0 as [[] ? ?]. cbn in Hv. by subst.
  - destruct IH as [p ->].
    destruct (proj1 enforceLimits_configuration _ _ _ _ _ Hc) as [cmd ->].
    by exists cmd.
Qed.

Lemma position_soft_reachable_shape (h0 h : PositionJointSoftLimitsHandle.t) :
  position_soft_reachable h0 h →
  prev_vel_ (sat h0) = zero →
  ∃ p, h = SoftBase.with_sat h0 (Base.set_prev_pos (sat h0) p).
Proof.
  intros Hr Hv. induction Hr as [|h Hr IH|h period hw h' hw' Hr IH Hc].
  - exists (prev_pos_ (sat h0)). by destruct h0 as [[] ?].
  - destruct IH as [p ->]. exists quiet_NaN.
    destruct h0 as [[] ?]. cbn in Hv. by subst.
  - destruct IH as [p ->].
    destruct (proj1 (proj2 enforceLimits_configuration) _ _ _ _ _ Hc)
      as [cmd ->].
    by exists cmd.
Qed.

Lemma velocity_saturation_reachable_shape
    (h0 h : VelocityJointSaturationHandle.t) :
  velocity_saturation_reachable h0 h →
  prev_pos_ h0 = quiet_NaN →
  ∃ v, h = Base.set_prev_vel h0 v.
Proof.
  intros Hr Hp. induction Hr as [|h Hr IH|h period hw h' hw' Hr IH Hc].
  - exists (prev_vel_ h0). by destruct h0.
  - destruct IH as [v ->]. exists zero. destruct h0. cbn in Hp. by subst.
  - destruct IH as [v ->].
    destruct (proj1 (proj2 (proj2 (proj2 (proj2 enforceLimits_configuration))))
                _ _ _ _ _ Hc) as [cmd ->].
    by exists cmd.
Qed.

(** X11: whatever cycles and resets a handle has gone through since it was
    built, it differs from the built handle in its cached command only,
    and [reset] gives the built handle back. *)
Theorem reset_restores_constructed_handle :
  (∀ jposh jcmdh limits h0 h,
     PositionJointSaturationHandle.make jposh jcmdh limits = Ok h0 →
     position_saturation_reachable h0 h →
     PositionJointSaturationHandle.reset h = h0 ∧
     ∃ p, h = PositionJointSaturationHandle.with_base h0
                (Base.set_prev_pos (PositionJointSaturationHandle.base h0) p)) ∧
  (∀ jposh jcmdh limits soft_limits hw0 h0 h,
     PositionJointSoftLimitsHandle.make jposh jcmdh limits soft_limits hw0
     = Ok h0 →
     position_soft_reachable h0 h →
     PositionJointSoftLimitsHandle.reset h = h0 ∧
     ∃ p, h = SoftBase.with_sat h0 (Base.set_prev_pos (sat h0) p)) ∧
  (∀ jvelh jcmdh limits hw0 h0 h,
     VelocityJointSaturationHandle.make jvelh jcmdh limits hw0 = Ok h0 →
     velocity_saturation_reachable h0 h →
     VelocityJointSaturationHandle.reset h = h0 ∧
     ∃ v, h = Base.set_prev_vel h0 v).
Proof.
  repeat apply conj.
  - intros jposh jcmdh limits h0 h Hmk Hr.
    assert (prev_pos_ (PositionJointSaturationHandle.base h0) = quiet_NaN ∧
            prev_vel_ (PositionJointSaturationHandle.base h0) = zero)
      as [Hp Hv].
    { unfold PositionJointSaturationHandle.make in Hmk.
      destruct (has_position_limits limits); by injection Hmk as <-. }
    destruct (position_saturation_reachable_shape _ _ Hr Hv) as [p ->].
    split; [|by exists p].
    destruct h0 as [[] ? ?]. cbn in Hp, Hv. by subst.
  - intros jposh jcmdh limits soft_limits hw0 h0 h Hmk Hr.
    assert (prev_pos_ (sat h0) = quiet_NaN ∧ prev_vel_ (sat h0) = zero)
      as [Hp Hv].
    { unfold PositionJointSoftLimitsHandle.make in Hmk.
      destruct (negb (has_velocity_limits limits)); [done|].
      by injection Hmk as <-. }
    destruct (position_soft_reachable_shape _ _ Hr Hv) as [p ->].
    split; [|by exists p].
    destruct h0 as [[] ?]. cbn in Hp, Hv. by subst.
  - intros jvelh jcmdh limits hw0 h0 h Hmk Hr.
    assert (prev_pos_ h0 = quiet_NaN ∧ prev_vel_ h0 = zero) as [Hp Hv].
    { unfold VelocityJointSaturationHandle.make in Hmk.
      destruct (negb (has_velocity_limits limits)); [done|].
      by injection Hmk as <-. }
    destruct (velocity_saturation_reachable_shape _ _ Hr Hp) as [v ->].
    split; [|by exists v].
    destruct h0. cbn in Hp, Hv. by subst.
Qed.

(** The velocity scenario handle after a cycle: its cached velocity is 1,
    and [reset] puts it back to the new handle. *)
Lemma reset_restores_constructed_handle_witness :
  let h0 := Base.make None None (Some VelocitySaturationScenario.jcmdh)
              VelocitySaturationScenario.limits in
  VelocityJointSaturationHandle.reset (Base.set_prev_vel h0 (of_Z 1)) = h0.
Proof.
  intros h0.
  assert (velocity_saturation_reachable h0 (Base.set_prev_vel h0 (of_Z 1)))
    as Hr.
  { eapply (vsat_reach_cycle h0 h0 VelocitySaturationScenario.period
              (VelocitySaturationScenario.hw (of_Z 100)));
      [apply vsat_reach_init|reflexivity]. }
  exact (proj1 (proj2 (proj2 reset_restores_constructed_handle) None
                  (Some VelocitySaturationScenario.jcmdh)
                  VelocitySaturationScenario.limits
                  (VelocitySaturationScenario.hw zero) h0
                  (Base.set_prev_vel h0 (of_Z 1)) eq_refl Hr)).
Defined.

End CachedPosition.

(** ** The hard limits on a proper interval *)

Section ProperInterval.

(** The second argument of [std::max] and [std::min] bounds a result
    that is a number. *)
Lemma std_max_ge_snd (x y : double) :
  isnan (std_max x y) = false → isnan y = false →
  (y <=? std_max x y)%D = true.
Proof.
  unfold std_max. destruct (x <? y)%D eqn:E; intros Hr Hy.
  - by apply leb_refl.
  - by apply leb_of_not_ltb.
Qed.

Lemma std_min_le_snd (x y : double) :
  isnan (std_min x y) = false → isnan y = false →
  (std_min x y <=? y)%D = true.
Proof.
  unfold std_min. destruct (y <? x)%D eqn:E; intros Hr Hy.
  - by apply leb_refl.
  - by apply leb_of_not_ltb.
Qed.

Lemma isnan_neg (x : double) : isnan (- x)%D = isnan x.
Proof. by destruct x. Qed.

Lemma neg_leb_self (m : double) :
  (zero <=? m)%D = true → (- m <=? m)%D = true.
Proof. destruct m as [s|s| |s m e]; try done; by destruct s. Qed.

(** X13: with position limits present and an initialized cached position,
    whenever the interval of the cycle is a proper interval of numbers
    (its ends are not NaN and the lower one is not above the upper one),
    the position written by the saturation handle is neither below
    [min_position] nor above [max_position], with or without velocity
    limits. *)
Theorem position_saturation_within_position_limits
    (jposh : option ptr) (jcmdh : ptr) (limits : JointLimits)
    (h0 : PositionJointSaturationHandle.t) (prev : double)
    (period : Duration) (hw : Hardware) :
  has_position_limits limits = true →
  PositionJointSaturationHandle.make jposh (Some jcmdh) limits = Ok h0 →
  isnan prev = false →
  let h := PositionJointSaturationHandle.with_base h0
             (Base.set_prev_pos (PositionJointSaturationHandle.base h0) prev) in
  let w := PositionJointSaturationHandle.window h prev period in
  (snd w <? fst w)%D = false → isnan (fst w) = false → isnan (snd w) = false →
  ∃ h' hw',
    PositionJointSaturationHandle.enforceLimits h period hw = Ok (h', hw') ∧
    (jh_value (hw' jcmdh) <? min_position limits)%D = false ∧
    (max_position limits <? jh_value (hw' jcmdh))%D = false.
Proof.
  intros Hp Hmk Hn h w Hrev Hlo Hhi.
  unfold PositionJointSaturationHandle.make in Hmk. rewrite Hp in Hmk.
  injection Hmk as <-.
  destruct (position_saturation_cycle h jcmdh prev period hw)
    as (h' & hw' & Hrun & Hw & _); try done.
  exists h', hw'. split; [exact Hrun|]. rewrite Hw.
  apply clamp_value_bounded; try done.
  - unfold w, PositionJointSaturationHandle.window. cbn.
    destruct (has_velocity_limits limits); cbn;
      [apply std_max_lower|apply ltb_irrefl].
  - unfold w, PositionJointSaturationHandle.window. cbn.
    destruct (has_velocity_limits limits); cbn;
      [apply std_min_upper|apply ltb_irrefl].
Qed.

Lemma position_saturation_within_position_limits_witness :
  ∃ h' hw',
    PositionSaturationScenario.run (of_Z 0) (of_Z 7) (of_Z 5) = Ok (h', hw') ∧
    (max_position PositionSaturationScenario.limits
     <? jh_value (hw' PositionSaturationScenario.jcmdh))%D = false.
Proof.
  destruct (position_saturation_within_position_limits
              (Some PositionSaturationScenario.jposh)
              PositionSaturationScenario.jcmdh
              PositionSaturationScenario.limits
              {| PositionJointSaturationHandle.base :=
                   Base.make (Some PositionSaturationScenario.jposh) None
                     (Some PositionSaturationScenario.jcmdh)
                     PositionSaturationScenario.limits;
                 PositionJointSaturationHandle.min_pos_limit_ := of_Z (-1);
                 PositionJointSaturationHandle.max_pos_limit_ := of_Z 1 |}
              (of_Z 0) PositionSaturationScenario.period
              (PositionSaturationScenario.hw (of_Z 7) (of_Z 5))
              eq_refl eq_refl eq_refl eq_refl eq_refl eq_refl)
    as (h' & hw' & Hrun & _ & Hmax).
  exists h', hw'. split; [exact Hrun|exact Hmax].
Defined.

(** X15: the soft-limit handle, with position limits
    [min_position <= max_position] present and an initialized cached
    position: whenever the position bounds of the cycle are computed
    and form a proper interval of numbers, a command that is a number
    is written as a number within [[min_position, max_position]],
    wherever the soft band lies, and the written value is cached. *)
Theorem position_soft_within_position_limits
    (jposh : option ptr) (jcmdh : ptr) (limits : JointLimits)
    (soft_limits : SoftJointLimits) (hw0 hw : Hardware)
    (h0 : PositionJointSoftLimitsHandle.t) (prev : double)
    (period : Duration) (lo hi : double) :
  has_position_limits limits = true →
  (min_position limits <=? max_position limits)%D = true →
  PositionJointSoftLimitsHandle.make jposh (Some jcmdh) limits soft_limits hw0
  = Ok h0 →
  isnan prev = false →
  (seconds period >? zero)%D = true →
  let h := SoftBase.with_sat h0 (Base.set_prev_pos (sat h0) prev) in
  PositionJointSoftLimitsHandle.window h prev period = Ok (lo, hi) →
  (lo <=? hi)%D = true →
  isnan (jh_value (hw jcmdh)) = false →
  ∃ h' hw',
    PositionJointSoftLimitsHandle.enforceLimits h period hw = Ok (h', hw') ∧
    prev_pos_ (sat h') = jh_value (hw' jcmdh) ∧
    (min_position limits <=? jh_value (hw' jcmdh))%D = true ∧
    (jh_value (hw' jcmdh) <=? max_position limits)%D = true.
Proof.
  intros Hp Hwf Hmk Hn Hdt h Hw Hprop Hc.
  assert (h0 = SoftBase.make jposh None (Some jcmdh) limits soft_limits) as ->.
  { unfold PositionJointSoftLimitsHandle.make in Hmk.
    destruct (negb (has_velocity_limits limits)); [done|]. by injection Hmk. }
  destruct (leb_not_nan _ _ Hwf) as [Nmin Nmax].
  destruct (leb_not_nan _ _ Hprop) as [Nlo Nhi].
  assert ((min_position limits <=? lo)%D = true ∧
          (hi <=? max_position limits)%D = true) as [Bl Bh].
  { pose proof Hw as Hw'.
    unfold PositionJointSoftLimitsHandle.window in Hw'.
    destruct (SoftBase.soft_vel_bounds _ _ _) as [[vmin vmax]|];
      [|done].
    cbn -[std_max std_min] in Hw'. rewrite Hp in Hw'.
    injection Hw' as <- <-.
    split; [by apply std_max_ge_snd|by apply std_min_le_snd]. }
  unfold PositionJointSoftLimitsHandle.enforceLimits. rewrite Hdt.
  cbn -[PositionJointSoftLimitsHandle.window clamp]. rewrite Hn.
  cbn -[PositionJointSoftLimitsHandle.window clamp]. fold h. rewrite Hw.
  cbn -[clamp]. rewrite clamp_ok by by apply leb_not_gtb. cbn.
  eexists _, _. split; [reflexivity|]. cbn.
  rewrite Nat.eqb_refl. cbn. split; [done|].
  by apply clamp_value_within.
Qed.

Lemma position_soft_within_position_limits_witness :
  let h := SoftBase.with_sat
             (SoftBase.make (Some PositionSoftScenario.jposh) None
                (Some PositionSoftScenario.jcmdh)
                (PositionSoftScenario.limits (of_Z (-2)))
                PositionSoftScenario.soft_limits)
             (Base.set_prev_pos
                (Base.make (Some PositionSoftScenario.jposh) None
                   (Some PositionSoftScenario.jcmdh)
                   (PositionSoftScenario.limits (of_Z (-2))))
                (of_Z 0)) in
  ∃ h' hw',
    PositionJointSoftLimitsHandle.enforceLimits h PositionSoftScenario.period
      (PositionSoftScenario.hw (of_Z 7) (of_Z 50)) = Ok (h', hw') ∧
    (jh_value (hw' PositionSoftScenario.jcmdh) <=? of_Z 2)%D = true.
Proof.
  intros h.
  destruct (position_soft_within_position_limits
              (Some PositionSoftScenario.jposh) PositionSoftScenario.jcmdh
              (PositionSoftScenario.limits (of_Z (-2)))
              PositionSoftScenario.soft_limits
              (PositionSoftScenario.hw zero zero)
              (PositionSoftScenario.hw (of_Z 7) (of_Z 50))
              (SoftBase.make (Some PositionSoftScenario.jposh) None
                 (Some PositionSoftScenario.jcmdh)
                 (PositionSoftScenario.limits (of_Z (-2)))
                 PositionSoftScenario.soft_limits)
              (of_Z 0) PositionSoftScenario.period (of_Z (-2)) (of_Z 2)
              eq_refl eq_refl eq_refl eq_refl eq_refl eq_refl eq_refl eq_refl)
    as (h' & hw' & Hrun & _ & _ & Hmax).
  exists h', hw'. split; [exact Hrun|exact Hmax].
Defined.

(** X20: the velocity saturation handle, with a velocity limit that is a
    number: whenever the velocity bounds of the cycle form a proper
    interval of numbers, a command that is a number is written as a
    number within [[-max_velocity, max_velocity]] and becomes the cached
    velocity; without acceleration limits and with a velocity limit
    that is not negative the interval is always proper, whatever the
    period is. *)
Theorem velocity_saturation_within_max_velocity :
  (∀ (h : VelocityJointSaturationHandle.t) period hw jcmdh lo hi,
     jcmdh_ h = Some jcmdh →
     isnan (max_velocity (limits_ h)) = false →
     VelocityJointSaturationHandle.window h period = Ok (lo, hi) →
     (lo <=? hi)%D = true →
     isnan (jh_value (hw jcmdh)) = false →
     ∃ h' hw',
       VelocityJointSaturationHandle.enforceLimits h period hw = Ok (h', hw') ∧
       prev_vel_ h' = jh_value (hw' jcmdh) ∧
       (- max_velocity (limits_ h) <=? jh_value (hw' jcmdh))%D = true ∧
       (jh_value (hw' jcmdh) <=? max_velocity (limits_ h))%D = true) ∧
  (∀ (h : VelocityJointSaturationHandle.t) period hw jcmdh,
     jcmdh_ h = Some jcmdh →
     has_acceleration_limits (limits_ h) = false →
     (zero <=? max_velocity (limits_ h))%D = true →
     isnan (jh_value (hw jcmdh)) = false →
     ∃ h' hw',
       VelocityJointSaturationHandle.enforceLimits h period hw = Ok (h', hw') ∧
       prev_vel_ h' = jh_value (hw' jcmdh) ∧
       (- max_velocity (limits_ h) <=? jh_value (hw' jcmdh))%D = true ∧
       (jh_value (hw' jcmdh) <=? max_velocity (limits_ h))%D = true).
Proof.
  assert (∀ (h : VelocityJointSaturationHandle.t) period hw jcmdh lo hi,
     jcmdh_ h = Some jcmdh →
     isnan (max_velocity (limits_ h)) = false →
     VelocityJointSaturationHandle.window h period = Ok (lo, hi) →
     (lo <=? hi)%D = true →
     isnan (jh_value (hw jcmdh)) = false →
     ∃ h' hw',
       VelocityJointSaturationHandle.enforceLimits h period hw = Ok (h', hw') ∧
       prev_vel_ h' = jh_value (hw' jcmdh) ∧
       (- max_velocity (limits_ h) <=? jh_value (hw' jcmdh))%D = true ∧
       (jh_value (hw' jcmdh) <=? max_velocity (limits_ h))%D = true) as Hgen.
  { intros h period hw jcmdh lo hi Hc Hm Hw Hprop Hcmd.
    destruct (leb_not_nan _ _ Hprop) as [Nlo Nhi].
    assert ((- max_velocity (limits_ h) <=? lo)%D = true ∧
            (hi <=? max_velocity (limits_ h))%D = true) as [Bl Bh].
    { pose proof Hw as Hw'.
      unfold VelocityJointSaturationHandle.window in Hw'.
      destruct (has_acceleration_limits (limits_ h)).
      - destruct (assert _); [cbn -[std_max std_min] in Hw'|done].
        injection Hw' as <- <-.
        split; [apply std_max_ge_snd|apply std_min_le_snd]; try done.
        by rewrite isnan_neg.
      - injection Hw' as <- <-. split; by apply leb_refl. }
    unfold VelocityJointSaturationHandle.enforceLimits.
    rewrite Hw, Hc. cbn -[clamp].
    rewrite clamp_ok by by apply leb_not_gtb. cbn.
    eexists _, _. split; [reflexivity|]. cbn.
    rewrite Nat.eqb_refl. cbn. split; [done|].
    by apply clamp_value_within. }
  split; [exact Hgen|].
  intros h period hw jcmdh Hc Ha Hm Hcmd.
  destruct (leb_not_nan _ _ Hm) as [_ Nm].
  apply (Hgen h period hw jcmdh (- max_velocity (limits_ h))%D
           (max_velocity (limits_ h))); try done.
  - unfold VelocityJointSaturationHandle.window. by rewrite Ha.
  - by apply neg_leb_self.
Qed.

Lemma velocity_saturation_within_max_velocity_witness :
  ∃ h' hw',
    VelocitySaturationScenario.run (of_Z 100) = Ok (h', hw') ∧
    (jh_value (hw' VelocitySaturationScenario.jcmdh) <=? of_Z 10)%D = true.
Proof.
  destruct (proj1 velocity_saturation_within_max_velocity
           (Base.make None None (Some VelocitySaturationScenario.jcmdh)
              VelocitySaturationScenario.limits)
           VelocitySaturationScenario.period
           (VelocitySaturationScenario.hw (of_Z 100))
           VelocitySaturationScenario.jcmdh (of_Z (-1)) (of_Z 1)
           eq_refl eq_refl eq_refl eq_refl eq_refl)
    as (h' & hw' & Hrun & _ & _ & Hmax).
  exists h', hw'. split; [exact Hrun|exact Hmax].
Defined.

End ProperInterval.

(** ** Joints without position limits *)

Section Continuous.

(** X16: without position limits the soft limits play no role in what the
    position and velocity soft handles write: two handles that differ in
    their soft limits only leave the same hardware behind. *)
Theorem soft_limits_unused_without_position_limits :
  (∀ jposh jcmdh limits soft1 soft2 hw0 h1 h2 prev period hw a,
     has_position_limits limits = false →
     PositionJointSoftLimitsHandle.make jposh jcmdh limits soft1 hw0 = Ok h1 →
     PositionJointSoftLimitsHandle.make jposh jcmdh limits soft2 hw0 = Ok h2 →
     command_after a
       (PositionJointSoftLimitsHandle.enforceLimits
          (SoftBase.with_sat h1 (Base.set_prev_pos (sat h1) prev)) period hw)
     = command_after a
         (PositionJointSoftLimitsHandle.enforceLimits
            (SoftBase.with_sat h2 (Base.set_prev_pos (sat h2) prev))
            period hw)) ∧
  (∀ jposh jvelh jcmdh limits soft1 soft2 h1 h2 period hw a,
     has_position_limits limits = false →
     VelocityJointSoftLimitsHandle.make jposh jvelh jcmdh limits soft1 = Ok h1 →
     VelocityJointSoftLimitsHandle.make jposh jvelh jcmdh limits soft2 = Ok h2 →
     command_after a (VelocityJointSoftLimitsHandle.enforceLimits h1 period hw)
     = command_after a
         (VelocityJointSoftLimitsHandle.enforceLimits h2 period hw)).
Proof.
  split.
  - intros jposh jcmdh limits soft1 soft2 hw0 h1 h2 prev period hw a Hp H1 H2.
    unfold PositionJointSoftLimitsHandle.make in H1, H2.
    destruct (negb (has_velocity_limits limits)); [done|].
    injection H1 as <-. injection H2 as <-.
    unfold PositionJointSoftLimitsHandle.enforceLimits,
      PositionJointSoftLimitsHandle.window, SoftBase.soft_vel_bounds.
    cbn -[clamp]. rewrite Hp.
    destruct (assert _); [cbn -[clamp]|done].
    destruct (if isnan prev then _ else _); [cbn -[clamp]|done].
    destruct (get_value jcmdh hw); [cbn -[clamp]|done].
    destruct (clamp _ _ _); [cbn|done].
    by destruct (set_value jcmdh _ hw); [cbn;
      destruct (get_value jcmdh _)|].
  - intros jposh jvelh jcmdh limits soft1 soft2 h1 h2 period hw a Hp H1 H2.
    unfold VelocityJointSoftLimitsHandle.make in H1, H2.
    destruct (has_velocity_limits limits);
      injection H1 as <-; injection H2 as <-;
      unfold VelocityJointSoftLimitsHandle.enforceLimits,
        VelocityJointSoftLimitsHandle.window,
        VelocityJointSoftLimitsHandle.position_window;
      cbn -[clamp Base.get_velocity]; rewrite Hp;
      cbn -[clamp Base.get_velocity];
      (destruct (has_acceleration_limits limits);
       [destruct (Base.get_velocity _ period hw)|];
       cbn -[clamp]; try done;
       (destruct (get_value jcmdh hw); [cbn -[clamp]|done]);
       (destruct (clamp _ _ _); [cbn|done]);
       by destruct (set_value jcmdh _ hw)).
Qed.

Lemma soft_limits_unused_without_position_limits_witness :
  let limits :=
    {| min_position := zero; max_position := zero; max_velocity := of_Z 2;
       max_acceleration := zero; max_jerk := zero; max_effort := zero;
       has_position_limits := false; has_velocity_limits := true;
       has_acceleration_limits := false; has_jerk_limits := false;
       has_effort_limits := false; angle_wraparound := true |} in
  let h soft := SoftBase.with_sat
                  (SoftBase.make (Some 0%nat) None (Some 1%nat) limits soft)
                  (Base.set_prev_pos
                     (Base.make (Some 0%nat) None (Some 1%nat) limits)
                     (of_Z 0)) in
  command_after 1%nat
    (PositionJointSoftLimitsHandle.enforceLimits
       (h PositionSoftScenario.soft_limits) PositionSoftScenario.period
       (PositionSoftScenario.hw (of_Z 7) (of_Z 50)))
  = command_after 1%nat
      (PositionJointSoftLimitsHandle.enforceLimits
         (h VelocitySoftScenario.soft_limits) PositionSoftScenario.period
         (PositionSoftScenario.hw (of_Z 7) (of_Z 50))).
Proof.
  intros limits h.
  exact (proj1 soft_limits_unused_without_position_limits
           (Some 0%nat) (Some 1%nat) limits
           PositionSoftScenario.soft_limits VelocitySoftScenario.soft_limits
           (PositionSoftScenario.hw zero zero)
           (SoftBase.make (Some 0%nat) None (Some 1%nat) limits
              PositionSoftScenario.soft_limits)
           (SoftBase.make (Some 0%nat) None (Some 1%nat) limits
              VelocitySoftScenario.soft_limits)
           (of_Z 0) PositionSoftScenario.period
           (PositionSoftScenario.hw (of_Z 7) (of_Z 50)) 1%nat
           eq_refl eq_refl eq_refl).
Defined.

End Continuous.

(** ** Velocity soft limits: the velocity cap *)

Section VelocitySoftCap.

Import VelocityJointSoftLimitsHandle.

(** Bounds from the soft position band that are numbers lie within the
    cap. *)
Lemma velocity_soft_position_window_capped (h : t) hw pmin pmax :
  (zero <=? max_vel_limit_ h)%D = true →
  position_window h hw = Ok (pmin, pmax) →
  isnan pmin = false → isnan pmax = false →
  (- max_vel_limit_ h <=? pmin)%D = true ∧
  (pmax <=? max_vel_limit_ h)%D = true.
Proof.
  intros Hm Hw Npmin Npmax.
  destruct (leb_not_nan _ _ Hm) as [_ Nm].
  assert (isnan (- max_vel_limit_ h)%D = false) as Nm'
    by by rewrite isnan_neg.
  unfold position_window in Hw.
  destruct (has_position_limits (limits_ (sat (soft h)))).
  - destruct (get_value _ hw); [cbn -[clamp] in Hw|done].
    destruct (clamp (- _ * (_ - soft_min_position _))%D _ _) as [c1|] eqn:Ea;
      [cbn -[clamp] in Hw|done].
    destruct (clamp (- _ * (_ - soft_max_position _))%D _ _) as [c2|] eqn:Eb;
      [cbn in Hw|done].
    injection Hw as -> ->.
    destruct (clamp_returns _ _ _ _ Ea) as [Hrev ->].
    destruct (clamp_returns _ _ _ _ Eb) as [_ ->].
    split.
    + by apply (clamp_value_inside _ _ _ Npmin Nm' Nm Hrev).
    + by apply (clamp_value_inside _ _ _ Npmax Nm' Nm Hrev).
  - injection Hw as <- <-. split; by apply leb_refl.
Qed.

(** X21: with a velocity cap that is not negative, whenever the bounds from
    the soft position band are numbers and the velocity bounds of the
    cycle form a proper interval of numbers, a command that is a number
    is written as a number within the cap ([max_velocity], when velocity
    limits are present), with or without acceleration limits. *)
Theorem velocity_soft_within_velocity_cap (h : t) (period : Duration)
    (hw : Hardware) (jcmdh : ptr) (pmin pmax lo hi : double) :
  jcmdh_ (sat (soft h)) = Some jcmdh →
  (zero <=? max_vel_limit_ h)%D = true →
  position_window h hw = Ok (pmin, pmax) →
  isnan pmin = false → isnan pmax = false →
  window h period hw = Ok (lo, hi) →
  (lo <=? hi)%D = true →
  isnan (jh_value (hw jcmdh)) = false →
  ∃ hw',
    enforceLimits h period hw = Ok (h, hw') ∧
    (- max_vel_limit_ h <=? jh_value (hw' jcmdh))%D = true ∧
    (jh_value (hw' jcmdh) <=? max_vel_limit_ h)%D = true.
Proof.
  intros Hc Hm Hpw Hpmin Hpmax Hw Hprop Hcmd.
  destruct (leb_not_nan _ _ Hprop) as [Nlo Nhi].
  destruct (velocity_soft_position_window_capped _ _ _ _ Hm Hpw Hpmin Hpmax)
    as [C1 C2].
  assert ((pmin <=? lo)%D = true ∧ (hi <=? pmax)%D = true) as [L1 L2].
  { pose proof Hw as Hw'. unfold window in Hw'. rewrite Hpw in Hw'.
    cbn -[std_max std_min] in Hw'.
    destruct (has_acceleration_limits _).
    - destruct (Base.get_velocity _ period hw);
        [cbn -[std_max std_min] in Hw'|done].
      injection Hw' as <- <-.
      split; [by apply std_max_ge_snd|by apply std_min_le_snd].
    - injection Hw' as <- <-. split; by apply leb_refl. }
  unfold enforceLimits. rewrite Hw, Hc. cbn -[clamp].
  rewrite clamp_ok by by apply leb_not_gtb. cbn.
  eexists. split; [reflexivity|]. cbn. rewrite Nat.eqb_refl. cbn.
  apply clamp_value_within; try done.
  - exact (leb_trans _ _ _ C1 L1).
  - exact (leb_trans _ _ _ L2 C2).
Qed.

(** The scenario handle with a velocity handle that reads 0: velocity
    limit 10, acceleration limit 1, command 1000. *)
Lemma velocity_soft_within_velocity_cap_witness :
  let h := {| soft := SoftBase.make (Some VelocitySoftScenario.jposh)
                        (Some VelocitySoftScenario.jvelh)
                        (Some VelocitySoftScenario.jcmdh)
                        VelocitySoftScenario.limits
                        VelocitySoftScenario.soft_limits;
              max_vel_limit_ := of_Z 10 |} in
  ∃ hw',
    VelocitySoftScenario.run true zero zero (of_Z 1000) = Ok (h, hw') ∧
    (jh_value (hw' VelocitySoftScenario.jcmdh) <=? of_Z 10)%D = true.
Proof.
  intros h.
  destruct (velocity_soft_within_velocity_cap h VelocitySoftScenario.period
              (VelocitySoftScenario.hw zero zero (of_Z 1000))
              VelocitySoftScenario.jcmdh
              (of_Z (-10)) (of_Z 10) (of_Z (-1)) (of_Z 1)
              eq_refl eq_refl eq_refl eq_refl eq_refl eq_refl
              eq_refl eq_refl)
    as (hw' & Hrun & _ & Hmax).
  exists hw'. split; [exact Hrun|exact Hmax].
Defined.

End VelocitySoftCap.
